(** * Mod lifecycle manager of modio-mod-manager: model and properties

    A shallow embedding of the parts of [src/gui.py] (class
    [ModDownloaderGUI]) and [src/loader] that implement the mod
    lifecycle: install, bulk update, toggle, delete, profile directory
    migration, archive extraction, file relocation and database saving.

    Python code that mutates [self] and the file system and that raises
    and catches exceptions is written in a state-and-exception monad
    over a [World]; a raised exception keeps the side effects made so
    far, as in Python.

    Modelling conventions:
    - a file is addressed by its directory and its entry name; directories
      are implicit (a directory "exists" when asked for), and creating
      one is an operation that may fail;
    - operating system failures (permissions, locks, cross-device moves)
      are injected through an oracle [faulty] over primitive operations;
    - [Path.glob(f"*{n}*")] is containment of [n] in the entry name
      (names carry no glob metacharacters) and ranges over files;
    - the application's own files (moddb.json, moddb.json.bak,
      profiles.json) live in the working directory, which is taken not
      to be a mod directory; they are kept in fields of their own;
    - float arithmetic of the progress bar and of the download and
      extraction percentages is exact rational arithmetic;
    - paths are taken as already resolved ([Path.resolve] is the
      identity), and the handlers are entered with
      [block_mod_status_change] unset;
    - [self.stats], logging, [time.sleep] and [processEvents] are left
      out: they touch nothing the properties below speak about. *)

From Stdlib Require Import Ascii ZArith QArith Qround Qminmax Lia Sorted.
From stdpp Require Import gmap strings list fin_maps pretty.
Close Scope Q_scope.
Open Scope string_scope.

(** ** Python string operations used by the code *)

Module Str.

(** [s.endswith(suf)] *)
Definition endswith (s suf : string) : bool :=
  String.prefix (String.rev suf) (String.rev s).

(** [sub in s] *)
Fixpoint contains (sub s : string) : bool :=
  String.prefix sub s ||
  match s with
  | EmptyString => false
  | String _ s' => contains sub s'
  end.

Definition lower_ascii (c : ascii) : ascii :=
  let n := nat_of_ascii c in
  if (65 <=? n)%nat && (n <=? 90)%nat then ascii_of_nat (n + 32) else c.

(** [s.lower()] on ASCII *)
Fixpoint lower (s : string) : string :=
  match s with
  | EmptyString => EmptyString
  | String c s' => String (lower_ascii c) (lower s')
  end.

Definition is_space (c : ascii) : bool :=
  let n := nat_of_ascii c in
  ((9 <=? n)%nat && (n <=? 13)%nat) || ((28 <=? n)%nat && (n <=? 32)%nat).

Fixpoint lstrip (s : string) : string :=
  match s with
  | EmptyString => EmptyString
  | String c s' => if is_space c then lstrip s' else s
  end.

(** [s.strip()] *)
Definition strip (s : string) : string :=
  String.rev (lstrip (String.rev (lstrip s))).

(** [s.replace(old, new)] for a non-empty [old]: left to right, non
    overlapping; [skip] counts the characters of a match still to drop. *)
Fixpoint replace_from (old new s : string) (skip : nat) : string :=
  match s with
  | EmptyString => EmptyString
  | String c s' =>
      match skip with
      | S k => replace_from old new s' k
      | O =>
          if String.prefix old s
          then new +:+ replace_from old new s' (String.length old - 1)
          else String c (replace_from old new s' 0)
      end
  end.

Definition replace (old new s : string) : string := replace_from old new s 0.

Fixpoint drop (n : nat) (s : string) : string :=
  match n, s with
  | S k, String _ s' => drop k s'
  | _, _ => s
  end.

Fixpoint before (c : ascii) (s : string) : string :=
  match s with
  | EmptyString => EmptyString
  | String a s' => if Ascii.eqb a c then EmptyString else String a (before c s')
  end.

Definition is_digit (c : ascii) : bool :=
  let n := nat_of_ascii c in (48 <=? n)%nat && (n <=? 57)%nat.

Fixpoint skip_digits (s : string) : string :=
  match s with
  | EmptyString => EmptyString
  | String c s' => if is_digit c then skip_digits s' else s
  end.

End Str.

(** ** pathlib on POSIX paths *)

Module Pathlib.

(** [Path(p).name]: the last component *)
Definition name_of (p : string) : string :=
  String.rev (Str.before "/" (String.rev p)).

(** the directory part of a relative path, [""] when there is none *)
Definition parent_of (p : string) : string :=
  String.substring 0 (String.length p - String.length (name_of p) - 1) p.

(** [d / rel] for a directory part [rel] *)
Definition join (d rel : string) : string :=
  if String.eqb rel "" then d else d +:+ "/" +:+ rel.

(** [Path(n).suffix]: from the last dot, unless it leads or ends [n] *)
Definition suffix (n : string) : string :=
  let ext := String.rev (Str.before "." (String.rev n)) in
  let i := (String.length n - String.length ext - 1)%nat in
  if Str.contains "." n && (0 <? i)%nat && (0 <? String.length ext)%nat
  then "." +:+ ext else "".

(** [Path(n).stem] *)
Definition stem (n : string) : string :=
  String.substring 0 (String.length n - String.length (suffix n)) n.

End Pathlib.

(** ** Python dictionaries with string keys, in insertion order *)

Section Dict.
Context {V : Type}.

Definition dict : Type := list (string * V).

Fixpoint dict_get (k : string) (d : dict) : option V :=
  match d with
  | [] => None
  | (k', v) :: d' => if String.eqb k k' then Some v else dict_get k d'
  end.

(** [d[k] = v]: an existing key keeps its position *)
Fixpoint dict_set (k : string) (v : V) (d : dict) : dict :=
  match d with
  | [] => [(k, v)]
  | (k', v') :: d' =>
      if String.eqb k k' then (k', v) :: d' else (k', v') :: dict_set k v d'
  end.

(** [del d[k]] *)
Fixpoint dict_del (k : string) (d : dict) : dict :=
  match d with
  | [] => []
  | (k', v') :: d' =>
      if String.eqb k k' then d' else (k', v') :: dict_del k d'
  end.

Definition dict_keys (d : dict) : list string := d.*1.

End Dict.
Arguments dict : clear implicits.

(** ** Data model *)

(** One entry of [self.mod_db["mods"]]; [url] may be absent, as in
    [mod_info.get("url", "")]. *)
Record ModInfo := mkModInfo {
  name : string;
  local_name : string;
  zip_name : string;
  installed_date : nat;
  updated_date : nat;
  profile : string;
  enabled : bool;
  installed_path : string;
  url : option string
}.

(** One entry of [self.profiles] *)
Record Profile := mkProfile {
  mod_directory : string;
  auto_extract : bool
}.

(** A file below a mod directory: directory and entry name *)
Abbreviation path := (string * string)%type.

Inductive content :=
| Blob (data : string)
| ZipFile (members : list (string * string)).

(** Primitive operations of the operating system that can fail *)
Inductive fsop :=
| OpMkdir (d : string)
| OpOpen (p : path)
| OpWrite (p : path)
| OpUnlink (p : path)
| OpRename (s d : path)
| OpCopy (s d : path)
| OpMove (s d : path).

#[global] Instance content_eq_dec : EqDecision content.
Proof. solve_decision. Defined.
#[global] Instance fsop_eq_dec : EqDecision fsop.
Proof. solve_decision. Defined.

Inductive exn :=
| WrongUrl (msg : string)
| ModFileNotFound
| FileNotFoundError (msg : string)
| ValueError (msg : string)
| RuntimeError (msg : string)
| OSError (msg : string)
| BadZipFile (msg : string)
| KeyError (msg : string)
| ConnectionError (msg : string)
| ZeroDivisionError (msg : string).

(** [str(e)] *)
Definition str (e : exn) : string :=
  match e with
  | WrongUrl m | FileNotFoundError m | ValueError m | RuntimeError m
  | OSError m | BadZipFile m | KeyError m | ConnectionError m
  | ZeroDivisionError m => m
  | ModFileNotFound => ""
  end.

Inductive dialog :=
| Warning (title text : string)
| Information (title text : string)
| Critical (title text : string).

(** What the source resolver and the HTTP transport do for a URL, the
    external collaborators of [loader.download_mod]: the URL does not
    parse, the API call fails, the mod has no file, or it has a file of
    declared size [file_size] whose stream delivers blocks of the lengths
    [chunks] and then ends with the file [body] on disk, or breaks. *)
Inductive reply :=
| NoSuchMod
| ResolveError (msg : string)
| NoFile
| Asset (filename : string) (file_size : Z) (chunks : list Z)
        (body : option content).

Definition db_file : path := (".", "moddb.json").
Definition db_backup : path := (".", "moddb.json.bak").
Definition profiles_file : path := (".", "profiles.json").

Record World := mkWorld {
  fs : gmap path content;
  mod_db : dict ModInfo;
  profiles : dict Profile;
  db_disk : option (dict ModInfo);
  bak_disk : option (dict ModInfo);
  profiles_disk : option (dict Profile);
  clock : nat;
  bar : list Z;
  net : list string;
  dialogs : list dialog;
  db_saves : nat
}.

Definition with_fs (f : gmap path content → gmap path content) (w : World) : World :=
  mkWorld (f (fs w)) (mod_db w) (profiles w) (db_disk w) (bak_disk w)
          (profiles_disk w) (clock w) (bar w) (net w) (dialogs w) (db_saves w).
Definition with_mod_db (f : dict ModInfo → dict ModInfo) (w : World) : World :=
  mkWorld (fs w) (f (mod_db w)) (profiles w) (db_disk w) (bak_disk w)
          (profiles_disk w) (clock w) (bar w) (net w) (dialogs w) (db_saves w).
Definition with_profiles (f : dict Profile → dict Profile) (w : World) : World :=
  mkWorld (fs w) (mod_db w) (f (profiles w)) (db_disk w) (bak_disk w)
          (profiles_disk w) (clock w) (bar w) (net w) (dialogs w) (db_saves w).
Definition with_db_disk (d : option (dict ModInfo)) (w : World) : World :=
  mkWorld (fs w) (mod_db w) (profiles w) d (bak_disk w)
          (profiles_disk w) (clock w) (bar w) (net w) (dialogs w) (db_saves w).
Definition with_bak_disk (d : option (dict ModInfo)) (w : World) : World :=
  mkWorld (fs w) (mod_db w) (profiles w) (db_disk w) d
          (profiles_disk w) (clock w) (bar w) (net w) (dialogs w) (db_saves w).
Definition with_profiles_disk (d : option (dict Profile)) (w : World) : World :=
  mkWorld (fs w) (mod_db w) (profiles w) (db_disk w) (bak_disk w)
          d (clock w) (bar w) (net w) (dialogs w) (db_saves w).
Definition tick (w : World) : World :=
  mkWorld (fs w) (mod_db w) (profiles w) (db_disk w) (bak_disk w)
          (profiles_disk w) (S (clock w)) (bar w) (net w) (dialogs w) (db_saves w).
Definition push_bar (v : Z) (w : World) : World :=
  mkWorld (fs w) (mod_db w) (profiles w) (db_disk w) (bak_disk w)
          (profiles_disk w) (clock w) (v :: bar w) (net w) (dialogs w) (db_saves w).
Definition push_net (u : string) (w : World) : World :=
  mkWorld (fs w) (mod_db w) (profiles w) (db_disk w) (bak_disk w)
          (profiles_disk w) (clock w) (bar w) (u :: net w) (dialogs w) (db_saves w).
Definition push_dialog (d : dialog) (w : World) : World :=
  mkWorld (fs w) (mod_db w) (profiles w) (db_disk w) (bak_disk w)
          (profiles_disk w) (clock w) (bar w) (net w) (d :: dialogs w) (db_saves w).
Definition count_save (w : World) : World :=
  mkWorld (fs w) (mod_db w) (profiles w) (db_disk w) (bak_disk w)
          (profiles_disk w) (clock w) (bar w) (net w) (dialogs w) (S (db_saves w)).

(** ** The monad of state and exceptions *)

Inductive result (A : Type) :=
| Val (a : A)
| Exc (e : exn).
Arguments Val {A} a.
Arguments Exc {A} e.

Definition M (A : Type) : Type := World → result A * World.

Definition ret {A} (a : A) : M A := λ w, (Val a, w).

Definition raise {A} (e : exn) : M A := λ w, (Exc e, w).

Definition bind {A B} (m : M A) (k : A → M B) : M B :=
  λ w, match m w with
       | (Val a, w') => k a w'
       | (Exc e, w') => (Exc e, w')
       end.

(** [try: m  except Exception as e: h e] *)
Definition try_except {A} (m : M A) (h : exn → M A) : M A :=
  λ w, match m w with
       | (Val a, w') => (Val a, w')
       | (Exc e, w') => h e w'
       end.

Definition gets {A} (f : World → A) : M A := λ w, (Val (f w), w).

Definition modify (f : World → World) : M unit := λ w, (Val tt, f w).

Notation "'let*' x ':=' m 'in' k" := (bind m (λ x, k))
  (at level 10, x pattern, m at level 100, k at level 200).
Notation "m1 '>>' m2" := (bind m1 (λ _, m2))
  (at level 62, right associativity).

(** [for x in l: body x] *)
Fixpoint for_each {A} (l : list A) (body : A → M unit) : M unit :=
  match l with
  | [] => ret tt
  | x :: l' => body x >> for_each l' body
  end.

(** A loop that threads an accumulator *)
Fixpoint fold_each {A S} (l : list A) (body : S → A → M S) (s : S) : M S :=
  match l with
  | [] => ret s
  | x :: l' => let* s' := body s x in fold_each l' body s'
  end.

Definition when (b : bool) (m : M unit) : M unit := if b then m else ret tt.

(** [datetime.now()]: the clock never repeats a value *)
Definition now : M nat := λ w, (Val (clock w), tick w).

Definition setValue (v : Z) : M unit := modify (push_bar v).

Definition message (d : dialog) : M unit := modify (push_dialog d).

(** [int(q)] of a float: truncation towards zero *)
Definition py_int (q : Q) : Z :=
  if Qle_bool 0 q then Qfloor q else Qceiling q.

(** [d / ".disabledmods"] *)
Definition disabled_dir (d : string) : string := d +:+ "/.disabledmods".

(** [list(d.glob(f"*{n}*"))] *)
Definition glob (d n : string) (files : gmap path content) : list path :=
  List.filter (λ p : path, String.eqb p.1 d && Str.contains n p.2)
              (map_to_list files).*1.

Definition is_file (p : path) (w : World) : bool :=
  match fs w !! p with Some _ => true | None => false end.

(** ** File system primitives *)

Section Primitives.
Variable faulty : fsop → bool.

Definition guard (op : fsop) (what : string) : M unit :=
  if faulty op then raise (OSError what) else ret tt.

(** [d.mkdir(exist_ok=True)], [os.makedirs(d, exist_ok=True)] *)
Definition mkdir (d : string) : M unit := guard (OpMkdir d) "mkdir".

(** [p.unlink(missing_ok)] *)
Definition unlink (missing_ok : bool) (p : path) : M unit :=
  guard (OpUnlink p) "unlink" >>
  let* there := gets (is_file p) in
  if there then modify (with_fs (delete p))
  else if missing_ok then ret tt
  else raise (FileNotFoundError "unlink").

(** [src.rename(dst)] *)
Definition rename (src dst : path) : M unit :=
  guard (OpRename src dst) "rename" >>
  let* c := gets (λ w, fs w !! src) in
  match c with
  | Some c => modify (with_fs (λ m, <[dst:=c]> (delete src m)))
  | None => raise (FileNotFoundError "rename")
  end.

(** [shutil.copy2(src, dst)] *)
Definition copy2 (src dst : path) : M unit :=
  guard (OpCopy src dst) "copy2" >>
  let* c := gets (λ w, fs w !! src) in
  match c with
  | Some c => modify (with_fs (<[dst:=c]>))
  | None => raise (FileNotFoundError "copy2")
  end.

(** [shutil.move(src, dst)] *)
Definition shutil_move (src dst : path) : M unit :=
  guard (OpMove src dst) "move" >>
  let* c := gets (λ w, fs w !! src) in
  match c with
  | Some c => modify (with_fs (λ m, <[dst:=c]> (delete src m)))
  | None => raise (FileNotFoundError "move")
  end.

(** [open(p, 'wb')] followed by the writes that produce [c] *)
Definition write_file (p : path) (c : content) : M unit :=
  guard (OpWrite p) "open" >> modify (with_fs (<[p:=c]>)).

(** [zipfile.ZipFile(p, 'r')]: the members of the archive *)
Definition open_zip (p : path) : M (list (string * string)) :=
  guard (OpOpen p) "open" >>
  let* c := gets (λ w, fs w !! p) in
  match c with
  | Some (ZipFile ms) => ret ms
  | Some (Blob _) => raise (BadZipFile "File is not a zip file")
  | None => raise (FileNotFoundError "open")
  end.

End Primitives.

(** ** The lifecycle manager *)

Definition nl : string := String (ascii_of_nat 10) EmptyString.

(** [re.sub(r'^pakchunk\d+-Mods_', '', stem, flags=re.IGNORECASE)] followed by
    [re.sub(r'_P$', '', prefix, flags=re.IGNORECASE)] *)
Definition display_name (local : string) : string :=
  let stem := Pathlib.stem local in
  let rest := Str.drop 8 stem in
  let after := Str.skip_digits rest in
  let prefix :=
    if String.prefix "pakchunk" (Str.lower stem)
       && (String.length after <? String.length rest)%nat
       && String.prefix "-mods_" (Str.lower after)
    then Str.drop 6 after else stem in
  if Str.endswith (Str.lower prefix) "_p"
  then String.substring 0 (String.length prefix - 2) prefix else prefix.

Definition set_enabled (b : bool) (i : ModInfo) : ModInfo :=
  mkModInfo (name i) (local_name i) (zip_name i) (installed_date i)
            (updated_date i) (profile i) b (installed_path i) (url i).

Definition set_installed_path (d : string) (i : ModInfo) : ModInfo :=
  mkModInfo (name i) (local_name i) (zip_name i) (installed_date i)
            (updated_date i) (profile i) (enabled i) d (url i).

(** [{**mod_info, "local_name": n, "updated_date": t, "enabled": e}] *)
Definition refreshed (i : ModInfo) (n : string) (t : nat) (e : bool) : ModInfo :=
  mkModInfo (name i) n (zip_name i) (installed_date i) t (profile i) e
            (installed_path i) (url i).

(** [d[k][field] = ...] on the record stored under [k] *)
Definition dict_update {V} (k : string) (f : V → V) (d : dict V) : dict V :=
  match dict_get k d with
  | Some v => dict_set k (f v) d
  | None => d
  end.

Definition CHUNK_SIZE : Z := 1024 * 1024.
Definition DOWNLOAD_CHUNK_SIZE : Z := 1024 * 5.

(** Lengths of the blocks that [source.read(CHUNK_SIZE)] returns for an
    entry of [n] bytes, up to the empty read that ends the loop *)
Definition chunk_sizes (n : Z) : list Z :=
  (repeat CHUNK_SIZE (Z.to_nat (n / CHUNK_SIZE))
  ++ (if (n mod CHUNK_SIZE =? 0)%Z then [] else [(n mod CHUNK_SIZE)%Z]))%list.

Definition size_of (data : string) : Z := Z.of_nat (String.length data).

(** The filter of [valid_files] in [extract_mod] *)
Definition eligible (f : string) : bool :=
  negb (Str.endswith f "/" || Str.endswith f "\" || Str.contains ".disabledmods" f).

Inductive toggle_outcome :=
| Ignored
| UnknownMod
| ModFileMissing
| Applied
| ToggleFailed.

Section Manager.
Variable faulty : fsop → bool.
Variable remote : string → reply.

(** *** Mod database: [save_mod_db] *)
Definition save_mod_db : M unit :=
  modify count_save >>
  try_except
    (let* old := gets db_disk in
     match old with
     | Some d =>
         guard faulty (OpCopy db_file db_backup) "copy2" >>
         modify (with_bak_disk (Some d))
     | None => ret tt
     end >>
     guard faulty (OpWrite db_file) "open" >>
     let* db := gets mod_db in
     modify (with_db_disk (Some db)))
    (λ e, message (Warning "Error" ("Failed to save mod database: " +:+ str e))).

(** [with open(self.profiles_file, 'w') as f: json.dump(self.profiles, f)] *)
Definition write_profiles : M unit :=
  guard faulty (OpWrite profiles_file) "open" >>
  let* ps := gets profiles in
  modify (with_profiles_disk (Some ps)).

(** [refresh_mod_tree]: only its use of the progress bar *)
Definition refresh_mod_tree : M unit :=
  let* mods := gets mod_db in
  let n := length mods in
  when (100 <? n)%nat (setValue 0) >>
  for_each (seq 0 n) (λ i,
    when (100 <? n)%nat (setValue ((Z.of_nat i + 1) * 100 / Z.of_nat n)%Z)).

(** *** File relocator: [safe_file_move] *)
Definition safe_file_move (src dst : path) : M bool :=
  try_except
    (mkdir faulty dst.1 >>
     let* there := gets (is_file dst) in
     when there (unlink faulty false dst) >>
     rename faulty src dst >>
     ret true)
    (λ _,
      try_except
        (copy2 faulty src dst >>
         unlink faulty false src >>
         ret true)
        (λ _, ret false)).

(** The loop [for f in files: if not self.safe_file_move(...): return False] *)
Fixpoint move_all (files : list path) (dst_dir : string) : M bool :=
  match files with
  | [] => ret true
  | f :: rest =>
      let* ok := safe_file_move f (dst_dir, f.2) in
      if ok then move_all rest dst_dir else ret false
  end.

(** [update_mod_state] *)
Definition update_mod_state (mod_name : string) (is_enabled : bool) : M bool :=
  try_except
    (let* db := gets mod_db in
     match dict_get mod_name db with
     | None => raise (KeyError mod_name)
     | Some mod_info =>
         let profile_dir := installed_path mod_info in
         let disabled := disabled_dir profile_dir in
         let src_dir := if negb is_enabled then profile_dir else disabled in
         let dst_dir := if negb is_enabled then disabled else profile_dir in
         let* files := gets (λ w, glob src_dir mod_name (fs w)) in
         match files with
         | [] => ret false
         | _ =>
             let* ok := move_all files dst_dir in
             if ok then
               modify (with_mod_db (dict_update mod_name (set_enabled is_enabled))) >>
               save_mod_db >>
               ret true
             else ret false
         end
     end)
    (λ _, ret false).

(** *** Toggle: the handler [on_mod_status_changed].  [checked] is the
    state the user has just given the check box; the result carries the
    state the check box is left in.  A call made while
    [block_mod_status_change] is set returns at once, so the
    [setCheckState] calls of the handler do not re-enter it. *)
Definition missing_warning (mod_name profile_dir : string) : dialog :=
  Warning "Error"
    ("No mod files found for '" +:+ mod_name +:+ "' in:" +:+ nl +:+ profile_dir
     +:+ nl +:+ "or " +:+ disabled_dir profile_dir +:+ nl +:+ "Cannot enable/disable.").

Definition apply_state (mod_name : string) (is_enabled : bool)
  : M (toggle_outcome * bool) :=
  modify (with_mod_db (dict_update mod_name (set_enabled is_enabled))) >>
  save_mod_db >>
  ret (Applied, is_enabled).

Definition on_mod_status_changed (checked : bool) (mod_name : string) (column : Z)
  : M (toggle_outcome * bool) :=
  if negb (column =? 0)%Z then ret (Ignored, checked) else
  let is_enabled := checked in
  let* db := gets mod_db in
  match dict_get mod_name db with
  | None => ret (UnknownMod, checked)
  | Some mod_info =>
      let profile_dir := installed_path mod_info in
      let disabled := disabled_dir profile_dir in
      mkdir faulty disabled >>
      try_except
        (let* file_candidate := gets (λ w, glob profile_dir mod_name (fs w)) in
         let* disabled_candidate := gets (λ w, glob disabled mod_name (fs w)) in
         if is_enabled then
           match disabled_candidate with
           | _ :: _ =>
               for_each disabled_candidate
                 (λ f, shutil_move faulty f (profile_dir, f.2)) >>
               apply_state mod_name is_enabled
           | [] =>
               match file_candidate with
               | [] =>
                   message (missing_warning mod_name profile_dir) >>
                   ret (ModFileMissing, false)
               | _ :: _ => apply_state mod_name is_enabled
               end
           end
         else
           match file_candidate with
           | _ :: _ =>
               for_each file_candidate
                 (λ f, shutil_move faulty f (disabled, f.2)) >>
               apply_state mod_name is_enabled
           | [] =>
               match disabled_candidate with
               | [] =>
                   message (missing_warning mod_name profile_dir) >>
                   ret (ModFileMissing, true)
               | _ :: _ => apply_state mod_name is_enabled
               end
           end)
        (λ _, ret (ToggleFailed, negb is_enabled))
  end.

(** *** Delete: [delete_selected_mods] *)
Definition unlink_all (files : list path) : M unit :=
  for_each files (λ f, try_except (unlink faulty true f) (λ _, ret tt)).

Definition delete_one (mod_name : string) : M unit :=
  let* db := gets mod_db in
  match find (λ e : string * ModInfo, String.eqb (local_name e.2) mod_name) db with
  | Some (found_mod_id, mod_info) =>
      if String.eqb found_mod_id "" then ret tt else
      let path_str := installed_path mod_info in
      when (negb (String.eqb path_str ""))
        (let* main_files := gets (λ w, glob path_str mod_name (fs w)) in
         unlink_all main_files >>
         let* disabled_files := gets (λ w, glob (disabled_dir path_str) mod_name (fs w)) in
         unlink_all disabled_files) >>
      modify (with_mod_db (dict_del found_mod_id))
  | None => ret tt
  end.

Definition delete_selected_mods (current_profile : option string)
    (selected : list string) (confirm : bool) : M unit :=
  match current_profile with
  | None => message (Warning "Error" "No profile selected.")
  | Some profile_name =>
      match selected with
      | [] => ret tt
      | _ =>
          let* db := gets mod_db in
          let mod_names :=
            List.filter (λ n, match dict_get n db with
                              | Some i => String.eqb (profile i) profile_name
                              | None => false
                              end) selected in
          match mod_names with
          | [] => message (Warning "Error" "No mods selected from current profile.")
          | _ =>
              if confirm then
                for_each mod_names delete_one >>
                save_mod_db >>
                refresh_mod_tree
              else ret tt
          end
      end
  end.

(** *** Archive extractor: [extract_mod] *)
Definition report_chunk (total_size : Z) (progress_callback : option (Z → M unit))
    (processed_size len : Z) : M Z :=
  let processed_size := (processed_size + len)%Z in
  match progress_callback with
  | Some cb => cb (processed_size * 100 / total_size)%Z
  | None => ret tt
  end >>
  ret processed_size.

Definition extract_member (parent : string) (total_size : Z)
    (progress_callback : option (Z → M unit))
    (processed_size : Z) (member : string * string) : M Z :=
  let target_path : path :=
    (Pathlib.join parent (Pathlib.parent_of member.1), Pathlib.name_of member.1) in
  mkdir faulty target_path.1 >>
  write_file faulty target_path (Blob member.2) >>
  fold_each (chunk_sizes (size_of member.2))
            (report_chunk total_size progress_callback) processed_size.

Definition extract_mod (mod_path : path) (remove_zip : bool)
    (progress_callback : option (Z → M unit)) : M (list string) :=
  try_except
    (let* there := gets (is_file mod_path) in
     if negb there then raise (FileNotFoundError "File not found") else
     if negb (String.eqb (Str.lower (Pathlib.suffix mod_path.2)) ".zip")
     then raise (ValueError "File is not a ZIP archive") else
     try_except
       (let* members := open_zip faulty mod_path in
        let valid_files := List.filter (λ m : string * string, eligible m.1) members in
        match valid_files with
        | [] => ret []
        | _ =>
            let total_size := foldr Z.add 0%Z (map (λ m, size_of m.2) valid_files) in
            fold_each valid_files
              (extract_member mod_path.1 total_size progress_callback) 0%Z >>
            let* still := gets (is_file mod_path) in
            when (remove_zip && still) (unlink faulty false mod_path) >>
            ret (map (λ m : string * string, Pathlib.name_of m.1) valid_files)
        end)
       (λ e, raise e))
    (λ _, ret []).

(** *** [loader.download_mod] with [Downloader.download] *)
Definition receive (file_size : Z) (progress_callback : Z → M unit)
    (downloaded len : Z) : M Z :=
  let downloaded := (downloaded + len)%Z in
  if (file_size =? 0)%Z then raise (ZeroDivisionError "division by zero") else
  progress_callback (downloaded * 100 / file_size)%Z >>
  ret downloaded.

Definition loader_download_mod (url : string) (mod_directory : string)
    (progress_callback : Z → M unit) : M path :=
  if String.eqb (Str.strip url) "" then raise (WrongUrl "Empty URL provided") else
  match remote (Str.strip url) with
  | NoSuchMod => raise (WrongUrl "Invalid mod.io URL format")
  | ResolveError msg =>
      modify (push_net (Str.strip url)) >> raise (ConnectionError msg)
  | NoFile =>
      modify (push_net (Str.strip url)) >> raise ModFileNotFound
  | Asset filename file_size chunks body =>
      modify (push_net (Str.strip url)) >>
      mkdir faulty mod_directory >>
      let file_path : path := (mod_directory, filename) in
      write_file faulty file_path (Blob "") >>
      fold_each chunks (receive file_size progress_callback) 0%Z >>
      match body with
      | Some c => modify (with_fs (<[file_path:=c]>)) >> ret file_path
      | None => raise (ConnectionError "stream interrupted")
      end
  end.

(** *** Install: the method [download_mod] of the window *)
Definition clean (url : string) : string :=
  Str.replace "https:/" "https://"
    (Str.replace "http:/" "http://" (Str.replace "//" "/" url)).

Definition register (profile_name mod_dir zip clean_url : string) (t : nat)
    (extracted_file : string) : M unit :=
  let* there := gets (is_file (mod_dir, extracted_file)) in
  if negb there then ret tt else
  let local := extracted_file in
  modify (with_mod_db (dict_set local
    (mkModInfo (display_name local) local zip t t profile_name true mod_dir
               (Some clean_url)))).

Definition download_mod (url_input : string) (current_profile : option string)
    : M unit :=
  let url := Str.strip url_input in
  if String.eqb url "" then message (Warning "Error" "Please enter a mod URL") else
  match current_profile with
  | None => message (Warning "Error" "No profile selected.")
  | Some profile_name =>
      let* ps := gets profiles in
      match dict_get profile_name ps with
      | None => raise (KeyError profile_name)
      | Some p =>
          let mod_dir := mod_directory p in
          let clean_url := clean url in
          setValue 0 >>
          try_except
            (let* file_path := loader_download_mod clean_url mod_dir setValue in
             let* extracted_files := extract_mod file_path true None in
             match extracted_files with
             | [] => raise (RuntimeError "No valid files extracted from archive.")
             | _ =>
                 let* t := now in
                 for_each extracted_files
                   (register profile_name mod_dir file_path.2 clean_url t) >>
                 save_mod_db >>
                 refresh_mod_tree
             end)
            (λ e,
              match e with
              | WrongUrl _ =>
                  message (Warning "Error" "Invalid mod URL. Please check the URL format.")
              | ModFileNotFound =>
                  message (Warning "Error" "No downloadable file found for this mod.")
              | _ => message (Warning "Error" ("An error occurred: " +:+ str e))
              end)
      end
  end.

(** *** Bulk update: [check_updates] *)
Definition progress_per_mod (total_mods : nat) : Q :=
  (100 / inject_Z (Z.of_nat total_mods))%Q.

(** [make_progress_callback(start_percent)], reading [completed] *)
Definition progress_value (total_mods completed : nat) (start_percent : bool)
    (progress : Z) : Z :=
  let mod_base := (inject_Z (Z.of_nat completed) * progress_per_mod total_mods)%Q in
  let progress_portion := (progress_per_mod total_mods / 2)%Q in
  let current_progress := (mod_base + inject_Z progress / 100 * progress_portion)%Q in
  let current_progress :=
    if start_percent then (current_progress + progress_portion)%Q
    else current_progress in
  py_int (Qmin current_progress 100).

Definition make_progress_callback (total_mods completed : nat)
    (start_percent : bool) : Z → M unit :=
  λ progress, setValue (progress_value total_mods completed start_percent progress).

(** Removal of the old files before the redownload *)
Definition remove_old (disabled_mods : dict string) (mod_id : string)
    (mod_info : ModInfo) : M unit :=
  let profile_dir := installed_path mod_info in
  match dict_get mod_id disabled_mods with
  | Some mod_name =>
      let* disabled_files :=
        gets (λ w, glob (disabled_dir profile_dir) mod_name (fs w)) in
      unlink_all disabled_files
  | None => ret tt
  end >>
  let* enabled_files :=
    gets (λ w, glob profile_dir (local_name mod_info) (fs w)) in
  unlink_all enabled_files.

(** The move of a refreshed file into the disabled folder *)
Definition move_to_disabled (profile_dir local : string) : M unit :=
  let extracted_path : path := (profile_dir, local) in
  let disabled_path : path := (disabled_dir profile_dir, local) in
  try_except
    (mkdir faulty (disabled_dir profile_dir) >>
     let* there := gets (is_file disabled_path) in
     when there (unlink faulty false disabled_path) >>
     rename faulty extracted_path disabled_path)
    (λ _,
      try_except
        (copy2 faulty extracted_path disabled_path >>
         unlink faulty true extracted_path)
        (λ _, ret tt)).

Definition refresh_entry (was_disabled : bool) (mod_info : ModInfo) (t : nat)
    (extracted_file : string) : M unit :=
  let profile_dir := installed_path mod_info in
  let* there := gets (is_file (profile_dir, extracted_file)) in
  if negb there then ret tt else
  let local := extracted_file in
  modify (with_mod_db (dict_set local
    (refreshed mod_info local t (negb was_disabled)))) >>
  when was_disabled (move_to_disabled profile_dir local).

Definition redownload (total_mods completed : nat) (was_disabled : bool)
    (mod_url : string) (mod_info : ModInfo) : M unit :=
  let profile_dir := installed_path mod_info in
  let* file_path :=
    loader_download_mod mod_url profile_dir
      (make_progress_callback total_mods completed false) in
  let* extracted_files :=
    extract_mod file_path true
      (Some (make_progress_callback total_mods completed true)) in
  match extracted_files with
  | [] => raise (RuntimeError "No files extracted from archive")
  | _ =>
      let* t := now in
      for_each extracted_files (refresh_entry was_disabled mod_info t)
  end.

(** One turn of the loop [for mod_id, mod_info in mods].  The boolean
    of the inner result tells whether the turn reaches
    [completed += 1] or leaves through [continue]. *)
Definition update_one (total_mods : nat) (disabled_mods : dict string)
    (st : nat * list (string * string)) (m : string * ModInfo)
    : M (nat * list (string * string)) :=
  let '(completed, failed_mods) := st in
  let '(mod_id, mod_info) := m in
  let* r :=
    try_except
      (let mod_url := default "" (url mod_info) in
       if String.eqb mod_url "" then
         ret (false, (failed_mods ++ [(mod_id, "No URL found")])%list)
       else
         remove_old disabled_mods mod_id mod_info >>
         try_except
           (redownload total_mods completed
              (bool_decide (is_Some (dict_get mod_id disabled_mods)))
              mod_url mod_info >>
            ret (true, failed_mods))
           (λ e, ret (false, (failed_mods ++ [(mod_id, str e)])%list)))
      (λ e, ret (true, (failed_mods ++ [(mod_id, str e)])%list)) in
  if r.1 then
    setValue (py_int (inject_Z (Z.of_nat (S completed)) * progress_per_mod total_mods)) >>
    ret (S completed, r.2)
  else ret (completed, r.2).

Definition error_msg (failed_mods : list (string * string)) : string :=
  "The following mods failed to update:" +:+ nl +:+ nl +:+
  foldr (λ f acc, "* " +:+ f.1 +:+ ": " +:+ f.2 +:+ nl +:+ acc) "" failed_mods.

Definition mods_of (profile_name : string) (db : dict ModInfo) : dict ModInfo :=
  List.filter (λ e : string * ModInfo, String.eqb (profile e.2) profile_name) db.

Definition disabled_of (mods : dict ModInfo) : dict string :=
  map (λ e : string * ModInfo, (e.1, local_name e.2))
      (List.filter (λ e : string * ModInfo, negb (enabled e.2)) mods).

Definition check_updates (confirm : bool) (current_profile : option string)
    : M unit :=
  if negb confirm then ret tt else
  match current_profile with
  | None => message (Warning "Error" "No profile selected.")
  | Some profile_name =>
      let* db := gets mod_db in
      let mods := mods_of profile_name db in
      let total_mods := length mods in
      if (total_mods =? 0)%nat then ret tt else
      let disabled_mods := disabled_of mods in
      setValue 0 >>
      let* st := fold_each mods (update_one total_mods disabled_mods) (0%nat, []) in
      save_mod_db >>
      refresh_mod_tree >>
      if (st.1 =? total_mods)%nat && bool_decide (st.2 = []) then
        setValue 100 >>
        message (Information "Success" "All mods updated successfully!")
      else
        message (Warning "Update Incomplete" (error_msg st.2))
  end.

(** *** Directory migration: [edit_profile].  [dir_path] is the answer of
    the directory dialog, empty when it was cancelled. *)
Definition files_to_move (old_path : string) (w : World) : list path :=
  flat_map (λ e : string * ModInfo,
    if String.eqb (installed_path e.2) old_path
       && negb (String.eqb (local_name e.2) "")
       && is_file (old_path, local_name e.2) w
    then [(old_path, local_name e.2)] else []) (mod_db w).

Definition set_mod_directory (d : string) (p : Profile) : Profile :=
  mkProfile d (auto_extract p).

Definition edit_profile (current : option string) (dir_path : string)
    (confirm : bool) : M unit :=
  match current with
  | None => ret tt
  | Some profile_name =>
      let* ps := gets profiles in
      match dict_get profile_name ps with
      | None => raise (KeyError profile_name)
      | Some p =>
          let old_path := mod_directory p in
          if String.eqb dir_path "" || String.eqb dir_path old_path then ret tt else
          let new_path := dir_path in
          let* to_move := gets (files_to_move old_path) in
          if negb confirm then ret tt else
          try_except
            (mkdir faulty new_path >>
             let* moved_count :=
               fold_each to_move
                 (λ n file_path,
                    shutil_move faulty file_path (new_path, file_path.2) >>
                    ret (S n)) 0%nat in
             modify (with_mod_db (map (λ e : string * ModInfo,
               if String.eqb (installed_path e.2) old_path
               then (e.1, set_installed_path new_path e.2) else e))) >>
             modify (with_profiles
                       (dict_update profile_name (set_mod_directory new_path))) >>
             write_profiles >>
             save_mod_db >>
             message (Information "Success"
                        ("Directory changed and " +:+ pretty moved_count
                         +:+ " file(s) migrated!")))
            (λ e,
              message (Critical "Error"
                         ("Failed to migrate files: " +:+ str e +:+ nl
                          +:+ "Reverting changes...")) >>
              modify (with_profiles
                        (dict_update profile_name (set_mod_directory old_path))))
      end
  end.

End Manager.


(** ** Profiles: [new_profile], [rename_profile], [delete_profile],
    [load_profiles]

    The answers of the dialogs are parameters: [None] is a cancelled text
    dialog, the empty string a cancelled directory dialog; [current] is
    the item selected in the profile list. *)

Section Profiles.
Variable faulty : fsop → bool.
(** [str(Path("mods").resolve())] *)
Variable mods_dir : string.

Definition default_profiles : dict Profile :=
  [("Default", mkProfile mods_dir true)].

(** [name in self.profiles] *)
Definition has_key {V} (k : string) (d : dict V) : bool :=
  match dict_get k d with Some _ => true | None => false end.

Definition new_profile (answer : option string) (dir_path : string) : M unit :=
  match answer with
  | None => ret tt
  | Some name =>
      if String.eqb name "" then ret tt else
      let* ps := gets profiles in
      if has_key name ps
      then message (Warning "Error" "Profile name already exists!")
      else if String.eqb dir_path "" then ret tt
      else
        modify (with_profiles (dict_set name (mkProfile dir_path true))) >>
        write_profiles faulty
  end.

Definition rename_profile (current : option string) (answer : option string)
    : M unit :=
  match current with
  | None => ret tt
  | Some old_name =>
      if String.eqb old_name "Default" then ret tt else
      match answer with
      | None => ret tt
      | Some new_name =>
          if String.eqb new_name "" || String.eqb new_name old_name then ret tt else
          let* ps := gets profiles in
          if has_key new_name ps
          then message (Warning "Error" "Profile name already exists!")
          else
            match dict_get old_name ps with
            | None => raise (KeyError old_name)
            | Some p =>
                modify (with_profiles (λ ps, dict_set new_name p (dict_del old_name ps))) >>
                write_profiles faulty
            end
      end
  end.

Definition delete_profile (current : option string) (confirm : bool) : M unit :=
  match current with
  | None => ret tt
  | Some profile_name =>
      if negb confirm then ret tt else
      let* ps := gets profiles in
      (if (length ps =? 1)%nat
       then modify (with_profiles (λ _, default_profiles))
       else if has_key profile_name ps
            then modify (with_profiles (dict_del profile_name))
            else raise (KeyError profile_name)) >>
      write_profiles faulty
  end.

(** [self.profiles = self.load_profiles()] *)
Definition load_profiles : M unit :=
  let* disk := gets profiles_disk in
  match disk with
  | None =>
      guard faulty (OpWrite profiles_file) "open" >>
      modify (with_profiles_disk (Some default_profiles)) >>
      modify (with_profiles (λ _, default_profiles))
  | Some ps =>
      guard faulty (OpOpen profiles_file) "open" >>
      modify (with_profiles (λ _, ps))
  end.

End Profiles.

(** ** The [.env] file: [load_api_key_from_env], [save_api_key_to_env]

    The file is a text of ASCII characters; [None] stands for a file
    that does not exist.  A failure to read or write it is not caught by
    the code and is left out here. *)

Module Env.

Definition LF : ascii := ascii_of_nat 10.
Definition CR : ascii := ascii_of_nat 13.
(** the double quote character *)
Definition DQ : ascii := ascii_of_nat 34.

(** The line boundaries of [str.splitlines] among the ASCII characters:
    line feed, vertical tab, form feed, carriage return, and the file,
    group and record separators *)
Definition is_linebreak (c : ascii) : bool :=
  let n := nat_of_ascii c in
  ((10 <=? n)%nat && (n <=? 13)%nat) || ((28 <=? n)%nat && (n <=? 30)%nat).

(** [Path.read_text()]: text mode turns a carriage return, with the
    line feed that follows it if any, into one line feed.  [after_cr]
    tells that the character before was a carriage return. *)
Fixpoint universal_newlines_from (after_cr : bool) (s : string) : string :=
  match s with
  | EmptyString => EmptyString
  | String c s' =>
      if after_cr && Ascii.eqb c LF then universal_newlines_from false s'
      else if Ascii.eqb c CR then String LF (universal_newlines_from true s')
      else String c (universal_newlines_from false s')
  end.

Definition read_text (raw : string) : string := universal_newlines_from false raw.

Definition prepend (c : ascii) (lines : list string) : list string :=
  match lines with
  | [] => [String c EmptyString]
  | l :: ls => String c l :: ls
  end.

(** [s.splitlines()]: a carriage return followed by a line feed is one
    boundary; no empty last line is reported. *)
Fixpoint splitlines_from (after_cr : bool) (s : string) : list string :=
  match s with
  | EmptyString => []
  | String c s' =>
      if after_cr && Ascii.eqb c LF then splitlines_from false s'
      else if is_linebreak c then EmptyString :: splitlines_from (Ascii.eqb c CR) s'
      else prepend c (splitlines_from false s')
  end.

Definition splitlines (s : string) : list string := splitlines_from false s.

(** [sep.join(lines)] *)
Fixpoint join (sep : string) (lines : list string) : string :=
  match lines with
  | [] => EmptyString
  | [l] => l
  | l :: ls => l +:+ sep +:+ join sep ls
  end.

(** [s.split(c, 1)] *)
Fixpoint split_once (c : ascii) (s : string) : list string :=
  match s with
  | EmptyString => [EmptyString]
  | String a s' =>
      if Ascii.eqb a c then [EmptyString; s']
      else match split_once c s' with
           | [l] => [String a l]
           | l :: ls => String a l :: ls
           | [] => []
           end
  end.

Fixpoint lstrip_char (c : ascii) (s : string) : string :=
  match s with
  | EmptyString => EmptyString
  | String a s' => if Ascii.eqb a c then lstrip_char c s' else s
  end.

Fixpoint rstrip_char (c : ascii) (s : string) : string :=
  match s with
  | EmptyString => EmptyString
  | String a s' =>
      match rstrip_char c s' with
      | EmptyString => if Ascii.eqb a c then EmptyString else String a EmptyString
      | r => String a r
      end
  end.

(** [s.strip(c)] for a single character [c] *)
Definition strip_char (c : ascii) (s : string) : string :=
  rstrip_char c (lstrip_char c s).

Definition key_prefix : string := "MODIO_API_KEY=".

(** [f'MODIO_API_KEY="{new_key}"'] *)
Definition key_line (new_key : string) : string :=
  key_prefix +:+ String DQ new_key +:+ String DQ EmptyString.

(** The loop of [load_api_key_from_env] over the lines of the file *)
Fixpoint find_key (lines : list string) : string :=
  match lines with
  | [] => EmptyString
  | line :: rest =>
      if String.prefix key_prefix line then
        match split_once "=" line with
        | [_; v] =>
            let val := strip_char DQ (Str.strip v) in
            if String.eqb val EmptyString then find_key rest else val
        | _ => find_key rest
        end
      else find_key rest
  end.

Definition load_api_key_from_env (env : option string) : string :=
  match env with
  | None => EmptyString
  | Some raw => find_key (splitlines (read_text raw))
  end.

(** The new contents of the file *)
Definition save_api_key_to_env (new_key : string) (env : option string) : string :=
  match env with
  | None => key_line new_key +:+ String LF EmptyString
  | Some raw =>
      let lines := splitlines (read_text raw) in
      let new_lines :=
        map (λ line, if String.prefix key_prefix line then key_line new_key else line)
            lines in
      let found_line := existsb (String.prefix key_prefix) lines in
      let new_lines :=
        if found_line then new_lines else (new_lines ++ [key_line new_key])%list in
      join (String LF EmptyString) new_lines +:+ String LF EmptyString
  end.

End Env.

(** ** The search box: [filter_mods], and the slug of [add_mod_to_tree] *)

(** [s.split(sub, 1)[1]] when [sub] occurs in [s]: what follows its first
    occurrence *)
Fixpoint after (sub s : string) : string :=
  if String.prefix sub s then Str.drop (String.length sub) s
  else match s with
       | EmptyString => EmptyString
       | String _ s' => after sub s'
       end.

(** The mod.io slug of an address with [/m/] in it *)
Definition modio_slug (mod_url : string) : option string :=
  if Str.contains "/m/" mod_url
  then Some (Str.replace "/" "" (after "/m/" mod_url))
  else None.

(** [mod_info.get(key, "")] on [self.mod_db["mods"].get(local_name, {})] *)
Definition field_of (db : dict ModInfo) (local : string) (f : ModInfo → string)
    : string :=
  match dict_get local db with
  | Some i => f i
  | None => EmptyString
  end.

Definition searchable_fields (db : dict ModInfo) (local : string) : list string :=
  let mod_url := field_of db local (λ i, default "" (url i)) in
  ([Str.lower local;
    Str.lower (field_of db local name);
    Str.lower (field_of db local zip_name);
    Str.lower mod_url]
   ++ match modio_slug mod_url with
      | Some slug => [Str.lower slug]
      | None => []
      end)%list.

(** [filter_mods]: for the items of the tree, given by their local
    names, whether each one is hidden *)
Definition filter_mods (text : string) (db : dict ModInfo) (items : list string)
    : list bool :=
  let search_text := Str.lower text in
  if String.eqb search_text "" then map (λ _, false) items
  else map (λ local,
              negb (existsb (Str.contains search_text) (searchable_fields db local)))
           items.

(** ** The API key: [Config.validate_api_key] of [loader/config.py], the
    dialog [show_api_key_setup_dialog] and the test of [__init__] *)

Definition validate_api_key (api_key : string) : bool :=
  if String.eqb api_key "" || String.eqb (Str.strip api_key) "" then false
  else (32 <=? String.length (Str.strip api_key))%nat.

(** What the user does with the dialog, each time it is shown *)
Inductive answer :=
| Accepted (text : string)
| Cancelled.

Inductive setup_outcome :=
| SetupExit
| SetupSaved (api_key : string) (env : string)
| SetupOpen.

(** The loop [while True] of the dialog over the answers of the user;
    the warnings are listed in the order they are shown, with the
    outcome: the process exits, the key is saved to the [.env] file, or
    the dialog is still open when the answers are used up. *)
Fixpoint show_api_key_setup_dialog (answers : list answer) (env : option string)
    : list dialog * setup_outcome :=
  match answers with
  | [] => ([], SetupOpen)
  | Cancelled :: _ => ([], SetupExit)
  | Accepted text :: rest =>
      let api_key := Str.strip text in
      if String.eqb api_key "" then
        let r := show_api_key_setup_dialog rest env in
        (Warning "Error" "Please enter an API key." :: r.1, r.2)
      else if negb (validate_api_key api_key) then
        let r := show_api_key_setup_dialog rest env in
        (Warning "Error"
           "Invalid API key format. Please check your key and try again." :: r.1,
         r.2)
      else ([], SetupSaved api_key (Env.save_api_key_to_env api_key env))
  end.

(** The test of [__init__] that opens the dialog at start-up *)
Definition needs_api_key (current_api_key : string) : bool :=
  String.eqb current_api_key "" || String.eqb current_api_key "pending".

(** ** The pruning of old logs in [setup_logging], of [gui.py] and of
    [loader/startup.py] alike

    The log directory is the list of its entries, name and modification
    time, in the order [glob] gives them; names are matched as on a
    file system that tells upper case from lower case, and the
    modification times, floats in the source, are compared only, so any
    linear order does for them. *)

Module Logs.

Definition entry : Type := string * nat.

Fixpoint insert (x : entry) (l : list entry) : list entry :=
  match l with
  | [] => [x]
  | y :: l' => if (x.2 <=? y.2)%nat then x :: l else y :: insert x l'
  end.

(** [sorted(entries, key=lambda x: x.stat().st_mtime)], a stable sort *)
Definition sorted (l : list entry) : list entry := foldr insert [] l.

(** [sorted(log_dir.glob("*.log"), key=...)] *)
Definition log_files (dir : list entry) : list entry :=
  sorted (filter (λ e : entry, Str.endswith e.1 ".log" = true) dir).

(** [log_files[:-10]] when there are more than ten log files *)
Definition old_logs (dir : list entry) : list entry :=
  let files := log_files dir in
  if (10 <? length files)%nat then take (length files - 10) files else [].

(** The loop [for old_log in log_files[:-10]: try: old_log.unlink()
    except: pass] *)
Definition prune (faulty : fsop → bool) (log_dir : string) (dir : list entry)
    : list entry :=
  foldl (λ d (old_log : entry),
           if faulty (OpUnlink (log_dir, old_log.1)) then d
           else filter (λ e : entry, e.1 ≠ old_log.1) d)
        dir (old_logs dir).

End Logs.

(** * Notions used by the properties *)

(** A computation never lets an exception out. *)
Definition total {A} (m : M A) : Prop := ∀ w, ∃ a w', m w = (Val a, w').

(** A computation relates the world it starts in to the world it leaves,
    whether it returns or raises. *)
Definition preserves {A} (R : World → World → Prop) (m : M A) : Prop :=
  ∀ w, R w (m w).2.

(** The part of the world a computation leaves alone. *)
Definition keeps {X} (f : World → X) : World → World → Prop :=
  λ w w', f w' = f w.

(** Injected faults: the operations of [l] fail, all others succeed. *)
Definition fails_on (l : list fsop) : fsop → bool := λ op, bool_decide (op ∈ l).

Definition no_faults : fsop → bool := fails_on [].

(** The direct move of the relocator goes through: the destination
    directory can be made, a file in the way can be removed, and the
    rename succeeds. *)
Definition direct_ok (faulty : fsop → bool) (src dst : path) (w : World) : Prop :=
  faulty (OpMkdir dst.1) = false ∧
  (is_file dst w = true → faulty (OpUnlink dst) = false) ∧
  faulty (OpRename src dst) = false.

(** The fallback goes through: the copy and the removal of the source. *)
Definition fallback_ok (faulty : fsop → bool) (src dst : path) : Prop :=
  faulty (OpCopy src dst) = false ∧ faulty (OpUnlink src) = false.

(** * Scenarios *)

Definition c3_src : path := ("/mods", "a.pak").
Definition c3_dst : path := ("/mods/.disabledmods", "a.pak").
Definition c3_faulty : fsop → bool :=
  fails_on [OpRename c3_src c3_dst; OpUnlink c3_src].
Definition c3_world : World :=
  mkWorld {[c3_src := Blob "a"]} [] [] None None None 0 [] [] [] 0.

Definition c4_old : dict ModInfo :=
  [("a.pak", mkModInfo "a" "a.pak" "a.zip" 1 1 "Default" true "/mods" None)].
Definition c4_new : dict ModInfo :=
  [("a.pak", mkModInfo "a" "a.pak" "a.zip" 1 1 "Default" false "/mods" None)].
Definition c4_faulty : fsop → bool := fails_on [OpCopy db_file db_backup].
Definition c4_world : World :=
  mkWorld ∅ c4_new [] (Some c4_old) None None 0 [] [] [] 0.

Definition c7_info : ModInfo :=
  mkModInfo "a" "a.pak" "a.zip" 1 1 "Default" true "/mods" None.
Definition c7_world : World :=
  mkWorld ∅ [("a.pak", c7_info)] [] None None None 0 [] [] [] 0.

(** Relations that do not see the files, the network log and the
    progress bar. *)
Definition blind (R : World → World → Prop) : Prop :=
  (∀ g w, R w (with_fs g w)) ∧ (∀ u w, R w (push_net u w)) ∧
  (∀ v w, R w (push_bar v w)).

Definition c10_members : list (string * string) :=
  [("docs/", ""); ("old/.disabledmods/x.pak", "xx")].
Definition c10_url : string := "https://mod.io/g/drg/m/empty".
Definition c10_remote : string → reply :=
  λ u, if String.eqb u c10_url
       then Asset "empty.zip" 2 [2%Z] (Some (ZipFile c10_members))
       else NoSuchMod.
Definition c10_profile : Profile := mkProfile "/mods" true.
Definition c10_world : World :=
  mkWorld {[("/tmp", "e.zip") := ZipFile c10_members]} []
          [("Default", c10_profile)] None None None 0 [] [] [] 0.
Definition c10_downloaded : World :=
  (loader_download_mod no_faults c10_remote (clean (Str.strip c10_url)) "/mods"
     setValue (push_bar 0 c10_world)).2.

(** What [unlink_all] does to the files *)
Definition unlink_all_fs (faulty : fsop → bool) (files : list path)
    (m : gmap path content) : gmap path content :=
  foldl (λ m p, if faulty (OpUnlink p) then m else delete p m) m files.

Definition c5_url : string := "https://mod.io/g/drg/m/x".
Definition c5_info : ModInfo :=
  mkModInfo "x" "x.pak" "x.zip" 1 1 "Default" true "/mods" (Some c5_url).
Definition c5_mods : dict ModInfo := [("x.pak", c5_info)].
Definition c5_remote : string → reply :=
  λ u, if String.eqb u c5_url
       then Asset "x.zip" 2 [2%Z] (Some (ZipFile [("x.pak", "v2")]))
       else NoSuchMod.
Definition c5_world : World :=
  mkWorld (<[("/mods", "x.pak") := Blob "v1"]>
             {[("/mods/.disabledmods", "x.pak") := Blob "stale"]})
          c5_mods [("Default", mkProfile "/mods" true)]
          None None None 2 [] [] [] 0.

(** What the moves of a migration do to the files, while they succeed *)
Definition move_fs (new_path : string) (files : list path)
    (m : gmap path content) : gmap path content :=
  foldl (λ m f, match m !! f with
                | Some c => <[(new_path, f.2) := c]> (delete f m)
                | None => m
                end) m files.

Definition c2_record (n : string) : string * ModInfo :=
  (n, mkModInfo n n "pack.zip" 1 1 "Default" true "/mods" None).
Definition c2_faulty : fsop → bool :=
  fails_on [OpMove ("/mods", "b.pak") ("/new", "b.pak")].
Definition c2_world : World :=
  mkWorld (<[("/mods", "a.pak") := Blob "a"]>
            (<[("/mods", "b.pak") := Blob "b"]>
              {[("/mods", "c.pak") := Blob "c"]}))
          [c2_record "a.pak"; c2_record "b.pak"; c2_record "c.pak"]
          [("Default", mkProfile "/mods" true)]
          None None None 2 [] [] [] 0.
Definition c2_after : World :=
  (edit_profile c2_faulty (Some "Default") "/new" true c2_world).2.

(** * Location-flag coherence *)

(** No file that matches the record lies in the directory opposite to
    its flag. *)
Definition record_coherent (i : ModInfo) (files : gmap path content) : Prop :=
  if enabled i
  then glob (disabled_dir (installed_path i)) (local_name i) files = []
  else glob (installed_path i) (local_name i) files = [].

Definition coherent (w : World) : Prop :=
  ∀ k i, (k, i) ∈ mod_db w → record_coherent i (fs w).

(** Files and records are only taken away. *)
Definition shrinks : World → World → Prop :=
  λ w w', fs w' ⊆ fs w ∧ mod_db w' ⊆ mod_db w.

(** The directory a toggle takes the files from, and the one it puts
    them in *)
Definition toggle_src (checked : bool) (i : ModInfo) : string :=
  if checked then disabled_dir (installed_path i) else installed_path i.
Definition toggle_dst (checked : bool) (i : ModInfo) : string :=
  if checked then installed_path i else disabled_dir (installed_path i).

Definition c1_info : ModInfo :=
  mkModInfo "x" "x.pak" "x.zip" 1 1 "Default" false "/mods" (Some c5_url).
Definition c1_world : World :=
  mkWorld {[("/mods/.disabledmods", "x.pak") := Blob "v1"]}
          [("x.pak", c1_info)] [("Default", mkProfile "/mods" true)]
          None None None 2 [] [] [] 0.
Definition c1_after : World :=
  (download_mod no_faults c5_remote c5_url (Some "Default") c1_world).2.

Definition c1_a : ModInfo :=
  mkModInfo "a" "a.pak" "a.zip" 1 1 "Default" true "/mods" None.
Definition c1_b : ModInfo :=
  mkModInfo "b" "b.pak" "b.zip" 1 1 "Default" true "/mods" None.
Definition c1_toggle_world : World :=
  mkWorld (<[("/mods", "a.pak") := Blob "a"]> {[("/mods", "b.pak") := Blob "b"]})
          [("a.pak", c1_a); ("b.pak", c1_b)] [("Default", mkProfile "/mods" true)]
          None None None 2 [] [] [] 0.
Definition c1_toggled : World :=
  (on_mod_status_changed no_faults false "a.pak" 0 c1_toggle_world).2.

(** Relations that see nothing of what a turn of the update loop
    changes: files, network log, progress bar, records and clock. *)
Definition loop_blind (R : World → World → Prop) : Prop :=
  blind R ∧ (∀ g w, R w (with_mod_db g w)) ∧ (∀ w, R w (tick w)).

Definition c9_url1 : string := "https://mod.io/g/drg/m/one".
Definition c9_url2 : string := "https://mod.io/g/drg/m/two".
Definition c9_remote : string → reply :=
  λ u, if String.eqb u c9_url1
       then Asset "one.zip" 3 [3%Z] (Some (ZipFile [("one.pak", "new")]))
       else if String.eqb u c9_url2 then ResolveError "mod.io unreachable"
       else NoSuchMod.
Definition c9_record (n : string) (u : option string) : string * ModInfo :=
  (n, mkModInfo n n "pack.zip" 1 1 "Default" true "/mods" u).
Definition c9_mods : dict ModInfo :=
  [c9_record "one.pak" (Some c9_url1); c9_record "two.pak" (Some c9_url2);
   c9_record "three.pak" None].
Definition c9_world : World :=
  mkWorld (<[("/mods", "one.pak") := Blob "old"]>
            (<[("/mods", "two.pak") := Blob "old"]>
              {[("/mods", "three.pak") := Blob "old"]}))
          c9_mods [("Default", mkProfile "/mods" true)]
          None None None 5 [] [] [] 0.
Definition c9_after : World :=
  (check_updates no_faults c9_remote true (Some "Default") c9_world).2.

Definition c8_url_a : string := "https://mod.io/g/drg/m/a".
Definition c8_url_b : string := "https://mod.io/g/drg/m/b".
Definition c8_remote : string → reply :=
  λ u, if String.eqb u c8_url_a
       then Asset "a.zip" 5 [5%Z] (Some (ZipFile [("a.pak", "new a")]))
       else if String.eqb u c8_url_b
       then Asset "b.zip" 5 [5%Z] (Some (ZipFile [("b.pak", "new b")]))
       else NoSuchMod.
Definition c8_a : ModInfo :=
  mkModInfo "a" "a.pak" "a.zip" 1 1 "Default" true "/mods" (Some c8_url_a).
Definition c8_b : ModInfo :=
  mkModInfo "b" "b.pak" "b.zip" 1 1 "Default" false "/mods" (Some c8_url_b).
Definition c8_mods : dict ModInfo := [("a.pak", c8_a); ("b.pak", c8_b)].
Definition c8_world : World :=
  mkWorld (<[("/mods", "a.pak") := Blob "old a"]>
            {[("/mods/.disabledmods", "b.pak") := Blob "old b"]})
          c8_mods [("Default", mkProfile "/mods" true)]
          None None None 7 [] [] [] 0.
Definition c8_w1 : World :=
  (remove_old no_faults (disabled_of c8_mods) "b.pak" c8_b c8_world).2.
Definition c8_w2 : World :=
  (loader_download_mod no_faults c8_remote c8_url_b "/mods"
     (make_progress_callback 2 0 false) c8_w1).2.
Definition c8_w3 : World :=
  (extract_mod no_faults ("/mods", "b.zip") true
     (Some (make_progress_callback 2 0 true)) c8_w2).2.
Definition c8_after : World :=
  (check_updates no_faults c8_remote true (Some "Default") c8_world).2.

(** * Progress accounting *)

(** The value the bar gets when [c] of [n] records are completed *)
Definition base (n c : nat) : Z :=
  py_int (inject_Z (Z.of_nat c) * progress_per_mod n).

(** A chronological list of bar values that never goes down, starts at
    [lo] or above and ends at [hi] or below *)
Fixpoint ramp (lo : Z) (l : list Z) (hi : Z) : Prop :=
  match l with
  | [] => (lo ≤ hi)%Z
  | v :: l' => (lo ≤ v)%Z ∧ ramp v l' hi
  end.

(** The values a computation has given to the bar, in order *)
Definition emits (w w' : World) (l : list Z) : Prop := bar w' = (rev l ++ bar w)%list.

(** The stream of a file never delivers more than the declared size. *)
Definition well_behaved (remote : string → reply) : Prop :=
  ∀ u filename file_size chunks body,
    remote u = Asset filename file_size chunks body →
    (0 < file_size)%Z ∧ Forall (λ c, 0 ≤ c)%Z chunks ∧
    (foldr Z.add 0 chunks ≤ file_size)%Z.

Definition c6_loop_end : World :=
  (fold_each c8_mods
     (update_one no_faults c8_remote (length c8_mods) (disabled_of c8_mods))
     (0%nat, []) (push_bar 0 c8_world)).2.

Definition c6_url1 : string := "https://mod.io/g/drg/m/one".
Definition c6_url2 : string := "https://mod.io/g/drg/m/two".
Definition c6_remote : string → reply :=
  λ u, if String.eqb u c6_url1
       then Asset "one.zip" 4 [4%Z] (Some (ZipFile []))
       else if String.eqb u c6_url2
       then Asset "two.zip" 10 [1%Z; 9%Z] (Some (ZipFile [("two.pak", "new")]))
       else NoSuchMod.
Definition c6_mods : dict ModInfo :=
  [c9_record "one.pak" (Some c6_url1); c9_record "two.pak" (Some c6_url2)].
Definition c6_world : World :=
  mkWorld (<[("/mods", "one.pak") := Blob "old"]> {[("/mods", "two.pak") := Blob "old"]})
          c6_mods [("Default", mkProfile "/mods" true)]
          None None None 5 [] [] [] 0.
Definition c6_after : World :=
  (check_updates no_faults c6_remote true (Some "Default") c6_world).2.
(** * Notions used by the further properties *)

(** Where [extract_mod] writes the entry [member] of an archive that lies
    in the directory [parent] *)
Definition target_of (parent member : string) : path :=
  (Pathlib.join parent (Pathlib.parent_of member), Pathlib.name_of member).

(** The entries of an archive that [extract_mod] extracts *)
Definition valid_files (ms : list (string * string)) : list (string * string) :=
  List.filter (λ m : string * string, eligible m.1) ms.

(** The files once the entries [valid] have been written, in order *)
Definition extract_fs (parent : string) (valid : list (string * string))
    (m : gmap path content) : gmap path content :=
  foldl (λ m mem, <[target_of parent mem.1 := Blob mem.2]> m) m valid.

Definition x_zip_members : list (string * string) :=
  [("docs/", ""); ("a.pak", "aa"); ("sub/b.pak", "bbb")].
Definition x_zip_world : World :=
  mkWorld {[("/mods", "pack.ZIP") := ZipFile x_zip_members]} [] [] None None None
          0 [] [] [] 0.
Definition x_blob_world : World :=
  mkWorld {[("/mods", "pack.zip") := Blob "not an archive"]} [] [] None None None
          0 [] [] [] 0.

(** The record an install stores for the extracted file [local] *)
Definition installed_record (profile_name mod_dir zip clean_url : string) (t : nat)
    (local : string) : ModInfo :=
  mkModInfo (display_name local) local zip t t profile_name true mod_dir
            (Some clean_url).

Definition x_install_url : string := "https://mod.io/g/drg/m/pack".
Definition x_install_remote : string → reply :=
  λ u, if String.eqb u x_install_url
       then Asset "pack.zip" 5 [3%Z; 2%Z] (Some (ZipFile x_zip_members))
       else NoSuchMod.
Definition x_install_world : World :=
  mkWorld ∅ [] [("Default", mkProfile "/mods" true)] None None None 4 [] [] [] 0.
Definition x_install_w1 : World :=
  (loader_download_mod no_faults x_install_remote (clean (Str.strip x_install_url))
     "/mods" setValue (push_bar 0 x_install_world)).2.
Definition x_install_w2 : World :=
  (extract_mod no_faults ("/mods", "pack.zip") true None x_install_w1).2.

Definition x_toggle_fail : fsop → bool :=
  fails_on [OpMove ("/mods", "a.pak") ("/mods/.disabledmods", "a.pak")].

(** Every record is stored under its local name, and no key occurs
    twice: what installs and bulk updates produce. *)
Definition keyed_by_name (db : dict ModInfo) : Prop :=
  NoDup (dict_keys db) ∧ ∀ k i, (k, i) ∈ db → local_name i = k.

(** What the deletion of the record [n] with directory [d] does to the
    files *)
Definition delete_fs (faulty : fsop → bool) (d n : string)
    (m : gmap path content) : gmap path content :=
  let m1 := unlink_all_fs faulty (glob d n m) m in
  unlink_all_fs faulty (glob (disabled_dir d) n m1) m1.

(** What a migration to [new_path] does to a record *)
Definition migrated (old_path new_path : string) (i : ModInfo) : ModInfo :=
  if String.eqb (installed_path i) old_path then set_installed_path new_path i else i.

Definition x_migrate_disabled : ModInfo :=
  mkModInfo "d" "d.pak" "d.zip" 1 1 "Default" false "/mods" None.
Definition x_migrate_world : World :=
  mkWorld (<[("/mods", "a.pak") := Blob "a"]>
            (<[("/mods", "notes.txt") := Blob "n"]>
              {[("/mods/.disabledmods", "d.pak") := Blob "d"]}))
          [c2_record "a.pak"; ("d.pak", x_migrate_disabled)]
          [("Default", mkProfile "/mods" true)]
          None None None 2 [] [] [] 0.
Definition x_migrated : World :=
  (edit_profile no_faults (Some "Default") "/new" true x_migrate_world).2.

Definition x_rename_url : string := "https://mod.io/g/drg/m/x".
Definition x_rename_remote : string → reply :=
  λ u, if String.eqb u x_rename_url
       then Asset "x.zip" 2 [2%Z] (Some (ZipFile [("x_v2.pak", "v2")]))
       else NoSuchMod.
Definition x_rename_w1 : World :=
  (remove_old no_faults (disabled_of c5_mods) "x.pak" c5_info c5_world).2.
Definition x_rename_w2 : World :=
  (loader_download_mod no_faults x_rename_remote x_rename_url "/mods"
     (make_progress_callback 1 0 false) x_rename_w1).2.
Definition x_rename_w3 : World :=
  (extract_mod no_faults ("/mods", "x.zip") true
     (Some (make_progress_callback 1 0 true)) x_rename_w2).2.

Definition x_zero_remote : string → reply :=
  λ u, if String.eqb u x_install_url
       then Asset "pack.zip" 0 [3%Z] (Some (ZipFile x_zip_members))
       else NoSuchMod.

Definition x_profiles_world : World :=
  mkWorld {[("/mods", "a.pak") := Blob "a"]}
          [c2_record "a.pak"]
          [("Default", mkProfile "/mods" true); ("Extra", mkProfile "/extra" true)]
          None None None 2 [] [] [] 0.
Definition x_last_profile_world : World :=
  mkWorld {[("/games/mods", "a.pak") := Blob "a"]}
          [("a.pak", mkModInfo "a" "a.pak" "a.zip" 1 1 "Mine" true "/games/mods" None)]
          [("Mine", mkProfile "/games/mods" true)]
          None None None 2 [] [] [] 0.

(** A text without line boundary, as a line of a file is *)
Fixpoint no_break (s : string) : bool :=
  match s with
  | EmptyString => true
  | String c s' => negb (Env.is_linebreak c) && no_break s'
  end.

Fixpoint no_cr (s : string) : bool :=
  match s with
  | EmptyString => true
  | String c s' => negb (Ascii.eqb c Env.CR) && no_cr s'
  end.

(** The lines of the [.env] file, as the code reads them *)
Definition env_lines (raw : string) : list string :=
  Env.splitlines (Env.read_text raw).

Definition is_key_line (line : string) : bool := String.prefix Env.key_prefix line.

Definition x_env : string :=
  "MOD_DIRECTORY_PATH=/mods" +:+ String Env.LF "MODIO_API_KEY=old" +:+
  String Env.CR (String Env.LF "# end").
Definition x_key : string := "0123456789abcdef0123456789abcdef".

Definition x_filter_db : dict ModInfo :=
  [("pakchunk99-Mods_BigLamp_P.pak",
    mkModInfo "BigLamp" "pakchunk99-Mods_BigLamp_P.pak" "lamp.zip" 1 1 "Default" true
              "/mods" (Some "https://mod.io/g/drg/m/big-lamp"));
   ("other.pak",
    mkModInfo "Other" "other.pak" "other.zip" 1 1 "Default" true "/mods" None)].

Definition x_logs : list Logs.entry :=
  [("l03.log", 3); ("l12.log", 12); ("l01.log", 1); ("report.txt", 0);
   ("l05.log", 5); ("l04.log", 4); ("l07.log", 7); ("l06.log", 6);
   ("l09.log", 9); ("l08.log", 8); ("l11.log", 11); ("l10.log", 10);
   ("l02.log", 2)]%nat.

(** A log file of the log directory *)
Definition is_log (e : Logs.entry) : Prop := Str.endswith e.1 ".log" = true.

(** Not older than *)
Definition older_eq (a b : Logs.entry) : Prop := (a.2 ≤ b.2)%nat.

(** * Reasoning about computations *)

Lemma bind_val {A B} (m : M A) (k : A → M B) w a w' :
  m w = (Val a, w') → bind m k w = k a w'.
Proof. intros H. unfold bind. by rewrite H. Qed.

Lemma bind_exc {A B} (m : M A) (k : A → M B) w e w' :
  m w = (Exc e, w') → bind m k w = (Exc e, w').
Proof. intros H. unfold bind. by rewrite H. Qed.

Lemma try_val {A} (m : M A) h w a w' :
  m w = (Val a, w') → try_except m h w = (Val a, w').
Proof. intros H. unfold try_except. by rewrite H. Qed.

Lemma try_exc {A} (m : M A) h w e w' :
  m w = (Exc e, w') → try_except m h w = h e w'.
Proof. intros H. unfold try_except. by rewrite H. Qed.

Lemma bind_inv_val {A B} (m : M A) (k : A → M B) w b w' :
  bind m k w = (Val b, w') →
  ∃ a w1, m w = (Val a, w1) ∧ k a w1 = (Val b, w').
Proof.
  unfold bind. destruct (m w) as [[a|e] w1]; [eauto|discriminate].
Qed.


Lemma total_ret {A} (a : A) : total (ret a).
Proof. intros w. by exists a, w. Qed.

Lemma total_gets {A} (f : World → A) : total (gets f).
Proof. intros w. by exists (f w), w. Qed.

Lemma total_modify f : total (modify f).
Proof. intros w. by exists tt, (f w). Qed.

Lemma total_bind {A B} (m : M A) (k : A → M B) :
  total m → (∀ a, total (k a)) → total (bind m k).
Proof.
  intros Hm Hk w. destruct (Hm w) as (a & w1 & H1).
  destruct (Hk a w1) as (b & w2 & H2). exists b, w2.
  by rewrite (bind_val _ _ _ _ _ H1).
Qed.

Lemma total_try {A} (m : M A) h : (∀ e, total (h e)) → total (try_except m h).
Proof.
  intros Hh w. unfold try_except. destruct (m w) as [[a|e] w1]; [by eauto|].
  apply Hh.
Qed.

Lemma total_for_each {A} (l : list A) body :
  (∀ x, total (body x)) → total (for_each l body).
Proof.
  intros Hb. induction l as [|x l IH]; simpl; [apply total_ret|].
  apply total_bind; auto.
Qed.

Lemma total_fold_each {A S} (l : list A) (body : S → A → M S) s :
  (∀ s x, total (body s x)) → total (fold_each l body s).
Proof.
  intros Hb. revert s. induction l as [|x l IH]; intros s; simpl; [apply total_ret|].
  apply total_bind; auto.
Qed.

Lemma total_when b m : total m → total (when b m).
Proof. destruct b; simpl; [done|intros _; apply total_ret]. Qed.


Section Preserves.
Context (R : World → World → Prop) `{!PreOrder R}.

Lemma preserves_ret {A} (a : A) : preserves R (ret a).
Proof. intros w. simpl. reflexivity. Qed.

Lemma preserves_raise {A} e : preserves R (@raise A e).
Proof. intros w. simpl. reflexivity. Qed.

Lemma preserves_gets {A} (f : World → A) : preserves R (gets f).
Proof. intros w. simpl. reflexivity. Qed.

Lemma preserves_modify f : (∀ w, R w (f w)) → preserves R (modify f).
Proof. intros H w. apply H. Qed.

Lemma preserves_bind {A B} (m : M A) (k : A → M B) :
  preserves R m → (∀ a, preserves R (k a)) → preserves R (bind m k).
Proof.
  intros Hm Hk w. specialize (Hm w). unfold bind.
  destruct (m w) as [[a|e] w1]; simpl in *; [|done].
  etrans; [exact Hm|apply Hk].
Qed.

Lemma preserves_try {A} (m : M A) h :
  preserves R m → (∀ e, preserves R (h e)) → preserves R (try_except m h).
Proof.
  intros Hm Hh w. specialize (Hm w). unfold try_except.
  destruct (m w) as [[a|e] w1]; simpl in *; [done|].
  etrans; [exact Hm|apply Hh].
Qed.

Lemma preserves_for_each {A} (l : list A) body :
  (∀ x, preserves R (body x)) → preserves R (for_each l body).
Proof.
  intros Hb. induction l as [|x l IH]; simpl; [apply preserves_ret|].
  apply preserves_bind; auto.
Qed.

Lemma preserves_fold_each {A S} (l : list A) (body : S → A → M S) s :
  (∀ s x, preserves R (body s x)) → preserves R (fold_each l body s).
Proof.
  intros Hb. revert s. induction l as [|x l IH]; intros s; simpl;
    [apply preserves_ret|].
  apply preserves_bind; auto.
Qed.

Lemma preserves_when b m : preserves R m → preserves R (when b m).
Proof. destruct b; simpl; [done|intros _; apply preserves_ret]. Qed.

End Preserves.


#[global] Instance keeps_preorder {X} (f : World → X) : PreOrder (keeps f).
Proof. split; [by intros w|intros w1 w2 w3 H1 H2; unfold keeps in *; congruence]. Qed.

(** Unfolds the monad and steps through a straight-line computation. *)
Ltac munfold :=
  unfold bind, try_except, ret, raise, gets, modify, guard, when, message,
    setValue in *.

Ltac preserves_step :=
  lazymatch goal with
  | |- preserves _ (bind _ _) => refine (preserves_bind _ _ _ _ _); [|intros ?]
  | |- preserves _ (try_except _ _) => refine (preserves_try _ _ _ _ _); [|intros ?]
  | |- preserves _ (ret _) => refine (preserves_ret _ _)
  | |- preserves _ (raise _) => refine (preserves_raise _ _)
  | |- preserves _ (gets _) => refine (preserves_gets _ _)
  | |- preserves _ (for_each _ _) => refine (preserves_for_each _ _ _ _); intros ?
  | |- preserves _ (fold_each _ _ _) =>
      refine (preserves_fold_each _ _ _ _ _); intros ? ?
  | |- preserves _ (when _ _) => refine (preserves_when _ _ _ _)
  | |- preserves _ (modify _) => refine (preserves_modify _ _ _); intros ?; try done
  | |- preserves _ (message _) => refine (preserves_modify _ _ _); intros ?; try done
  | |- preserves _ (setValue _) => refine (preserves_modify _ _ _); intros ?; try done
  | |- preserves _ (guard _ _ _) => unfold guard
  | |- preserves _ (if ?b then _ else _) => destruct b
  | |- preserves _ (match ?x with _ => _ end) => destruct x
  end.


(** * The file system *)

Lemma elem_of_glob (d n : string) (m : gmap path content) (p : path) :
  p ∈ glob d n m ↔ is_Some (m !! p) ∧ p.1 = d ∧ Str.contains n p.2 = true.
Proof.
  unfold glob. rewrite list_elem_of_In, filter_In, <- list_elem_of_In.
  rewrite list_elem_of_fmap, andb_true_iff, String.eqb_eq. split.
  - intros [([q c] & -> & Hq) H]. apply elem_of_map_to_list in Hq. simpl. eauto.
  - intros ([c Hc] & H). split; [|done]. exists (p, c). split; [done|].
    by apply elem_of_map_to_list.
Qed.

Lemma glob_nil (d n : string) (m : gmap path content) :
  glob d n m = [] ↔
  ∀ p, is_Some (m !! p) → p.1 = d → Str.contains n p.2 = true → False.
Proof.
  split.
  - intros H p H1 H2 H3. assert (p ∈ glob d n m) as Hp by by apply elem_of_glob.
    rewrite H in Hp. by apply not_elem_of_nil in Hp.
  - intros H. destruct (glob d n m) as [|p l] eqn:E; [done|exfalso].
    assert (p ∈ glob d n m) as Hp by (rewrite E; left).
    apply elem_of_glob in Hp as (? & ? & ?). eauto.
Qed.

Lemma glob_nil_subseteq (d n : string) (m m' : gmap path content) :
  m' ⊆ m → glob d n m = [] → glob d n m' = [].
Proof.
  rewrite !glob_nil. intros Hsub H p [c Hc] H1 H2.
  apply (H p); [|done..]. exists c. by eapply lookup_weaken.
Qed.

Lemma length_append (a b : string) :
  String.length (a +:+ b) = (String.length a + String.length b)%nat.
Proof. induction a as [|c a IH]; simpl; [done|by rewrite IH]. Qed.

Lemma disabled_dir_neq (d : string) : disabled_dir d ≠ d.
Proof.
  unfold disabled_dir. intros H. apply (f_equal String.length) in H.
  rewrite length_append in H. simpl in H. lia.
Qed.

(** Steps through a computation on the file system by cases on the
    oracle and on the files looked up. *)
Ltac fs_cases :=
  simpl;
  repeat match goal with
  | |- context [delete ?a ?m !! ?a] => rewrite lookup_delete_eq; simpl
  | |- context [<[?a:=?x]> ?m !! ?a] => rewrite lookup_insert_eq; simpl
  | |- context [delete ?a ?m !! ?b] => rewrite (lookup_delete_ne m a b) by congruence; simpl
  | |- context [<[?a:=?x]> ?m !! ?b] => rewrite (lookup_insert_ne m a b x) by congruence; simpl
  | H : ?f ?op = _ |- context [if ?f ?op then _ else _] => rewrite H; simpl
  | H : fs ?w !! ?k = _ |- context [fs ?w !! ?k] => rewrite H; simpl
  | |- context [if ?f ?op then _ else _] => destruct (f op) eqn:?; simpl
  | |- context [fs ?w !! ?k] => destruct (fs w !! k) eqn:?; simpl
  end.

Section Relocator.
Variable faulty : fsop → bool.

(** C3 (amended): [safe_file_move] never raises and reports success
    exactly when the direct move goes through or both the fallback
    copy and the deletion of the source go through; on success the
    destination holds the file and the source is gone.  When the rename
    fails, the copy succeeds and the deletion of the source fails, it
    reports failure, with the file at the destination and at the
    source. *)
Theorem safe_file_move_reports (src dst : path) (w : World) (c : content) :
  fs w !! src = Some c → src ≠ dst →
  ∃ b w', safe_file_move faulty src dst w = (Val b, w') ∧
    (b = true ↔ direct_ok faulty src dst w ∨ fallback_ok faulty src dst) ∧
    (b = true → fs w' !! dst = Some c ∧ fs w' !! src = None) ∧
    (faulty (OpRename src dst) = true → faulty (OpCopy src dst) = false →
     faulty (OpUnlink src) = true →
     b = false ∧ fs w' !! dst = Some c ∧ fs w' !! src = Some c).
Proof.
  intros Hs Hne.
  unfold safe_file_move, mkdir, unlink, rename, copy2, direct_ok, fallback_ok,
    is_file.
  munfold. fs_cases.
  all: eexists _, _; split; [reflexivity|]; simpl.
  all: fs_cases; intuition congruence.
Qed.

End Relocator.

(** C3, witness of the amended statement *)
Lemma safe_file_move_reports_witness :
  ∃ b w', safe_file_move c3_faulty c3_src c3_dst c3_world = (Val b, w') ∧
    (b = true ↔ direct_ok c3_faulty c3_src c3_dst c3_world
                ∨ fallback_ok c3_faulty c3_src c3_dst) ∧
    (b = true → fs w' !! c3_dst = Some (Blob "a") ∧ fs w' !! c3_src = None) ∧
    (c3_faulty (OpRename c3_src c3_dst) = true →
     c3_faulty (OpCopy c3_src c3_dst) = false →
     c3_faulty (OpUnlink c3_src) = true →
     b = false ∧ fs w' !! c3_dst = Some (Blob "a")
     ∧ fs w' !! c3_src = Some (Blob "a")).
Proof.
  apply (safe_file_move_reports c3_faulty c3_src c3_dst c3_world (Blob "a")).
  - reflexivity.
  - discriminate.
Defined.

(** C3, counterexample: the rename fails, the copy to the destination
    succeeds, the deletion of the source fails, and the relocator reports
    failure although the destination file exists. *)
Lemma safe_file_move_copy_ok_delete_fails :
  c3_faulty (OpRename c3_src c3_dst) = true ∧
  c3_faulty (OpCopy c3_src c3_dst) = false ∧
  c3_faulty (OpUnlink c3_src) = true ∧
  (safe_file_move c3_faulty c3_src c3_dst c3_world).1 = Val false ∧
  fs (safe_file_move c3_faulty c3_src c3_dst c3_world).2 !! c3_dst = Some (Blob "a").
Proof. vm_compute. repeat split. Qed.

Section Database.
Variable faulty : fsop → bool.

(** C4 (amended): when a persisted database file exists, [save_mod_db]
    first copies it to the backup; if that copy fails the save is
    given up: the persisted file keeps its old contents, the backup is
    not written, a warning is shown and no exception reaches the
    caller.  If the copy succeeds the backup holds the old contents and
    the new contents are written unless opening the file fails. *)
Theorem save_mod_db_backup_first (w : World) (old : dict ModInfo) :
  db_disk w = Some old →
  ∃ w', save_mod_db faulty w = (Val tt, w') ∧
    mod_db w' = mod_db w ∧
    (faulty (OpCopy db_file db_backup) = false →
     bak_disk w' = Some old ∧
     (faulty (OpWrite db_file) = false → db_disk w' = Some (mod_db w))) ∧
    (faulty (OpCopy db_file db_backup) = true →
     db_disk w' = Some old ∧ bak_disk w' = bak_disk w ∧
     dialogs w' =
       Warning "Error" "Failed to save mod database: copy2" :: dialogs w).
Proof.
  intros Hold. unfold save_mod_db. munfold. simpl. rewrite Hold.
  destruct (faulty (OpCopy db_file db_backup)) eqn:Hcopy; simpl.
  - eexists; split; [reflexivity|]. simpl. intuition congruence.
  - destruct (faulty (OpWrite db_file)) eqn:Hwrite; simpl;
      (eexists; split; [reflexivity|]); simpl; intuition congruence.
Qed.

Lemma save_mod_db_total : total (save_mod_db faulty).
Proof.
  unfold save_mod_db. apply total_bind; [apply total_modify|intros _].
  apply total_try. intros e. apply total_modify.
Qed.

End Database.

(** C4, witness of the amended statement *)
Lemma save_mod_db_backup_first_witness :
  ∃ w', save_mod_db c4_faulty c4_world = (Val tt, w') ∧
    mod_db w' = mod_db c4_world ∧
    (c4_faulty (OpCopy db_file db_backup) = false →
     bak_disk w' = Some c4_old ∧
     (c4_faulty (OpWrite db_file) = false → db_disk w' = Some (mod_db c4_world))) ∧
    (c4_faulty (OpCopy db_file db_backup) = true →
     db_disk w' = Some c4_old ∧ bak_disk w' = bak_disk c4_world ∧
     dialogs w' =
       Warning "Error" "Failed to save mod database: copy2" :: dialogs c4_world).
Proof.
  apply (save_mod_db_backup_first c4_faulty c4_world c4_old). reflexivity.
Defined.

(** C4, counterexample: a persisted file exists, the backup copy fails
    (and nothing else does), and the new contents are not written. *)
Lemma save_mod_db_backup_failure_blocks_save :
  db_disk c4_world = Some c4_old ∧
  c4_faulty (OpCopy db_file db_backup) = true ∧
  c4_faulty (OpWrite db_file) = false ∧
  db_disk (save_mod_db c4_faulty c4_world).2 ≠ Some (mod_db c4_world).
Proof. vm_compute. repeat split. discriminate. Qed.

Section Toggle.
Variable faulty : fsop → bool.

(** A toggle of a record whose file matches nothing in the active
    directory nor in the disabled one never changes the database, in
    memory or on disk, nor the files, whatever the file system does. *)
Lemma toggle_missing_file_changes_nothing (checked : bool) (mod_name : string)
    (w : World) (info : ModInfo) :
  dict_get mod_name (mod_db w) = Some info →
  glob (installed_path info) mod_name (fs w) = [] →
  glob (disabled_dir (installed_path info)) mod_name (fs w) = [] →
  ∀ r w', on_mod_status_changed faulty checked mod_name 0 w = (r, w') →
    mod_db w' = mod_db w ∧ db_disk w' = db_disk w ∧
    bak_disk w' = bak_disk w ∧ db_saves w' = db_saves w ∧ fs w' = fs w.
Proof.
  intros Hget Hact Hdis r w'. unfold on_mod_status_changed, mkdir. munfold. simpl.
  rewrite Hget. destruct (faulty _); simpl.
  - intros [= <- <-]. done.
  - rewrite Hact, Hdis. destruct checked; simpl; intros [= <- <-]; done.
Qed.


End Toggle.


(** * Extraction and download *)

Section Transfer.
Variable faulty : fsop → bool.
Variable remote : string → reply.

Lemma guard_preserves R `{!PreOrder R} op what : preserves R (guard faulty op what).
Proof. unfold guard. destruct (faulty op); [apply preserves_raise|apply preserves_ret]; done. Qed.

Lemma loader_download_mod_preserves R `{!PreOrder R} url dir cb :
  blind R → (∀ p, preserves R (cb p)) →
  preserves R (loader_download_mod faulty remote url dir cb).
Proof.
  intros (Hfs & Hnet & Hbar) Hcb. unfold loader_download_mod, mkdir, write_file, receive.
  repeat first [apply guard_preserves; done | preserves_step; try done].
Qed.

Lemma extract_mod_preserves R `{!PreOrder R} mod_path remove_zip cb :
  blind R → (∀ f, cb = Some f → ∀ p, preserves R (f p)) →
  preserves R (extract_mod faulty mod_path remove_zip cb).
Proof.
  intros (Hfs & Hnet & Hbar) Hcb.
  unfold extract_mod, extract_member, report_chunk, open_zip, mkdir, write_file, unlink.
  repeat first [apply guard_preserves; done | by eapply Hcb | preserves_step; try done].
Qed.

Lemma extract_mod_no_eligible mod_path remove_zip cb (w : World) ms :
  fs w !! mod_path = Some (ZipFile ms) →
  List.filter (λ m : string * string, eligible m.1) ms = [] →
  extract_mod faulty mod_path remove_zip cb w = (Val [], w).
Proof.
  intros Hzip Hnone. unfold extract_mod, open_zip, is_file. munfold. simpl.
  rewrite Hzip. simpl.
  destruct (String.eqb _ ".zip"); simpl; [|done].
  destruct (faulty (OpOpen mod_path)); simpl; [done|].
  rewrite Hzip. simpl. by rewrite Hnone.
Qed.

(** C10: an archive without eligible entries extracts to the empty list,
    without an exception and without touching the archive, whether
    removal was asked for or not; an install whose download produced such
    an archive ends with a warning, registers nothing, saves nothing and
    leaves the archive where it was downloaded. *)
Theorem empty_archive_rejected (ms : list (string * string))
    (wx : World) (mod_path : path) (remove_zip : bool) (cb : option (Z → M unit))
    (w w2 : World) (url_input profile_name : string) (p : Profile) (zp : path) :
  List.filter (λ m : string * string, eligible m.1) ms = [] →
  fs wx !! mod_path = Some (ZipFile ms) →
  Str.strip url_input ≠ "" →
  dict_get profile_name (profiles w) = Some p →
  loader_download_mod faulty remote (clean (Str.strip url_input))
    (mod_directory p) setValue (push_bar 0 w) = (Val zp, w2) →
  fs w2 !! zp = Some (ZipFile ms) →
  extract_mod faulty mod_path remove_zip cb wx = (Val [], wx) ∧
  ∃ w', download_mod faulty remote url_input (Some profile_name) w = (Val tt, w') ∧
    fs w' !! zp = Some (ZipFile ms) ∧
    mod_db w' = mod_db w ∧ db_saves w' = db_saves w ∧ db_disk w' = db_disk w ∧
    dialogs w' =
      Warning "Error" "An error occurred: No valid files extracted from archive."
      :: dialogs w.
Proof.
  intros Hnone Hx Hurl Hp Hdl Hzip. split.
  - by apply extract_mod_no_eligible with ms.
  - assert (∀ X (f : World → X), blind (keeps f) → f w2 = f w) as Hkeep.
    { intros X f Hb.
      pose proof (loader_download_mod_preserves (keeps f)
                    (clean (Str.strip url_input)) (mod_directory p) setValue Hb) as H.
      destruct Hb as (_ & _ & Hbar).
      specialize (H (λ v w0, Hbar v w0) (push_bar 0 w)).
      rewrite Hdl in H. simpl in H. unfold keeps in *. by rewrite H, Hbar. }
    unfold download_mod. apply String.eqb_neq in Hurl. rewrite Hurl.
    rewrite (bind_val _ _ w (profiles w) w) by done. rewrite Hp.
    rewrite (bind_val _ _ w tt (push_bar 0 w)) by done.
    erewrite try_exc.
    2:{ erewrite bind_val by exact Hdl.
        erewrite bind_val by (by eapply extract_mod_no_eligible).
        reflexivity. }
    eexists. split; [reflexivity|]. simpl.
    rewrite Hzip, (Hkeep _ mod_db), (Hkeep _ db_saves), (Hkeep _ db_disk),
      (Hkeep _ dialogs); done.
Qed.

End Transfer.

(** C10, witness *)
Lemma empty_archive_rejected_witness :
  extract_mod no_faults ("/tmp", "e.zip") true None c10_world = (Val [], c10_world) ∧
  ∃ w', download_mod no_faults c10_remote c10_url (Some "Default") c10_world
        = (Val tt, w') ∧
    fs w' !! ("/mods", "empty.zip") = Some (ZipFile c10_members) ∧
    mod_db w' = mod_db c10_world ∧ db_saves w' = db_saves c10_world ∧
    db_disk w' = db_disk c10_world ∧
    dialogs w' =
      Warning "Error" "An error occurred: No valid files extracted from archive."
      :: dialogs c10_world.
Proof.
  apply (empty_archive_rejected no_faults c10_remote c10_members c10_world
           ("/tmp", "e.zip") true None c10_world c10_downloaded c10_url "Default"
           c10_profile ("/mods", "empty.zip")).
  - reflexivity.
  - reflexivity.
  - discriminate.
  - reflexivity.
  - vm_compute. reflexivity.
  - vm_compute. reflexivity.
Defined.

(** * Dictionaries *)

Lemma dict_get_Some_elem {V} (k : string) (d : dict V) (v : V) :
  dict_get k d = Some v → (k, v) ∈ d.
Proof.
  induction d as [|[k' v'] d IH]; simpl; [done|].
  destruct (String.eqb_spec k k') as [->|Hne].
  - intros [= ->]. left.
  - intros H. right. auto.
Qed.

Lemma dict_get_None {V} (k : string) (d : dict V) :
  k ∉ dict_keys d → dict_get k d = None.
Proof.
  induction d as [|[k' v'] d IH]; simpl; [done|].
  rewrite not_elem_of_cons. intros [Hne Hnot].
  destruct (String.eqb_spec k k'); [done|auto].
Qed.

Lemma dict_get_elem {V} (k : string) (d : dict V) (v : V) :
  NoDup (dict_keys d) → (k, v) ∈ d → dict_get k d = Some v.
Proof.
  induction d as [|[k' v'] d IH]; simpl.
  - intros _ H. by apply not_elem_of_nil in H.
  - rewrite NoDup_cons. intros [Hnot Hnd] Hin.
    apply elem_of_cons in Hin as [[= <- <-]|Hin].
    + by rewrite String.eqb_refl.
    + destruct (String.eqb_spec k k') as [->|Hne]; [|auto].
      exfalso. apply Hnot. apply list_elem_of_fmap. by exists (k', v).
Qed.

Lemma disabled_of_keys (mods : dict ModInfo) (k : string) :
  k ∈ dict_keys (disabled_of mods) →
  ∃ i, (k, i) ∈ mods ∧ enabled i = false.
Proof.
  unfold disabled_of, dict_keys. rewrite <- list_fmap_compose.
  intros Hk. apply list_elem_of_fmap in Hk as ([k' i] & -> & Hi).
  apply list_elem_of_In, filter_In in Hi as [Hi Hdis]. apply list_elem_of_In in Hi.
  exists i. split; [done|]. simpl in Hdis. by destruct (enabled i).
Qed.

Lemma disabled_of_NoDup (mods : dict ModInfo) :
  NoDup (dict_keys mods) → NoDup (dict_keys (disabled_of mods)).
Proof.
  induction mods as [|[k i] mods IH]; simpl; [done|].
  rewrite NoDup_cons. intros [Hnot Hnd]. unfold disabled_of. simpl.
  destruct (enabled i); simpl; [by apply IH|].
  apply NoDup_cons. split; [|by apply IH].
  intros Hk. apply disabled_of_keys in Hk as (i2 & Hi2 & _).
  apply Hnot. apply list_elem_of_fmap. by exists (k, i2).
Qed.

Lemma disabled_of_get (mods : dict ModInfo) (mod_id : string) (info : ModInfo) :
  NoDup (dict_keys mods) → (mod_id, info) ∈ mods →
  dict_get mod_id (disabled_of mods) =
    if enabled info then None else Some (local_name info).
Proof.
  intros Hnd Hin. destruct (enabled info) eqn:Hen.
  - apply dict_get_None. intros Hk.
    apply disabled_of_keys in Hk as (i & Hi & Hdis).
    pose proof (dict_get_elem _ _ _ Hnd Hin) as H1.
    pose proof (dict_get_elem _ _ _ Hnd Hi) as H2. rewrite H1 in H2.
    injection H2 as <-. congruence.
  - apply dict_get_elem; [by apply disabled_of_NoDup|].
    unfold disabled_of. apply list_elem_of_fmap. exists (mod_id, info).
    split; [done|].
    apply list_elem_of_In, filter_In. split; [by apply list_elem_of_In|].
    simpl. by rewrite Hen.
Qed.

(** * Removal of files *)

Section Removal.
Variable faulty : fsop → bool.

Lemma with_fs_id (f : gmap path content → gmap path content) (w : World) :
  f (fs w) = fs w → with_fs f w = w.
Proof. destruct w. unfold with_fs. simpl. by intros ->. Qed.

Lemma unlink_all_run (files : list path) (w : World) :
  unlink_all faulty files w = (Val tt, with_fs (unlink_all_fs faulty files) w).
Proof.
  revert w. induction files as [|p files IH]; intros w.
  - simpl. by rewrite with_fs_id.
  - unfold unlink_all in *. simpl.
    assert (try_except (unlink faulty true p) (λ _, ret tt) w =
            (Val tt, with_fs (λ m, if faulty (OpUnlink p) then m else delete p m) w))
      as Hstep.
    { unfold unlink, is_file. munfold. simpl.
      destruct (faulty (OpUnlink p)); simpl; [by rewrite with_fs_id|].
      destruct (fs w !! p) eqn:Hp; simpl; [done|].
      rewrite with_fs_id; [done|by apply delete_id]. }
    rewrite (bind_val _ _ _ _ _ Hstep), IH. done.
Qed.

Lemma unlink_all_fs_subseteq (files : list path) (m : gmap path content) :
  unlink_all_fs faulty files m ⊆ m.
Proof.
  revert m. induction files as [|p files IH]; intros m; simpl; [done|].
  etrans; [apply IH|]. destruct (faulty (OpUnlink p)); [done|apply delete_subseteq].
Qed.

Lemma unlink_all_fs_removed (files : list path) (m : gmap path content) (p : path) :
  p ∈ files → faulty (OpUnlink p) = false → unlink_all_fs faulty files m !! p = None.
Proof.
  revert m. induction files as [|q files IH]; intros m Hin Hok.
  - by apply not_elem_of_nil in Hin.
  - simpl. apply elem_of_cons in Hin as [->|Hin]; [|by apply IH].
    rewrite Hok. eapply lookup_weaken_None; [|apply unlink_all_fs_subseteq].
    apply lookup_delete_eq.
Qed.

Lemma unlink_all_fs_other (files : list path) (m : gmap path content) (p : path) :
  p ∉ files → unlink_all_fs faulty files m !! p = m !! p.
Proof.
  revert m. induction files as [|q files IH]; intros m Hnot; simpl; [done|].
  apply not_elem_of_cons in Hnot as [Hne Hnot]. rewrite IH by done.
  destruct (faulty (OpUnlink q)); [done|]. by apply lookup_delete_ne.
Qed.

Lemma glob_unlinked (d n : string) (m : gmap path content) :
  (∀ p, Str.contains n p.2 = true → faulty (OpUnlink p) = false) →
  glob d n (unlink_all_fs faulty (glob d n m) m) = [].
Proof.
  intros Hok. apply glob_nil. intros p [c Hc] Hd Hn.
  rewrite unlink_all_fs_removed in Hc; [done| |by apply Hok].
  apply elem_of_glob. split; [|done]. exists c.
  eapply lookup_weaken; [exact Hc|apply unlink_all_fs_subseteq].
Qed.


End Removal.



(** * Directory migration *)

Lemma dict_set_same {V} (k : string) (v : V) (d : dict V) :
  dict_get k d = Some v → dict_set k v d = d.
Proof.
  induction d as [|[k' v'] d IH]; simpl; [done|].
  destruct (String.eqb_spec k k') as [->|Hne]; [by intros [= ->]|].
  intros H. by rewrite IH.
Qed.

Lemma files_to_move_spec (old_path : string) (w : World) (f : path) :
  f ∈ files_to_move old_path w → f.1 = old_path ∧ is_Some (fs w !! f).
Proof.
  unfold files_to_move. rewrite list_elem_of_In, in_flat_map.
  intros ([k i] & _ & Hf). simpl in Hf.
  destruct (String.eqb _ old_path && _ && _) eqn:Hc; [|done].
  destruct Hf as [<-|[]]. apply andb_true_iff in Hc as [_ Hfile].
  unfold is_file in Hfile. split; [done|]. by destruct (fs w !! _).
Qed.

Lemma move_fs_other (new_path : string) (files : list path)
    (m : gmap path content) (q : path) :
  q ∉ files → (∀ f, f ∈ files → (new_path, f.2) ≠ q) →
  move_fs new_path files m !! q = m !! q.
Proof.
  revert m. induction files as [|f files IH]; intros m Hnot Hdst; simpl; [done|].
  apply not_elem_of_cons in Hnot as [Hne Hnot].
  rewrite IH; [|done|intros h Hh; apply Hdst; by right].
  destruct (m !! f); [|done].
  rewrite lookup_insert_ne by (apply Hdst; left).
  by rewrite lookup_delete_ne.
Qed.

Lemma move_fs_moved (old_path new_path : string) (files : list path)
    (m : gmap path content) (f : path) :
  old_path ≠ new_path → NoDup files →
  (∀ g, g ∈ files → g.1 = old_path ∧ is_Some (m !! g)) →
  f ∈ files →
  move_fs new_path files m !! (new_path, f.2) = m !! f ∧
  move_fs new_path files m !! f = None.
Proof.
  intros Hdir. revert m. induction files as [|g files IH]; intros m Hnd Hall Hin.
  - by apply not_elem_of_nil in Hin.
  - apply NoDup_cons in Hnd as [Hg Hnd]. simpl.
    destruct (Hall g ltac:(left)) as [Hgd [c Hc]]. rewrite Hc.
    assert (∀ h, h ∈ files → (new_path, h.2) ≠ g) as Hsrc.
    { intros h _ Heq. rewrite <- Heq in Hgd. simpl in Hgd. congruence. }
    apply elem_of_cons in Hin as [->|Hin].
    + assert (∀ h, h ∈ files → (new_path, h.2) ≠ (new_path, g.2)) as Hdst.
      { intros h Hh [= Heq]. destruct (Hall h ltac:(by right)) as [Hhd _].
        apply Hg. replace g with h; [done|].
        destruct h, g; simpl in *; congruence. }
      rewrite !move_fs_other; try done.
      * by rewrite lookup_insert_eq, lookup_insert_ne, lookup_delete_eq
          by (intros Heq; rewrite <- Heq in Hgd; simpl in Hgd; congruence).
      * intros Hin. destruct (Hall _ ltac:(by right)) as [Hd _]. simpl in Hd.
        congruence.
    + assert (f ≠ g) as Hfg by (intros ->; done).
      destruct (Hall f ltac:(by right)) as [Hfd _].
      assert ((new_path, g.2) ≠ f) as Hnf
        by (intros Heq; rewrite <- Heq in Hfd; simpl in Hfd; congruence).
      destruct (IH (<[(new_path, g.2) := c]> (delete g m)) Hnd) as [H1 H2]; [|done|].
      * intros h Hh. destruct (Hall h ltac:(by right)) as [Hhd Hhs].
        split; [done|].
        rewrite lookup_insert_ne
          by (intros Heq; rewrite <- Heq in Hhd; simpl in Hhd; congruence).
        rewrite lookup_delete_ne by (intros ->; done). done.
      * rewrite H1, H2. split; [|done].
        rewrite lookup_insert_ne by done. by rewrite lookup_delete_ne.
Qed.

Section Migration.
Variable faulty : fsop → bool.

Lemma moves_until_failure (old_path new_path : string) (moved : list path)
    (failing : path) (rest : list path) (n : nat) (w : World) :
  old_path ≠ new_path → NoDup moved →
  (∀ f, f ∈ moved → f.1 = old_path ∧ is_Some (fs w !! f)) →
  (∀ f, f ∈ moved → faulty (OpMove f (new_path, f.2)) = false) →
  faulty (OpMove failing (new_path, failing.2)) = true →
  fold_each (moved ++ failing :: rest)
    (λ n file_path,
       shutil_move faulty file_path (new_path, file_path.2) >> ret (S n)) n w
  = (Exc (OSError "move"), with_fs (move_fs new_path moved) w).
Proof.
  intros Hdir Hnd Hall Hok Hfail. revert n w Hall.
  induction moved as [|f moved IH]; intros n w Hall; simpl.
  - unfold shutil_move. munfold. rewrite Hfail. simpl. by rewrite with_fs_id.
  - apply NoDup_cons in Hnd as [Hf Hnd].
    destruct (Hall f ltac:(left)) as [Hfd [c Hc]].
    unfold shutil_move at 1. munfold. rewrite (Hok f) by left. simpl.
    rewrite Hc. simpl. rewrite IH.
    + unfold with_fs. simpl. by rewrite Hc.
    + done.
    + intros h Hh. apply Hok. by right.
    + intros h Hh. destruct (Hall h ltac:(by right)) as [Hhd Hhs].
      split; [done|]. simpl.
      rewrite lookup_insert_ne
        by (intros Heq; rewrite <- Heq in Hhd; simpl in Hhd; congruence).
      rewrite lookup_delete_ne by (intros ->; done). done.
Qed.

(** C2 (amended): a migration in which the move of a file fails stops
    at that file.  The files moved before it stay in the new directory
    and are not moved back; the failing file and the files after it stay
    where they were; no record's installed path is changed, the
    directory of the profile stays the old one, nothing is written to
    the profile store nor to the database file, and the caller is shown
    an error message, not a count. *)
Theorem migration_stops_at_first_failure (w : World)
    (profile_name new_path : string) (p : Profile)
    (moved : list path) (failing : path) (rest : list path) :
  dict_get profile_name (profiles w) = Some p →
  new_path ≠ "" → new_path ≠ mod_directory p →
  files_to_move (mod_directory p) w = (moved ++ failing :: rest)%list →
  NoDup (files_to_move (mod_directory p) w) →
  faulty (OpMkdir new_path) = false →
  (∀ f, f ∈ moved → faulty (OpMove f (new_path, f.2)) = false) →
  faulty (OpMove failing (new_path, failing.2)) = true →
  ∃ w', edit_profile faulty (Some profile_name) new_path true w = (Val tt, w') ∧
    (∀ f, f ∈ moved →
       fs w' !! (new_path, f.2) = fs w !! f ∧ fs w' !! f = None) ∧
    (∀ f, f ∈ failing :: rest → fs w' !! f = fs w !! f) ∧
    mod_db w' = mod_db w ∧ profiles w' = profiles w ∧
    profiles_disk w' = profiles_disk w ∧ db_disk w' = db_disk w ∧
    db_saves w' = db_saves w ∧
    dialogs w' =
      Critical "Error"
        ("Failed to migrate files: move" +:+ nl +:+ "Reverting changes...")
      :: dialogs w.
Proof.
  intros Hp Hne1 Hne2 Hsplit Hnd Hmk Hok Hfail.
  assert (mod_directory p ≠ new_path) as Hdir by congruence.
  assert (∀ f : path, f ∈ (moved ++ failing :: rest)%list →
            f.1 = mod_directory p ∧ is_Some (fs w !! f)) as Hall.
  { intros f Hf. apply files_to_move_spec. by rewrite Hsplit. }
  rewrite Hsplit in Hnd. apply NoDup_app in Hnd as (Hnd1 & Hdisj & Hnd2).
  unfold edit_profile. rewrite (bind_val _ _ w (profiles w) w) by done.
  rewrite Hp. apply String.eqb_neq in Hne1, Hne2. rewrite Hne1, Hne2. simpl.
  rewrite (bind_val _ _ w (files_to_move (mod_directory p) w) w) by done.
  simpl. rewrite Hsplit.
  erewrite try_exc.
  2:{ unfold mkdir, guard. rewrite Hmk.
      rewrite (bind_val _ _ w tt w) by done.
      erewrite bind_exc; [reflexivity|].
      apply moves_until_failure with (old_path := mod_directory p); try done.
      intros f Hf. apply Hall. apply elem_of_app. by left. }
  munfold. simpl. eexists. split; [reflexivity|]. simpl.
  split; [|split].
  - intros f Hf. eapply move_fs_moved; try done.
    intros g Hg. apply Hall. apply elem_of_app. by left.
  - intros f Hf. apply move_fs_other.
    + intros Hin. by apply (Hdisj f).
    + intros g Hg Heq.
      destruct (Hall f ltac:(apply elem_of_app; by right)) as [Hfd _].
      rewrite <- Heq in Hfd. simpl in Hfd. congruence.
  - unfold dict_update. rewrite Hp.
    replace (set_mod_directory (mod_directory p) p) with p by by destruct p.
    by rewrite dict_set_same.
Qed.

End Migration.

(** C2, witness of the amended statement *)
Lemma migration_stops_at_first_failure_witness :
  ∃ w', edit_profile c2_faulty (Some "Default") "/new" true c2_world = (Val tt, w') ∧
    (∀ f : path, f ∈ [("/mods", "a.pak")] →
       fs w' !! ("/new", f.2) = fs c2_world !! f ∧ fs w' !! f = None) ∧
    (∀ f : path, f ∈ [("/mods", "b.pak"); ("/mods", "c.pak")] →
       fs w' !! f = fs c2_world !! f) ∧
    mod_db w' = mod_db c2_world ∧ profiles w' = profiles c2_world ∧
    profiles_disk w' = profiles_disk c2_world ∧ db_disk w' = db_disk c2_world ∧
    db_saves w' = db_saves c2_world ∧
    dialogs w' =
      Critical "Error"
        ("Failed to migrate files: move" +:+ nl +:+ "Reverting changes...")
      :: dialogs c2_world.
Proof.
  apply (migration_stops_at_first_failure c2_faulty c2_world "Default" "/new"
           (mkProfile "/mods" true) [("/mods", "a.pak")] ("/mods", "b.pak")
           [("/mods", "c.pak")]).
  - reflexivity.
  - discriminate.
  - discriminate.
  - vm_compute. reflexivity.
  - apply (bool_decide_unpack _). vm_compute. reflexivity.
  - reflexivity.
  - intros f Hf. apply list_elem_of_singleton in Hf as ->. reflexivity.
  - reflexivity.
Defined.

(** C2, counterexample: three tracked files, the move of the second one
    fails.  The first file has been moved and stays in the new
    directory, but its record keeps the old installed path, the third
    file is never moved, the directory of the profile stays the old one,
    and the caller gets an error message without counts. *)
Lemma migration_failure_updates_nothing :
  fs c2_after !! ("/new", "a.pak") = Some (Blob "a") ∧
  installed_path <$> dict_get "a.pak" (mod_db c2_after) = Some "/mods" ∧
  fs c2_after !! ("/mods", "c.pak") = Some (Blob "c") ∧
  fs c2_after !! ("/new", "c.pak") = None ∧
  mod_directory <$> dict_get "Default" (profiles c2_after) = Some "/mods" ∧
  dialogs c2_after =
    [Critical "Error"
       ("Failed to migrate files: move" +:+ nl +:+ "Reverting changes...")].
Proof. vm_compute. repeat split. Qed.

(** * Location-flag coherence *)

#[global] Instance shrinks_preorder : PreOrder shrinks.
Proof.
  split.
  - intros w. by split.
  - intros w1 w2 w3 [H1 H2] [H3 H4]. split; by etrans.
Qed.

Lemma shrinks_same (w w' : World) :
  fs w' = fs w → mod_db w' = mod_db w → shrinks w w'.
Proof. intros H1 H2. unfold shrinks. by rewrite H1, H2. Qed.

Lemma coherent_shrinks (w w' : World) : shrinks w w' → coherent w → coherent w'.
Proof.
  intros [Hfs Hdb] Hco k i Hin. specialize (Hco k i (Hdb _ Hin)).
  unfold record_coherent in *. destruct (enabled i); by eapply glob_nil_subseteq.
Qed.

Lemma dict_del_subseteq {V} (k : string) (d : dict V) : dict_del k d ⊆ d.
Proof.
  induction d as [|[k' v'] d IH]; simpl; [done|].
  destruct (String.eqb k k').
  - intros x Hx. by right.
  - intros x Hx. apply elem_of_cons in Hx as [->|Hx]; [left|right; by apply IH].
Qed.

Lemma dict_get_set_eq {V} (k : string) (v : V) (d : dict V) :
  dict_get k (dict_set k v d) = Some v.
Proof.
  induction d as [|[k' v'] d IH]; simpl.
  - by rewrite String.eqb_refl.
  - destruct (String.eqb_spec k k') as [->|Hne]; simpl.
    + by rewrite String.eqb_refl.
    + by destruct (String.eqb_spec k k').
Qed.

Lemma dict_get_set_ne {V} (k k' : string) (v : V) (d : dict V) :
  k ≠ k' → dict_get k' (dict_set k v d) = dict_get k' d.
Proof.
  intros Hne. induction d as [|[k2 v2] d IH]; simpl.
  - by destruct (String.eqb_spec k' k).
  - destruct (String.eqb_spec k k2) as [->|Hne2]; simpl.
    + by destruct (String.eqb_spec k' k2).
    + destruct (String.eqb_spec k' k2); [done|apply IH].
Qed.

Lemma dict_set_elem {V} (k0 : string) (v : V) (d : dict V) (k : string) (x : V) :
  NoDup (dict_keys d) → (k, x) ∈ dict_set k0 v d →
  (k, x) = (k0, v) ∨ ((k, x) ∈ d ∧ k ≠ k0).
Proof.
  induction d as [|[k' v'] d IH]; simpl.
  - intros _ Hin. apply list_elem_of_singleton in Hin. by left.
  - rewrite NoDup_cons. intros [Hnot Hnd].
    destruct (String.eqb_spec k0 k') as [->|Hne].
    + intros Hin. apply elem_of_cons in Hin as [->|Hin]; [by left|].
      right. split; [by right|]. intros ->. apply Hnot.
      apply list_elem_of_fmap. by exists (k', x).
    + intros Hin. apply elem_of_cons in Hin as [[= -> ->]|Hin].
      * right. split; [left|done].
      * destruct (IH Hnd Hin) as [?|[? ?]]; [by left|]. right. split; [by right|done].
Qed.

Lemma NoDup_glob (d n : string) (m : gmap path content) : NoDup (glob d n m).
Proof.
  unfold glob. apply NoDup_ListNoDup, List.NoDup_filter, NoDup_ListNoDup.
  apply NoDup_fst_map_to_list.
Qed.

Lemma glob_moved (src dst n : string) (m : gmap path content) :
  src ≠ dst → glob src n (move_fs dst (glob src n m) m) = [].
Proof.
  intros Hdir. apply glob_nil. intros p Hp Hd Hn.
  assert (∀ g, g ∈ glob src n m → g.1 = src ∧ is_Some (m !! g)) as Hall.
  { intros g Hg. apply elem_of_glob in Hg. tauto. }
  destruct (decide (p ∈ glob src n m)) as [Hin|Hnot].
  - destruct (move_fs_moved src dst _ m p Hdir (NoDup_glob _ _ _) Hall Hin) as [_ H].
    rewrite H in Hp. by destruct Hp.
  - rewrite move_fs_other in Hp; [|done|].
    + apply Hnot. by apply elem_of_glob.
    + intros f _ Heq. rewrite <- Heq in Hd. simpl in Hd. congruence.
Qed.

Section Coherence.
Variable faulty : fsop → bool.

Lemma moves_all_ok (dst : string) (files : list path) (w w' : World) :
  for_each files (λ f, shutil_move faulty f (dst, f.2)) w = (Val tt, w') →
  w' = with_fs (move_fs dst files) w.
Proof.
  revert w. induction files as [|f files IH]; intros w; simpl.
  - intros [= <-]. by rewrite with_fs_id.
  - intros H. apply bind_inv_val in H as ([] & w1 & H1 & H2).
    unfold shutil_move in H1. munfold.
    destruct (faulty _); simpl in H1; [done|].
    destruct (fs w !! f) eqn:Hf; simpl in H1; [|done].
    injection H1 as <-. apply IH in H2 as ->.
    unfold with_fs. simpl. by rewrite Hf.
Qed.

Lemma save_mod_db_preserves R `{!PreOrder R} :
  (∀ w, R w (count_save w)) → (∀ d w, R w (with_bak_disk d w)) →
  (∀ d w, R w (with_db_disk d w)) → (∀ d w, R w (push_dialog d w)) →
  preserves R (save_mod_db faulty).
Proof.
  intros H1 H2 H3 H4. unfold save_mod_db.
  repeat first [apply guard_preserves; done | preserves_step; try done].
Qed.

Lemma refresh_mod_tree_preserves R `{!PreOrder R} :
  (∀ v w, R w (push_bar v w)) → preserves R (refresh_mod_tree).
Proof. intros H. unfold refresh_mod_tree. repeat (preserves_step; try done). Qed.

Lemma delete_selected_mods_shrinks current_profile selected confirm :
  preserves shrinks (delete_selected_mods faulty current_profile selected confirm).
Proof.
  unfold delete_selected_mods, delete_one, unlink_all, unlink.
  repeat first
    [ apply guard_preserves; done
    | apply save_mod_db_preserves; first [by (intros; apply shrinks_same)|apply _]
    | apply refresh_mod_tree_preserves;
        first [by (intros; apply shrinks_same)|apply _]
    | preserves_step; try by apply shrinks_same ].
  - split; [apply delete_subseteq|done].
  - split; [apply delete_subseteq|done].
  - split; [done|apply dict_del_subseteq].
Qed.

Lemma apply_state_run (mod_name : string) (e : bool) (w : World) :
  ∃ w', apply_state faulty mod_name e w = (Val (Applied, e), w') ∧
    fs w' = fs w ∧
    mod_db w' = dict_update mod_name (set_enabled e) (mod_db w).
Proof.
  unfold apply_state.
  rewrite (bind_val _ _ w tt (with_mod_db (dict_update mod_name (set_enabled e)) w))
    by done.
  destruct (save_mod_db_total faulty
              (with_mod_db (dict_update mod_name (set_enabled e)) w))
    as ([] & w' & Hs).
  rewrite (bind_val _ _ _ _ _ Hs). exists w'. split; [done|].
  pose proof (save_mod_db_preserves (keeps fs)
                (λ _, eq_refl) (λ _ _, eq_refl) (λ _ _, eq_refl) (λ _ _, eq_refl)
                (with_mod_db (dict_update mod_name (set_enabled e)) w)) as H1.
  pose proof (save_mod_db_preserves (keeps mod_db)
                (λ _, eq_refl) (λ _ _, eq_refl) (λ _ _, eq_refl) (λ _ _, eq_refl)
                (with_mod_db (dict_update mod_name (set_enabled e)) w)) as H2.
  rewrite Hs in H1, H2. by split.
Qed.

Lemma toggle_applied_inv (checked b : bool) (mod_name : string) (info : ModInfo)
    (w w' : World) :
  dict_get mod_name (mod_db w) = Some info →
  on_mod_status_changed faulty checked mod_name 0 w = (Val (Applied, b), w') →
  b = checked ∧
  mod_db w' = dict_update mod_name (set_enabled checked) (mod_db w) ∧
  fs w' = move_fs (toggle_dst checked info)
            (glob (toggle_src checked info) mod_name (fs w)) (fs w).
Proof.
  intros Hget. unfold on_mod_status_changed. simpl.
  rewrite (bind_val _ _ w (mod_db w) w) by done. rewrite Hget.
  unfold mkdir, guard. destruct (faulty _).
  { rewrite (bind_exc _ _ w (OSError "mkdir") w) by done. done. }
  rewrite (bind_val _ _ w tt w) by done.
  unfold try_except.
  rewrite (bind_val _ _ w (glob (installed_path info) mod_name (fs w)) w) by done.
  rewrite (bind_val _ _ w (glob (disabled_dir (installed_path info)) mod_name (fs w)) w)
    by done.
  unfold toggle_src, toggle_dst.
  destruct checked.
  - destruct (glob (disabled_dir (installed_path info)) mod_name (fs w))
      as [|d ds] eqn:Hdis.
    + destruct (glob (installed_path info) mod_name (fs w)) as [|a l] eqn:Hact.
      * simpl. done.
      * destruct (apply_state_run mod_name true w) as (w2 & -> & Hfs & Hdb).
        intros [= <- <-]. done.
    + match goal with |- context [for_each ?l ?f] =>
        destruct (for_each l f w) as [[[]|e] w1] eqn:Hmv end.
      * rewrite (bind_val _ _ _ _ _ Hmv).
        destruct (apply_state_run mod_name true w1) as (w2 & -> & Hfs & Hdb).
        apply moves_all_ok in Hmv as ->.
        intros [= <- <-]. simpl in *. by rewrite Hfs, Hdb.
      * rewrite (bind_exc _ _ _ _ _ Hmv). done.
  - destruct (glob (installed_path info) mod_name (fs w)) as [|a l] eqn:Hact.
    + destruct (glob (disabled_dir (installed_path info)) mod_name (fs w))
        as [|d ds] eqn:Hdis.
      * simpl. done.
      * destruct (apply_state_run mod_name false w) as (w2 & -> & Hfs & Hdb).
        intros [= <- <-]. done.
    + match goal with |- context [for_each ?l ?f] =>
        destruct (for_each l f w) as [[[]|e] w1] eqn:Hmv end.
      * rewrite (bind_val _ _ _ _ _ Hmv).
        destruct (apply_state_run mod_name false w1) as (w2 & -> & Hfs & Hdb).
        apply moves_all_ok in Hmv as ->.
        intros [= <- <-]. simpl in *. by rewrite Hfs, Hdb.
      * rewrite (bind_exc _ _ _ _ _ Hmv). done.
Qed.
End Coherence.

Lemma glob_moved_other (src dst n0 d n : string) (m : gmap path content) :
  (∀ p, is_Some (m !! p) → p.1 = src → Str.contains n0 p.2 = true →
        Str.contains n p.2 = false) →
  glob d n m = [] →
  glob d n (move_fs dst (glob src n0 m) m) = [].
Proof.
  intros Hover Hnil. apply glob_nil. intros p Hp Hd Hn.
  rewrite move_fs_other in Hp.
  - revert Hnil. rewrite glob_nil. intros Hnil. by apply (Hnil p).
  - intros Hin. apply elem_of_glob in Hin as (Hs & Hsrc & Hn0).
    rewrite (Hover p) in Hn; done.
  - intros f Hf Heq. apply elem_of_glob in Hf as (Hs & Hsrc & Hn0).
    rewrite <- Heq in Hn. simpl in Hn. rewrite (Hover f) in Hn; done.
Qed.

Section CoherenceTheorem.
Variable faulty : fsop → bool.


End CoherenceTheorem.

Lemma is_Some_keys (m : gmap path content) (p : path) :
  is_Some (m !! p) → p ∈ (map_to_list m).*1.
Proof.
  intros [c Hc]. apply list_elem_of_fmap. exists (p, c). split; [done|].
  by apply elem_of_map_to_list.
Qed.

Lemma c1_toggle_world_coherent : coherent c1_toggle_world.
Proof.
  intros k i Hin. simpl in Hin.
  repeat (apply elem_of_cons in Hin as [[= -> ->]|Hin]); try by vm_compute.
  by apply not_elem_of_nil in Hin.
Qed.



(** * Bulk update *)

Lemma total_now : total now.
Proof. intros w. by exists (clock w), (tick w). Qed.

Lemma preserves_now R : (∀ w, R w (tick w)) → preserves R now.
Proof. intros H w. apply H. Qed.

Lemma make_progress_callback_preserves R total_mods completed sp p :
  (∀ v w, R w (push_bar v w)) →
  preserves R (make_progress_callback total_mods completed sp p).
Proof. intros H w. apply H. Qed.

Ltac side :=
  first [ apply _ | done
        | intros; by apply make_progress_callback_preserves
        | intros ? [= <-] ?; by apply make_progress_callback_preserves ].

Section BulkUpdate.
Variable faulty : fsop → bool.
Variable remote : string → reply.

Lemma unlink_all_total files : total (unlink_all faulty files).
Proof. intros w. rewrite unlink_all_run. by eexists _, _. Qed.

Lemma remove_old_total dm mod_id info : total (remove_old faulty dm mod_id info).
Proof.
  unfold remove_old. apply total_bind.
  - destruct (dict_get mod_id dm); [|apply total_ret].
    apply total_bind; [apply total_gets|intros; apply unlink_all_total].
  - intros _. apply total_bind; [apply total_gets|intros; apply unlink_all_total].
Qed.

Lemma extract_mod_total mod_path remove_zip cb :
  total (extract_mod faulty mod_path remove_zip cb).
Proof. unfold extract_mod. apply total_try. intros _. apply total_ret. Qed.

Lemma move_to_disabled_total profile_dir local :
  total (move_to_disabled faulty profile_dir local).
Proof.
  unfold move_to_disabled. apply total_try. intros _. apply total_try.
  intros _. apply total_ret.
Qed.

Lemma refresh_entry_total was_disabled info t f :
  total (refresh_entry faulty was_disabled info t f).
Proof.
  unfold refresh_entry. apply total_bind; [apply total_gets|intros there].
  destruct there; simpl; [|apply total_ret].
  apply total_bind; [apply total_modify|intros _].
  apply total_when, move_to_disabled_total.
Qed.

Lemma remove_old_preserves R `{!PreOrder R} dm mod_id info :
  (∀ g w, R w (with_fs g w)) → preserves R (remove_old faulty dm mod_id info).
Proof.
  intros Hfs. unfold remove_old, unlink_all, unlink.
  repeat first [apply guard_preserves; done | preserves_step; try done].
Qed.

Lemma refresh_entry_preserves R `{!PreOrder R} was_disabled info t f :
  (∀ g w, R w (with_fs g w)) → (∀ g w, R w (with_mod_db g w)) →
  preserves R (refresh_entry faulty was_disabled info t f).
Proof.
  intros Hfs Hdb. unfold refresh_entry, move_to_disabled, mkdir, unlink, rename, copy2.
  repeat first [apply guard_preserves; done | preserves_step; try done].
Qed.

Lemma redownload_preserves R `{!PreOrder R} total_mods completed was_disabled u info :
  loop_blind R →
  preserves R (redownload faulty remote total_mods completed was_disabled u info).
Proof.
  intros (Hb & Hdb & Htick). pose proof Hb as (Hfs & Hnet & Hbar).
  unfold redownload.
  repeat first
    [ apply loader_download_mod_preserves; side
    | apply extract_mod_preserves; side
    | apply refresh_entry_preserves; side
    | apply preserves_now; done
    | preserves_step; try done ].
Qed.

Lemma update_one_preserves R `{!PreOrder R} total_mods dm st m :
  loop_blind R → preserves R (update_one faulty remote total_mods dm st m).
Proof.
  intros Hl. pose proof Hl as ((Hfs & Hnet & Hbar) & Hdb & Htick).
  unfold update_one. destruct st as [completed failed], m as [mod_id info].
  repeat first
    [ apply remove_old_preserves; side
    | apply redownload_preserves; side
    | preserves_step; try done ].
Qed.

(** A failed redownload has not touched the records. *)
Lemma redownload_exc_keeps_db total_mods completed was_disabled u info w e w' :
  redownload faulty remote total_mods completed was_disabled u info w = (Exc e, w') →
  mod_db w' = mod_db w.
Proof.
  unfold redownload. intros H.
  pose proof (loader_download_mod_preserves faulty remote (keeps mod_db) u
                (installed_path info)
                (make_progress_callback total_mods completed false)) as Hdl.
  specialize (Hdl ltac:(by repeat split) (λ p w0, eq_refl) w).
  destruct (loader_download_mod _ _ _ _ _ w) as [[zp|e1] w1] eqn:E1; simpl in Hdl.
  - rewrite (bind_val _ _ _ _ _ E1) in H.
    pose proof (extract_mod_preserves faulty (keeps mod_db) zp true
                  (Some (make_progress_callback total_mods completed true))) as Hex.
    specialize (Hex ltac:(by repeat split)
                    (λ f Hf p w0, ltac:(by injection Hf as <-)) w1).
    destruct (extract_mod_total zp true
                (Some (make_progress_callback total_mods completed true)) w1)
      as (files & w2 & E2).
    rewrite E2 in Hex. simpl in Hex. rewrite (bind_val _ _ _ _ _ E2) in H.
    destruct files as [|f files].
    + injection H as <- <-. unfold keeps in *. congruence.
    + exfalso.
      assert (total (let* t := now in
                     for_each (f :: files) (refresh_entry faulty was_disabled info t)))
        as Htot.
      { apply total_bind; [apply total_now|intros t].
        apply total_for_each. intros x. apply refresh_entry_total. }
      destruct (Htot w2) as (a & w3 & E3). rewrite E3 in H. done.
  - rewrite (bind_exc _ _ _ _ _ E1) in H. injection H as <- <-. exact Hdl.
Qed.

(** What one turn of the loop answers *)
Lemma update_one_outcome total_mods dm completed failed mod_id info w :
  ∃ c' f' w',
    update_one faulty remote total_mods dm (completed, failed) (mod_id, info) w
      = (Val (c', f'), w') ∧
    ((c' = S completed ∧ f' = failed) ∨
     (c' = completed ∧ mod_db w' = mod_db w ∧
      ∃ cause, f' = (failed ++ [(mod_id, cause)])%list)).
Proof.
  unfold update_one.
  destruct (String.eqb (default "" (url info)) "") eqn:Hurl.
  - unfold try_except, bind, ret. simpl. eexists _, _, _. split; [reflexivity|].
    right. eauto.
  - destruct (remove_old_total dm mod_id info w) as ([] & w1 & E1).
    pose proof (remove_old_preserves (keeps mod_db) dm mod_id info
                  (λ _ _, eq_refl) w) as Hk1.
    rewrite E1 in Hk1. simpl in Hk1.
    destruct (redownload faulty remote total_mods completed
                (bool_decide (is_Some (dict_get mod_id dm)))
                (default "" (url info)) info w1) as [[[]|e] w2] eqn:E2.
    + erewrite bind_val.
      2:{ apply try_val. rewrite (bind_val _ _ _ _ _ E1).
          apply try_val. rewrite (bind_val _ _ _ _ _ E2). reflexivity. }
      simpl. unfold setValue, modify, bind, ret. eexists _, _, _.
      split; [reflexivity|]. by left.
    + erewrite bind_val.
      2:{ apply try_val. rewrite (bind_val _ _ _ _ _ E1).
          erewrite try_exc by (by rewrite (bind_exc _ _ _ _ _ E2)). reflexivity. }
      simpl. eexists _, _, _. split; [reflexivity|]. right.
      split; [done|]. split; [|eauto].
      apply redownload_exc_keeps_db in E2. unfold keeps in *. congruence.
Qed.


Lemma update_one_no_url total_mods dm completed failed mod_id info w :
  default "" (url info) = "" →
  update_one faulty remote total_mods dm (completed, failed) (mod_id, info) w
  = (Val (completed, (failed ++ [(mod_id, "No URL found")])%list), w).
Proof. intros Hurl. unfold update_one. by rewrite Hurl. Qed.

Lemma update_loop_outcome total_mods dm (mods : dict ModInfo) completed
    (failed : list (string * string)) w :
  ∃ c' (g : list (string * string)) w',
    fold_each mods (update_one faulty remote total_mods dm) (completed, failed) w
      = (Val (c', (failed ++ g)%list), w') ∧
    (c' + length g = completed + length mods)%nat ∧
    g.*1 `sublist_of` mods.*1 ∧
    (∀ mod_id info, (mod_id, info) ∈ mods → default "" (url info) = "" →
       (mod_id, "No URL found") ∈ g).
Proof.
  revert completed failed w.
  induction mods as [|[mod_id info] mods IH]; intros completed failed w; simpl.
  - exists completed, [], w. rewrite app_nil_r. split; [done|]. split; [done|].
    split; [done|]. intros ? ? H. by apply not_elem_of_nil in H.
  - destruct (update_one_outcome total_mods dm completed failed mod_id info w)
      as (c1 & f1 & w1 & E1 & Hcase).
    rewrite (bind_val _ _ _ _ _ E1).
    destruct (IH c1 f1 w1) as (c' & g & w' & E2 & Hsum & Hsub & Hurl).
    destruct Hcase as [[-> ->]|(-> & _ & cause & ->)].
    + exists c', g, w'. split; [done|]. split; [simpl; lia|].
      split; [by apply sublist_cons|].
      intros id i Hin Hno. apply elem_of_cons in Hin as [[= -> ->]|Hin]; [|eauto].
      rewrite (update_one_no_url _ _ _ _ _ _ _ Hno) in E1.
      injection E1 as Hc Hf. lia.
    + exists c', ((mod_id, cause) :: g), w'. rewrite E2, <- app_assoc.
      split; [done|]. split; [simpl; lia|]. split; [by apply sublist_skip|].
      intros id i Hin Hno. apply elem_of_cons in Hin as [[= -> ->]|Hin].
      * rewrite (update_one_no_url _ _ _ _ _ _ _ Hno) in E1.
        injection E1 as Hf. apply app_inv_head in Hf. injection Hf as <-. left.
      * right. eauto.
Qed.

Lemma save_mod_db_effect (w : World) :
  ∃ w', save_mod_db faulty w = (Val tt, w') ∧
    db_saves w' = S (db_saves w) ∧ mod_db w' = mod_db w ∧
    (faulty (OpCopy db_file db_backup) = false →
     faulty (OpWrite db_file) = false → db_disk w' = Some (mod_db w)).
Proof.
  unfold save_mod_db. munfold. simpl.
  destruct (db_disk w); simpl;
    repeat (match goal with |- context [faulty ?op] =>
              destruct (faulty op) eqn:?; simpl end);
    (eexists; split; [reflexivity|]); simpl; intuition congruence.
Qed.

Lemma refresh_mod_tree_total : total refresh_mod_tree.
Proof.
  unfold refresh_mod_tree. apply total_bind; [apply total_gets|intros mods].
  apply total_bind; [apply total_when, total_modify|intros _].
  apply total_for_each. intros i. apply total_when, total_modify.
Qed.



End BulkUpdate.


(** The same batch, evaluated: one record is refreshed, two failures are
    reported with their causes, and the database is saved once. *)
Example bulk_update_partial_failure :
  dialogs c9_after =
    [Warning "Update Incomplete"
       (error_msg [("two.pak", "mod.io unreachable"); ("three.pak", "No URL found")])] ∧
  updated_date <$> dict_get "one.pak" (mod_db c9_after) = Some 5 ∧
  updated_date <$> dict_get "two.pak" (mod_db c9_after) = Some 1 ∧
  db_saves c9_after = 1 ∧
  db_disk c9_after = Some (mod_db c9_after) ∧
  net c9_after = [c9_url2; c9_url1].
Proof. vm_compute. repeat split. Qed.

(** * Registration of the refreshed files *)

Lemma elem_of_cons_ne {A} (x y : A) (l : list A) : x ≠ y → x ∈ y :: l ↔ x ∈ l.
Proof. intros Hne. rewrite elem_of_cons. tauto. Qed.

Section Refresh.
Variable faulty : fsop → bool.
Variable remote : string → reply.

Lemma refresh_entry_enabled_run (info : ModInfo) (t : nat) (g : string) (w : World) :
  refresh_entry faulty false info t g w =
    (Val tt, if is_file (installed_path info, g) w
             then with_mod_db (dict_set g (refreshed info g t true)) w else w).
Proof.
  unfold refresh_entry. munfold. simpl.
  by destruct (is_file (installed_path info, g) w).
Qed.

Lemma refresh_enabled_loop (info : ModInfo) (t : nat) (files : list string) (w : World) :
  ∃ w', for_each files (refresh_entry faulty false info t) w = (Val tt, w') ∧
    fs w' = fs w ∧
    ∀ f, if bool_decide (f ∈ files) && is_file (installed_path info, f) w
         then dict_get f (mod_db w') = Some (refreshed info f t true)
         else dict_get f (mod_db w') = dict_get f (mod_db w).
Proof.
  revert w. induction files as [|g files IH]; intros w.
  - exists w. split; [done|]. split; [done|]. intros f. done.
  - simpl. rewrite (bind_val _ _ _ _ _ (refresh_entry_enabled_run info t g w)).
    destruct (is_file (installed_path info, g) w) eqn:Hg; simpl.
    + set (w1 := with_mod_db (dict_set g (refreshed info g t true)) w).
      destruct (IH w1) as (w' & E & Hfs & Hdb). exists w'.
      split; [done|]. split; [by rewrite Hfs|]. intros f. specialize (Hdb f).
      replace (is_file (installed_path info, f) w1)
        with (is_file (installed_path info, f) w) in Hdb by done.
      destruct (decide (f = g)) as [->|Hne].
      * rewrite bool_decide_eq_true_2 by left. rewrite Hg. simpl.
        rewrite Hg in Hdb. rewrite andb_true_r in Hdb.
        case_bool_decide; [done|]. rewrite Hdb. apply dict_get_set_eq.
      * rewrite (bool_decide_ext _ _ (elem_of_cons_ne f g files Hne)).
        destruct (_ && _); [done|]. rewrite Hdb. by apply dict_get_set_ne.
    + destruct (IH w) as (w' & E & Hfs & Hdb). exists w'.
      split; [done|]. split; [done|]. intros f. specialize (Hdb f).
      destruct (decide (f = g)) as [->|Hne].
      * rewrite Hg, andb_false_r in *. done.
      * by rewrite (bool_decide_ext _ _ (elem_of_cons_ne f g files Hne)).
Qed.

(** What a successful move into the disabled folder does *)
Lemma move_to_disabled_run (profile_dir local : string) (w : World) (c : content) :
  fs w !! (profile_dir, local) = Some c →
  faulty (OpMkdir (disabled_dir profile_dir)) = false →
  faulty (OpUnlink (disabled_dir profile_dir, local)) = false →
  faulty (OpRename (profile_dir, local) (disabled_dir profile_dir, local)) = false →
  move_to_disabled faulty profile_dir local w =
    (Val tt, with_fs (λ m, <[(disabled_dir profile_dir, local) := c]>
                             (delete (profile_dir, local)
                                (delete (disabled_dir profile_dir, local) m))) w).
Proof.
  intros Hc Hmk Hun Hrn.
  assert ((disabled_dir profile_dir, local) ≠ (profile_dir, local)) as Hne.
  { intros [= H]. by apply disabled_dir_neq in H. }
  unfold move_to_disabled, mkdir, unlink, rename, is_file. munfold. simpl.
  rewrite Hmk. simpl.
  destruct (fs w !! (disabled_dir profile_dir, local)) eqn:Hd; simpl.
  - rewrite Hun. simpl. rewrite Hd. simpl. rewrite Hrn. simpl.
    rewrite lookup_delete_ne by done. rewrite Hc. done.
  - rewrite Hrn. simpl. rewrite Hc. simpl.
    unfold with_fs. simpl. by rewrite (delete_id (fs w) (disabled_dir _, _)).
Qed.

Lemma refresh_entry_disabled_run (info : ModInfo) (t : nat) (g : string) (w : World) :
  faulty (OpMkdir (disabled_dir (installed_path info))) = false →
  faulty (OpUnlink (disabled_dir (installed_path info), g)) = false →
  faulty (OpRename (installed_path info, g)
                   (disabled_dir (installed_path info), g)) = false →
  refresh_entry faulty true info t g w =
    (Val tt,
     match fs w !! (installed_path info, g) with
     | Some c =>
         with_fs (λ m, <[(disabled_dir (installed_path info), g) := c]>
                         (delete (installed_path info, g)
                            (delete (disabled_dir (installed_path info), g) m)))
           (with_mod_db (dict_set g (refreshed info g t false)) w)
     | None => w
     end).
Proof.
  intros Hmk Hun Hrn. unfold refresh_entry.
  rewrite (bind_val _ _ w (is_file (installed_path info, g) w) w) by done.
  unfold is_file. destruct (fs w !! (installed_path info, g)) as [c|] eqn:Hc; [|done].
  simpl.
  rewrite (bind_val _ _ w tt (with_mod_db (dict_set g (refreshed info g t false)) w))
    by done.
  by apply move_to_disabled_run.
Qed.

Lemma refresh_disabled_loop (info : ModInfo) (t : nat) (files : list string) (w : World) :
  faulty (OpMkdir (disabled_dir (installed_path info))) = false →
  (∀ f, f ∈ files →
     faulty (OpUnlink (disabled_dir (installed_path info), f)) = false ∧
     faulty (OpRename (installed_path info, f)
                      (disabled_dir (installed_path info), f)) = false) →
  ∃ w', for_each files (refresh_entry faulty true info t) w = (Val tt, w') ∧
    ∀ f, if bool_decide (f ∈ files) && is_file (installed_path info, f) w
         then dict_get f (mod_db w') = Some (refreshed info f t false) ∧
              fs w' !! (disabled_dir (installed_path info), f)
                = fs w !! (installed_path info, f) ∧
              fs w' !! (installed_path info, f) = None
         else dict_get f (mod_db w') = dict_get f (mod_db w) ∧
              fs w' !! (disabled_dir (installed_path info), f)
                = fs w !! (disabled_dir (installed_path info), f) ∧
              fs w' !! (installed_path info, f) = fs w !! (installed_path info, f).
Proof.
  intros Hmk. revert w. induction files as [|g files IH]; intros w Hok.
  - exists w. split; [done|]. intros f. done.
  - assert (∀ f, f ∈ files →
              faulty (OpUnlink (disabled_dir (installed_path info), f)) = false ∧
              faulty (OpRename (installed_path info, f)
                        (disabled_dir (installed_path info), f)) = false) as Hok'.
    { intros f Hf. apply Hok. by right. }
    destruct (Hok g ltac:(left)) as [Hun Hrn].
    simpl.
    rewrite (bind_val _ _ _ _ _ (refresh_entry_disabled_run info t g w Hmk Hun Hrn)).
    destruct (is_file (installed_path info, g) w) eqn:Hg; simpl.
    + unfold is_file in Hg.
      destruct (fs w !! (installed_path info, g)) as [c|] eqn:Hc; [|done].
      set (w1 := with_mod_db (dict_set g (refreshed info g t false)) w).
      match goal with |- context [for_each files _ ?w0] => set (w2 := w0) end.
      destruct (IH w2 Hok') as (w' & E & Hpost). exists w'. split; [done|].
      intros f. specialize (Hpost f).
      assert ((disabled_dir (installed_path info), g) ≠ (installed_path info, g))
        as Hne by (intros [= H]; by apply disabled_dir_neq in H).
      destruct (decide (f = g)) as [->|Hfg].
      * rewrite bool_decide_eq_true_2 by left. unfold is_file at 1. rewrite Hc. simpl.
        assert (is_file (installed_path info, g) w2 = false) as Hgone.
        { unfold is_file, w2. simpl. by rewrite lookup_insert_ne, lookup_delete_eq. }
        rewrite Hgone, andb_false_r in Hpost. destruct Hpost as (H1 & H2 & H3).
        rewrite H1, H2, H3. unfold w2, w1. simpl.
        rewrite dict_get_set_eq, lookup_insert_eq, lookup_insert_ne, lookup_delete_eq
          by done. done.
      * rewrite (bool_decide_ext _ _ (elem_of_cons_ne f g files Hfg)).
        assert (∀ d, fs w2 !! (d, f) = fs w !! (d, f)) as Hsame.
        { intros d. unfold w2, w1. simpl.
          rewrite lookup_insert_ne, !lookup_delete_ne by congruence. done. }
        assert (is_file (installed_path info, f) w2 = is_file (installed_path info, f) w)
          as Hfile by (unfold is_file; by rewrite Hsame).
        assert (dict_get f (mod_db w2) = dict_get f (mod_db w)) as Hdb.
        { unfold w2, w1. simpl. by apply dict_get_set_ne. }
        rewrite Hfile, !Hsame, Hdb in Hpost. done.
    + unfold is_file in Hg.
      destruct (fs w !! (installed_path info, g)) as [c|] eqn:Hc; [done|].
      destruct (IH w Hok') as (w' & E & Hpost). exists w'. split; [done|].
      intros f. specialize (Hpost f).
      destruct (decide (f = g)) as [->|Hfg].
      * unfold is_file in *. rewrite Hc, andb_false_r in *. done.
      * by rewrite (bool_decide_ext _ _ (elem_of_cons_ne f g files Hfg)).
Qed.



End Refresh.


(** The batch of an enabled record and a disabled one, evaluated: the
    refreshed file of the first is active, that of the second is in the
    disabled directory, the flags are the old ones and both timestamps
    are new. *)
Example bulk_update_enabled_and_disabled :
  fs c8_after !! ("/mods", "a.pak") = Some (Blob "new a") ∧
  fs c8_after !! ("/mods/.disabledmods", "b.pak") = Some (Blob "new b") ∧
  fs c8_after !! ("/mods", "b.pak") = None ∧
  dict_get "a.pak" (mod_db c8_after) = Some (refreshed c8_a "a.pak" 7 true) ∧
  dict_get "b.pak" (mod_db c8_after) = Some (refreshed c8_b "b.pak" 8 false).
Proof. vm_compute. repeat split. Qed.

(** * Progress accounting *)

Lemma py_int_nonneg (q : Q) : (0 <= q)%Q → py_int q = Qfloor q.
Proof.
  intros H. unfold py_int. destruct (Qle_bool 0 q) eqn:E; [done|].
  apply Qle_bool_iff in H. congruence.
Qed.

Lemma Qfloor_div (a b : Z) : Qfloor (inject_Z a / inject_Z b) = (a / b)%Z.
Proof. symmetry. apply Zdiv_Qdiv. Qed.

Lemma Qfloor_min_100 (q : Q) : Qfloor (Qmin q 100) = Z.min (Qfloor q) 100.
Proof.
  destruct (Qlt_le_dec 100 q) as [H|H].
  - rewrite (Qfloor_comp _ _ (Q.min_r q 100 (Qlt_le_weak _ _ H))).
    change (Qfloor 100) with 100%Z.
    assert (100 ≤ Qfloor q)%Z; [|lia].
    change 100%Z with (Qfloor 100). apply Qfloor_resp_le. by apply Qlt_le_weak.
  - rewrite (Qfloor_comp _ _ (Q.min_l q 100 H)).
    assert (Qfloor q ≤ 100)%Z; [|lia].
    change 100%Z with (Qfloor 100). by apply Qfloor_resp_le.
Qed.

Lemma progress_value_closed (n c : nat) (sp : bool) (p : Z) :
  (0 < n)%nat → (0 ≤ p)%Z →
  progress_value n c sp p =
    Z.min ((200 * Z.of_nat c + p + (if sp then 100 else 0)) / (2 * Z.of_nat n)) 100.
Proof.
  intros Hn Hp. unfold progress_value, progress_per_mod.
  assert (¬ (inject_Z (Z.of_nat n) == 0)%Q) as Hn0.
  { intros H. apply (inject_Z_injective (Z.of_nat n) 0) in H. lia. }
  set (x := inject_Z (Z.of_nat n)) in *.
  assert (∀ q : Q, (q == inject_Z (200 * Z.of_nat c + p + (if sp then 100 else 0))
                         / inject_Z (2 * Z.of_nat n))%Q →
            py_int (Qmin q 100) =
            Z.min ((200 * Z.of_nat c + p + (if sp then 100 else 0)) / (2 * Z.of_nat n)) 100)
    as Hmain.
  { intros q Hq.
    assert (0 <= q)%Q as Hq0.
    { rewrite Hq. apply Qle_shift_div_l.
      - change 0%Q with (inject_Z 0). rewrite <- Zlt_Qlt. lia.
      - rewrite Qmult_0_l. change 0%Q with (inject_Z 0). rewrite <- Zle_Qle.
        destruct sp; lia. }
    rewrite py_int_nonneg by (apply Q.min_glb; [done|by compute]).
    rewrite Qfloor_min_100. by rewrite (Qfloor_comp _ _ Hq), Qfloor_div. }
  destruct sp; apply Hmain; rewrite !inject_Z_plus, !inject_Z_mult; fold x;
    change (inject_Z 200) with 200%Q; change (inject_Z 100) with 100%Q;
    change (inject_Z 2) with 2%Q; change (inject_Z 0) with 0%Q; field; done.
Qed.

Lemma base_closed (n c : nat) : (0 < n)%nat → base n c = (100 * Z.of_nat c / Z.of_nat n)%Z.
Proof.
  intros Hn. unfold base, progress_per_mod.
  assert (¬ (inject_Z (Z.of_nat n) == 0)%Q) as Hn0.
  { intros H. apply (inject_Z_injective (Z.of_nat n) 0) in H. lia. }
  assert ((inject_Z (Z.of_nat c) * (100 / inject_Z (Z.of_nat n))
           == inject_Z (100 * Z.of_nat c) / inject_Z (Z.of_nat n))%Q) as Hq.
  { rewrite inject_Z_mult. change (inject_Z 100) with 100%Q. field. done. }
  rewrite py_int_nonneg.
  - by rewrite (Qfloor_comp _ _ Hq), Qfloor_div.
  - rewrite Hq. apply Qle_shift_div_l.
    + change 0%Q with (inject_Z 0). rewrite <- Zlt_Qlt. lia.
    + rewrite Qmult_0_l. change 0%Q with (inject_Z 0). rewrite <- Zle_Qle. lia.
Qed.

Lemma ramp_app (a b c : Z) (l1 l2 : list Z) :
  ramp a l1 b → ramp b l2 c → ramp a (l1 ++ l2) c.
Proof.
  revert a. induction l1 as [|v l1 IH]; intros a; simpl.
  - intros Hab. destruct l2 as [|v l2]; simpl; [lia|]. intros [? ?]. split; [lia|done].
  - intros [? ?] ?. split; [done|]. by apply IH.
Qed.

Lemma ramp_weaken (lo lo' hi hi' : Z) (l : list Z) :
  (lo' ≤ lo)%Z → (hi ≤ hi')%Z → ramp lo l hi → ramp lo' l hi'.
Proof.
  intros Hlo Hhi. revert lo lo' Hlo. induction l as [|v l IH]; intros lo lo' Hlo; simpl.
  - lia.
  - intros [? ?]. split; [lia|]. by apply (IH v v).
Qed.

Lemma ramp_bounds (lo hi : Z) (l : list Z) :
  ramp lo l hi → (lo ≤ hi)%Z ∧ Forall (λ v, lo ≤ v ≤ hi)%Z l.
Proof.
  revert lo. induction l as [|v l IH]; intros lo; simpl; [by split|].
  intros [Hv Hr]. destruct (IH v Hr) as [Hvh Hall]. split; [lia|].
  constructor; [lia|]. eapply Forall_impl; [exact Hall|]. simpl. intros; lia.
Qed.

Lemma ramp_sorted (lo hi : Z) (l : list Z) : ramp lo l hi → Sorted Z.le l.
Proof.
  revert lo. induction l as [|v l IH]; intros lo; simpl; [constructor|].
  intros [Hv Hr]. constructor; [by eapply IH|].
  destruct l as [|v' l]; constructor. simpl in Hr. tauto.
Qed.

Lemma emits_nil (w w' : World) : bar w' = bar w → emits w w' [].
Proof. unfold emits. by intros ->. Qed.

Lemma emits_app (w w1 w2 : World) (l1 l2 : list Z) :
  emits w w1 l1 → emits w1 w2 l2 → emits w w2 (l1 ++ l2).
Proof. unfold emits. intros H1 ->. by rewrite H1, rev_app_distr, app_assoc. Qed.

Lemma div_le_mono_nonneg (a b t : Z) : (0 ≤ t)%Z → (a ≤ b)%Z → (a / t ≤ b / t)%Z.
Proof.
  intros Ht Hab. destruct (decide (t = 0%Z)) as [->|Hne].
  - by rewrite !Z.div_0_r.
  - apply Z.div_le_mono; lia.
Qed.

Lemma chunk_sizes_spec (n : Z) :
  (0 ≤ n)%Z →
  Forall (λ c, 0 ≤ c)%Z (chunk_sizes n) ∧ foldr Z.add 0%Z (chunk_sizes n) = n.
Proof.
  intros Hn. unfold chunk_sizes.
  assert (0 < CHUNK_SIZE)%Z as Hc by done.
  assert (foldr Z.add 0%Z (repeat CHUNK_SIZE (Z.to_nat (n / CHUNK_SIZE)))
          = (CHUNK_SIZE * (n / CHUNK_SIZE))%Z) as Hrep.
  { assert (0 ≤ n / CHUNK_SIZE)%Z as Hq by (apply Z.div_pos; lia).
    rewrite <- (Z2Nat.id (n / CHUNK_SIZE)) at 2 by done.
    generalize (Z.to_nat (n / CHUNK_SIZE)). intros k.
    induction k as [|k IH]; simpl; [lia|]. rewrite IH. lia. }
  pose proof (Z.mod_pos_bound n CHUNK_SIZE Hc) as Hmod.
  pose proof (Z.div_mod n CHUNK_SIZE ltac:(lia)) as Hdm.
  split.
  - apply Forall_app. split.
    + apply Forall_forall. intros x Hx%list_elem_of_In%repeat_spec. lia.
    + destruct (n mod CHUNK_SIZE =? 0)%Z; [constructor|].
      constructor; [lia|constructor].
  - rewrite foldr_app. destruct (n mod CHUNK_SIZE =? 0)%Z eqn:E; simpl.
    + rewrite Hrep. apply Z.eqb_eq in E. lia.
    + assert (∀ (l : list Z) (a : Z), foldr Z.add a l = (foldr Z.add 0 l + a)%Z) as Hf.
      { intros l a. induction l as [|y l IH]; simpl; lia. }
      rewrite Hf, Hrep. lia.
Qed.

Lemma zero_percent (t : Z) : (0 * 100 / t = 0)%Z.
Proof. by destruct t. Qed.

Lemma foldr_add_nonneg (l : list Z) : Forall (λ c, 0 ≤ c)%Z l → (0 ≤ foldr Z.add 0 l)%Z.
Proof. induction 1; simpl; lia. Qed.

Lemma emits_cons (w w' : World) (v : Z) (l : list Z) :
  emits (push_bar v w) w' l → emits w w' (v :: l).
Proof. unfold emits. simpl. intros ->. by rewrite <- app_assoc. Qed.

Section Progress.
Variable faulty : fsop → bool.
Variable remote : string → reply.
Variable g : Z → Z.
Hypothesis g_mono : ∀ p q, (0 ≤ p)%Z → (p ≤ q)%Z → (g p ≤ g q)%Z.

Lemma receive_trace (file_size : Z) (chunks : list Z) (d0 d : Z) (w w' : World) :
  (0 < file_size)%Z → Forall (λ c, 0 ≤ c)%Z chunks → (0 ≤ d0)%Z →
  fold_each chunks (receive file_size (λ p, setValue (g p))) d0 w = (Val d, w') →
  ∃ l, emits w w' l ∧
    ramp (g (d0 * 100 / file_size)) l (g (d * 100 / file_size)) ∧
    d = (d0 + foldr Z.add 0 chunks)%Z.
Proof.
  intros Hsize Hall. revert d0 w.
  induction Hall as [|c chunks Hc Hall IH]; intros d0 w Hd0; simpl.
  - intros [= <- <-]. exists []. split; [by apply emits_nil|]. simpl. split; lia.
  - intros H. apply bind_inv_val in H as (d1 & w1 & H1 & H2).
    unfold receive in H1. destruct (file_size =? 0)%Z eqn:E; [apply Z.eqb_eq in E; lia|].
    injection H1 as <- <-.
    apply IH in H2 as (l & Hem & Hramp & ->); [|lia].
    exists (g ((d0 + c) * 100 / file_size) :: l).
    split; [by apply emits_cons|]. split; [|lia]. simpl. split; [|done].
    apply g_mono; [apply Z.div_pos; lia|apply div_le_mono_nonneg; lia].
Qed.

Lemma report_chunk_trace (total_size : Z) (sizes : list Z) (p0 p : Z) (w w' : World) :
  (0 ≤ total_size)%Z → Forall (λ c, 0 ≤ c)%Z sizes → (0 ≤ p0)%Z →
  fold_each sizes (report_chunk total_size (Some (λ p, setValue (g p)))) p0 w
    = (Val p, w') →
  ∃ l, emits w w' l ∧
    ramp (g (p0 * 100 / total_size)) l (g (p * 100 / total_size)) ∧
    p = (p0 + foldr Z.add 0 sizes)%Z.
Proof.
  intros Hsize Hall. revert p0 w.
  induction Hall as [|c sizes Hc Hall IH]; intros p0 w Hp0; simpl.
  - intros [= <- <-]. exists []. split; [by apply emits_nil|]. simpl. split; lia.
  - intros H. apply bind_inv_val in H as (p1 & w1 & H1 & H2).
    injection H1 as <- <-.
    apply IH in H2 as (l & Hem & Hramp & ->); [|lia].
    exists (g ((p0 + c) * 100 / total_size) :: l).
    split; [by apply emits_cons|]. split; [|lia]. simpl. split; [|done].
    apply g_mono; [apply Z_div_nonneg_nonneg; lia|apply div_le_mono_nonneg; lia].
Qed.

Lemma size_of_nonneg (data : string) : (0 ≤ size_of data)%Z.
Proof. unfold size_of. lia. Qed.

Lemma members_trace (parent : string) (total_size : Z)
    (members : list (string * string)) (p0 p : Z) (w w' : World) :
  (0 ≤ total_size)%Z → (0 ≤ p0)%Z →
  fold_each members
    (extract_member faulty parent total_size (Some (λ p, setValue (g p)))) p0 w
    = (Val p, w') →
  ∃ l, emits w w' l ∧
    ramp (g (p0 * 100 / total_size)) l (g (p * 100 / total_size)) ∧
    p = (p0 + foldr Z.add 0 (map (λ m, size_of m.2) members))%Z.
Proof.
  intros Hsize. revert p0 w.
  induction members as [|m members IH]; intros p0 w Hp0; simpl.
  - intros [= <- <-]. exists []. split; [by apply emits_nil|]. simpl. split; lia.
  - intros H. apply bind_inv_val in H as (p1 & w1 & H1 & H2).
    unfold extract_member in H1.
    apply bind_inv_val in H1 as ([] & wa & Ha & H1).
    apply bind_inv_val in H1 as ([] & wb & Hb & H1).
    assert (bar wb = bar w) as Hbar.
    { unfold mkdir, guard in Ha. destruct (faulty _); [done|]. injection Ha as <-.
      unfold write_file, guard in Hb. apply bind_inv_val in Hb as ([] & wc & Hc & Hb).
      destruct (faulty _); [done|]. injection Hc as <-. by injection Hb as <-. }
    destruct (chunk_sizes_spec _ (size_of_nonneg m.2)) as [Hpos Hsum].
    destruct (report_chunk_trace _ _ _ _ _ _ Hsize Hpos Hp0 H1)
      as (l1 & Hem1 & Hr1 & ->).
    pose proof (foldr_add_nonneg _ Hpos) as Hnn.
    apply IH in H2 as (l2 & Hem2 & Hr2 & ->); [|lia].
    exists (l1 ++ l2)%list. split; [|split].
    + eapply emits_app; [|exact Hem2]. unfold emits in *. by rewrite Hem1, Hbar.
    + by eapply ramp_app.
    + rewrite Hsum. lia.
Qed.

Lemma extract_mod_trace (mod_path : path) (remove_zip : bool)
    (files : list string) (w w' : World) :
  extract_mod faulty mod_path remove_zip (Some (λ p, setValue (g p))) w
    = (Val files, w') →
  files ≠ [] →
  ∃ l, emits w w' l ∧ ramp (g 0) l (g 100).
Proof.
  unfold extract_mod. intros H Hne. unfold try_except at 1 in H.
  match type of H with (let (_, _) := ?m w in _) = _ =>
    destruct (m w) as [[a|e] w1] eqn:E end; [|by injection H as <-].
  injection H as -> ->.
  apply bind_inv_val in E as (there & w0 & [= <- <-] & E).
  destruct (negb (is_file mod_path w)); [done|].
  destruct (negb _); [done|].
  unfold try_except in E.
  match type of E with (let (_, _) := ?m w in _) = _ =>
    destruct (m w) as [[a|e] w2] eqn:E2 end; [|done].
  injection E as -> ->.
  apply bind_inv_val in E2 as (members & w0 & Hopen & E2).
  assert (w0 = w) as ->.
  { unfold open_zip, guard in Hopen.
    apply bind_inv_val in Hopen as ([] & wa & Ha & Hopen).
    destruct (faulty _); [done|]. injection Ha as <-.
    apply bind_inv_val in Hopen as (c & wb & [= <- <-] & Hopen).
    destruct (fs w !! mod_path) as [[?|?]|]; try done. by injection Hopen. }
  destruct (List.filter _ members) as [|m0 valid] eqn:Hvalid.
  { injection E2 as <-. done. }
  remember (m0 :: valid) as valid_files.
  apply bind_inv_val in E2 as (p & w3 & Hfold & E2).
  apply bind_inv_val in E2 as (still & w0 & [= <- <-] & E2).
  apply bind_inv_val in E2 as ([] & w4 & Hrm & [= _ <-]).
  assert (bar w4 = bar w3) as Hbar.
  { destruct (remove_zip && is_file mod_path w3); simpl in Hrm; [|by injection Hrm as <-].
    unfold unlink, guard in Hrm. apply bind_inv_val in Hrm as ([] & wa & Ha & Hrm).
    destruct (faulty _); [done|]. injection Ha as <-.
    apply bind_inv_val in Hrm as (t & wb & [= <- <-] & Hrm).
    destruct (is_file mod_path w3); [by injection Hrm as <-|done]. }
  set (total := foldr Z.add 0%Z (map (λ m : string * string, size_of m.2) valid_files))
    in *.
  assert (0 ≤ total)%Z as Htotal.
  { apply foldr_add_nonneg, Forall_forall. intros x Hx.
    apply list_elem_of_fmap in Hx as (m & -> & _). apply size_of_nonneg. }
  destruct (members_trace _ _ _ _ _ _ _ Htotal (Z.le_refl 0) Hfold)
    as (l & Hem & Hramp & Hp).
  exists l. split; [unfold emits in *; by rewrite Hbar|].
  eapply ramp_weaken; [| |exact Hramp].
  - by rewrite zero_percent.
  - rewrite Hp, Z.add_0_l. fold total.
    destruct (decide (total = 0%Z)) as [->|Hnz]; [by apply g_mono|].
    rewrite (Z.mul_comm total 100), Z.div_mul by done. lia.
Qed.

Lemma loader_download_mod_trace (u dir : string) (zp : path) (w w' : World) :
  well_behaved remote →
  loader_download_mod faulty remote u dir (λ p, setValue (g p)) w = (Val zp, w') →
  ∃ l, emits w w' l ∧ ramp (g 0) l (g 100).
Proof.
  intros Hwb. unfold loader_download_mod.
  destruct (String.eqb _ ""); [done|].
  destruct (remote (Str.strip u)) as [| | |filename file_size chunks body] eqn:Hr;
    try done;
    try (intros H; apply bind_inv_val in H as (? & ? & _ & H); done).
  destruct (Hwb _ _ _ _ _ Hr) as (Hsize & Hpos & Hsum).
  intros H. apply bind_inv_val in H as ([] & w1 & [= <-] & H).
  apply bind_inv_val in H as ([] & w2 & Hmk & H).
  apply bind_inv_val in H as ([] & w3 & Hwr & H).
  apply bind_inv_val in H as (d & w4 & Hfold & H).
  assert (bar w3 = bar w) as Hbar.
  { unfold mkdir, guard in Hmk. destruct (faulty _); [done|]. injection Hmk as <-.
    unfold write_file, guard in Hwr. apply bind_inv_val in Hwr as ([] & wc & Hc & Hwr).
    destruct (faulty _); [done|]. injection Hc as <-. by injection Hwr as <-. }
  assert (bar w' = bar w4) as Hbar'.
  { destruct body; [|done]. apply bind_inv_val in H as ([] & w5 & [= <-] & [= _ <-]).
    done. }
  destruct (receive_trace _ _ _ _ _ _ Hsize Hpos (Z.le_refl 0) Hfold)
    as (l & Hem & Hramp & Hd).
  exists l. split; [unfold emits in *; by rewrite Hbar', Hem, Hbar|].
  eapply ramp_weaken; [| |exact Hramp].
  - by rewrite zero_percent.
  - rewrite Hd, Z.add_0_l. pose proof (foldr_add_nonneg _ Hpos) as Hnn.
    apply g_mono; [apply Z.div_pos; lia|apply Z.div_le_upper_bound; lia].
Qed.

End Progress.

Lemma progress_value_mono (n c : nat) (sp : bool) (p q : Z) :
  (0 < n)%nat → (0 ≤ p)%Z → (p ≤ q)%Z →
  (progress_value n c sp p ≤ progress_value n c sp q)%Z.
Proof.
  intros Hn Hp Hpq. rewrite !progress_value_closed by lia.
  apply Z.min_le_compat_r, Z.div_le_mono; lia.
Qed.

(** The share of a record: from [base n c] to [base n (S c)], the
    download in its first half and the extraction in its second half *)
Lemma progress_share (n c : nat) (p : Z) :
  (c < n)%nat → (0 ≤ p ≤ 100)%Z →
  base n c = (100 * Z.of_nat c / Z.of_nat n)%Z ∧
  base n (S c) = (100 * Z.of_nat (S c) / Z.of_nat n)%Z ∧
  (base n c ≤ progress_value n c false p)%Z ∧
  (progress_value n c false p ≤ progress_value n c false 100)%Z ∧
  progress_value n c false 100 = progress_value n c true 0 ∧
  (progress_value n c true 0 ≤ progress_value n c true p)%Z ∧
  (progress_value n c true p ≤ base n (S c))%Z.
Proof.
  intros Hc Hp. rewrite !base_closed, !progress_value_closed by lia.
  assert (100 * Z.of_nat (S c) / Z.of_nat n ≤ 100)%Z as Hfull.
  { apply Z.div_le_upper_bound; lia. }
  assert (100 * Z.of_nat c / Z.of_nat n ≤ 100)%Z as Hpart.
  { apply Z.div_le_upper_bound; lia. }
  assert (∀ a, (2 * a) / (2 * Z.of_nat n) = a / Z.of_nat n)%Z as Hhalf.
  { intros a. apply Z.div_mul_cancel_l; lia. }
  pose proof (Hhalf (100 * Z.of_nat c)%Z) as H1.
  pose proof (Hhalf (100 * Z.of_nat (S c))%Z) as H2.
  assert (2 * (100 * Z.of_nat c) / (2 * Z.of_nat n)
          ≤ (200 * Z.of_nat c + p + 0) / (2 * Z.of_nat n))%Z as H3.
  { apply Z.div_le_mono; lia. }
  assert ((200 * Z.of_nat c + p + 100) / (2 * Z.of_nat n)
          ≤ 2 * (100 * Z.of_nat (S c)) / (2 * Z.of_nat n))%Z as H4.
  { apply Z.div_le_mono; lia. }
  assert ((200 * Z.of_nat c + p + 0) / (2 * Z.of_nat n)
          ≤ (200 * Z.of_nat c + 100 + 0) / (2 * Z.of_nat n))%Z as H5.
  { apply Z.div_le_mono; lia. }
  assert ((200 * Z.of_nat c + 0 + 100) / (2 * Z.of_nat n)
          ≤ (200 * Z.of_nat c + p + 100) / (2 * Z.of_nat n))%Z as H6.
  { apply Z.div_le_mono; lia. }
  replace (200 * Z.of_nat c + 100 + 0)%Z with (200 * Z.of_nat c + 0 + 100)%Z in * by lia.
  repeat split; lia.
Qed.

Section ProgressLoop.
Variable faulty : fsop → bool.
Variable remote : string → reply.
Hypothesis remote_ok : well_behaved remote.

Lemma update_one_success_trace (n : nat) (dm : dict string) (c : nat)
    (f : list (string * string)) (mod_id : string) (info : ModInfo) (w w' : World) :
  (c < n)%nat →
  update_one faulty remote n dm (c, f) (mod_id, info) w = (Val (S c, f), w') →
  ∃ l, emits w w' l ∧ ramp (base n c) l (base n (S c)).
Proof.
  intros Hc. unfold update_one.
  destruct (String.eqb (default "" (url info)) "") eqn:Hurl.
  { unfold try_except, bind, ret. simpl. intros [= ? _]. lia. }
  destruct (remove_old_total faulty dm mod_id info w) as ([] & w1 & E1).
  pose proof (remove_old_preserves faulty (keeps bar) dm mod_id info
                (λ _ _, eq_refl) w) as Hk1.
  rewrite E1 in Hk1. simpl in Hk1.
  destruct (redownload faulty remote n c (bool_decide (is_Some (dict_get mod_id dm)))
              (default "" (url info)) info w1) as [[[]|e] w2] eqn:E2.
  2:{ erewrite bind_val.
      2:{ apply try_val. rewrite (bind_val _ _ _ _ _ E1).
          erewrite try_exc by (by rewrite (bind_exc _ _ _ _ _ E2)). reflexivity. }
      simpl. intros [= ? _]. lia. }
  erewrite bind_val.
  2:{ apply try_val. rewrite (bind_val _ _ _ _ _ E1).
      apply try_val. rewrite (bind_val _ _ _ _ _ E2). reflexivity. }
  simpl. unfold setValue, modify, bind, ret. intros [= <-].
  unfold redownload in E2.
  apply bind_inv_val in E2 as (zp & wa & Hdl & E2).
  apply bind_inv_val in E2 as (files & wb & Hex & E2).
  destruct files as [|f0 files]; [done|].
  apply (loader_download_mod_trace faulty remote (progress_value n c false)) in Hdl
    as (l1 & Hem1 & Hr1); [| |done].
  2:{ intros p q Hp Hpq. apply progress_value_mono; lia. }
  apply (extract_mod_trace faulty (progress_value n c true)) in Hex
    as (l2 & Hem2 & Hr2); [| |done].
  2:{ intros p q Hp Hpq. apply progress_value_mono; lia. }
  assert (bar w2 = bar wb) as Hk2.
  { assert (preserves (keeps bar)
              (let* t := now in
               for_each (f0 :: files)
                 (refresh_entry faulty (bool_decide (is_Some (dict_get mod_id dm)))
                    info t))) as Hp.
    { apply preserves_bind; [apply _|by apply preserves_now|intros t].
      apply preserves_for_each; [apply _|intros x].
      apply refresh_entry_preserves; first [apply _|done]. }
    specialize (Hp wb). by rewrite E2 in Hp. }
  destruct (progress_share n c 100 Hc ltac:(lia)) as (_ & _ & Ha & _ & Hb & _ & Hd).
  destruct (progress_share n c 0 Hc ltac:(lia)) as (_ & _ & Ha0 & _).
  exists (l1 ++ l2 ++ [base n (S c)])%list. split.
  - unfold emits in *. simpl. rewrite Hk2, Hem2, Hem1, Hk1.
    rewrite !rev_app_distr. simpl. by rewrite <- !app_assoc.
  - eapply ramp_app; [eapply ramp_weaken; [exact Ha0|reflexivity|exact Hr1]|].
    eapply ramp_app; [eapply ramp_weaken; [|exact Hd|exact Hr2]; lia|].
    simpl. lia.
Qed.

Lemma update_loop_trace (n : nat) (dm : dict string) (mods : dict ModInfo)
    (c c' : nat) (w w' : World) :
  (c + length mods ≤ n)%nat →
  fold_each mods (update_one faulty remote n dm) (c, []) w = (Val (c', []), w') →
  ∃ l, emits w w' l ∧ ramp (base n c) l (base n c').
Proof.
  revert c w. induction mods as [|[mod_id info] mods IH]; intros c w Hlen; simpl.
  - intros [= <- <-]. exists []. split; [by apply emits_nil|]. simpl. lia.
  - simpl in Hlen. intros H.
    destruct (update_one_outcome faulty remote n dm c [] mod_id info w)
      as (c1 & f1 & w1 & E1 & Hcase).
    rewrite (bind_val _ _ _ _ _ E1) in H.
    destruct (update_loop_outcome faulty remote n dm mods c1 f1 w1)
      as (c2 & g & w2 & E2 & _).
    rewrite E2 in H. injection H as <- Hf <-.
    apply app_eq_nil in Hf as [-> ->].
    destruct Hcase as [[-> _]|(_ & _ & cause & Hbad)]; [|done].
    apply update_one_success_trace in E1 as (l1 & Hem1 & Hr1); [|lia].
    apply IH in E2 as (l2 & Hem2 & Hr2); [|lia].
    exists (l1 ++ l2)%list. split; [by eapply emits_app|by eapply ramp_app].
Qed.


End ProgressLoop.

Lemma c8_remote_well_behaved : well_behaved c8_remote.
Proof.
  intros u filename file_size chunks body. unfold c8_remote.
  destruct (String.eqb u c8_url_a); [|destruct (String.eqb u c8_url_b)];
    [intros [= <- <- <- <-]..|done];
    (split; [lia|split; [|simpl; lia]]);
    repeat (apply Forall_cons; split; [lia|]); apply Forall_nil_2.
Qed.



(** * Further properties of the extractor *)

Section Extraction.
Variable faulty : fsop → bool.

(** X1: [extract_mod] answers the empty list and changes nothing, the
    file included even when its removal was asked for, when the path
    names no file, when its suffix is not [.zip] in any letter case, when
    the file cannot be opened, or when it is not a zip archive. *)
Theorem extract_mod_rejects_non_archive (mod_path : path) (remove_zip : bool)
    (cb : option (Z → M unit)) (w : World) :
  fs w !! mod_path = None ∨
  Str.lower (Pathlib.suffix mod_path.2) ≠ ".zip" ∨
  faulty (OpOpen mod_path) = true ∨
  (∃ d, fs w !! mod_path = Some (Blob d)) →
  extract_mod faulty mod_path remove_zip cb w = (Val [], w).
Proof.
  intros H. unfold extract_mod, open_zip, is_file. munfold. simpl.
  destruct (fs w !! mod_path) as [c|] eqn:E; simpl; [|done].
  destruct (String.eqb _ ".zip") eqn:Es; simpl; [|done].
  destruct (faulty (OpOpen mod_path)) eqn:Ef; simpl; [done|].
  rewrite E. simpl.
  destruct H as [H|[H|[H|[d H]]]]; try done.
  - by apply String.eqb_eq in Es.
  - by injection H as ->.
Qed.

Lemma report_chunk_silent (total_size : Z) (sizes : list Z) (p0 : Z) (w : World) :
  fold_each sizes (report_chunk total_size None) p0 w
  = (Val (p0 + foldr Z.add 0 sizes)%Z, w).
Proof.
  revert p0. induction sizes as [|s sizes IH]; intros p0; simpl.
  - unfold ret. by rewrite Z.add_0_r.
  - unfold report_chunk at 1. munfold. simpl. rewrite IH. f_equal. f_equal. lia.
Qed.

Lemma extract_members_silent (parent : string) (total_size : Z)
    (valid : list (string * string)) (p0 : Z) (w : World) :
  (∀ m, m ∈ valid →
     faulty (OpMkdir (target_of parent m.1).1) = false ∧
     faulty (OpWrite (target_of parent m.1)) = false) →
  ∃ p, fold_each valid (extract_member faulty parent total_size None) p0 w
       = (Val p, with_fs (extract_fs parent valid) w).
Proof.
  revert p0 w. induction valid as [|m valid IH]; intros p0 w Hok; simpl.
  - exists p0. unfold ret. by rewrite with_fs_id.
  - destruct (Hok m) as [Hmk Hwr]; [left|].
    unfold extract_member at 1, mkdir, write_file. munfold. simpl.
    unfold target_of in Hmk, Hwr. simpl in Hmk, Hwr. rewrite Hmk, Hwr. simpl.
    rewrite report_chunk_silent.
    edestruct (IH (p0 + foldr Z.add 0 (chunk_sizes (size_of m.2)))%Z) as [p Hp];
      [intros; apply Hok; by right|].
    exists p. rewrite Hp. done.
Qed.

Lemma extract_fs_keeps (parent : string) (valid : list (string * string))
    (m : gmap path content) (q : path) :
  is_Some (m !! q) → is_Some (extract_fs parent valid m !! q).
Proof.
  revert m. induction valid as [|x valid IH]; intros m H; simpl; [done|].
  apply IH. destruct (decide (target_of parent x.1 = q)) as [->|Hne].
  - rewrite lookup_insert_eq. eauto.
  - by rewrite lookup_insert_ne.
Qed.

Lemma extract_fs_other (parent : string) (valid : list (string * string))
    (m : gmap path content) (q : path) :
  (∀ x, x ∈ valid → target_of parent x.1 ≠ q) →
  extract_fs parent valid m !! q = m !! q.
Proof.
  revert m. induction valid as [|x valid IH]; intros m H; simpl; [done|].
  rewrite IH by (intros; apply H; by right).
  rewrite lookup_insert_ne; [done|]. apply H. left.
Qed.

Lemma extract_fs_written (parent : string) (valid : list (string * string))
    (m : gmap path content) (x : string * string) :
  NoDup (map (λ y : string * string, target_of parent y.1) valid) →
  x ∈ valid →
  extract_fs parent valid m !! target_of parent x.1 = Some (Blob x.2).
Proof.
  revert m. induction valid as [|y valid IH]; intros m Hnd Hx; simpl.
  - by apply elem_of_nil in Hx.
  - simpl in Hnd. apply NoDup_cons in Hnd as [Hy Hnd].
    apply elem_of_cons in Hx as [->|Hx].
    + rewrite extract_fs_other; [by rewrite lookup_insert_eq|].
      intros z Hz Heq. apply Hy. rewrite <- Heq.
      apply list_elem_of_fmap. by exists z.
    + by apply IH.
Qed.


End Extraction.

(** X1, witness *)
Lemma extract_mod_rejects_non_archive_witness :
  extract_mod no_faults ("/mods", "pack.zip") true None x_blob_world
  = (Val [], x_blob_world).
Proof.
  apply (extract_mod_rejects_non_archive no_faults ("/mods", "pack.zip") true None
           x_blob_world).
  right. right. right. exists "not an archive". reflexivity.
Defined.


Section ExtractionProgress.
Variable faulty : fsop → bool.

Lemma extract_mod_inv (mod_path : path) (remove_zip : bool)
    (cb : option (Z → M unit)) (files : list string) (w w' : World) :
  extract_mod faulty mod_path remove_zip cb w = (Val files, w') →
  files ≠ [] →
  ∃ ms p w3,
    fs w !! mod_path = Some (ZipFile ms) ∧
    files = map (λ m : string * string, Pathlib.name_of m.1) (valid_files ms) ∧
    fold_each (valid_files ms)
      (extract_member faulty mod_path.1
         (foldr Z.add 0%Z (map (λ m : string * string, size_of m.2) (valid_files ms)))
         cb) 0%Z w = (Val p, w3) ∧
    (w' = w3 ∨ w' = with_fs (delete mod_path) w3).
Proof.
  unfold extract_mod. intros H Hne. unfold try_except at 1 in H.
  match type of H with (let (_, _) := ?m w in _) = _ =>
    destruct (m w) as [[a|e] w1] eqn:E end; [|by injection H as <-].
  injection H as -> ->.
  apply bind_inv_val in E as (there & w0 & [= <- <-] & E).
  destruct (negb (is_file mod_path w)); [done|].
  destruct (negb _); [done|].
  unfold try_except in E.
  match type of E with (let (_, _) := ?m w in _) = _ =>
    destruct (m w) as [[a|e] w2] eqn:E2 end; [|done].
  injection E as -> ->.
  apply bind_inv_val in E2 as (members & w0 & Hopen & E2).
  assert (w0 = w ∧ fs w !! mod_path = Some (ZipFile members)) as [-> Hzip].
  { unfold open_zip, guard in Hopen.
    apply bind_inv_val in Hopen as ([] & wa & Ha & Hopen).
    destruct (faulty _); [done|]. injection Ha as <-.
    apply bind_inv_val in Hopen as (c & wb & [= <- <-] & Hopen).
    destruct (fs w !! mod_path) as [[?|?]|]; try done. by injection Hopen as <- <-. }
  fold (valid_files members) in E2.
  destruct (valid_files members) as [|m0 valid] eqn:Hvalid.
  { injection E2 as <-. done. }
  rewrite <- Hvalid in *. clear Hvalid.
  apply bind_inv_val in E2 as (p & w3 & Hfold & E2).
  apply bind_inv_val in E2 as (still & w0 & [= <- <-] & E2).
  apply bind_inv_val in E2 as ([] & w4 & Hrm & [= <- <-]).
  exists members, p, w3. split; [done|]. split; [done|]. split; [done|].
  destruct (remove_zip && is_file mod_path w3); simpl in Hrm;
    [|left; by injection Hrm as <-].
  unfold unlink, guard in Hrm. apply bind_inv_val in Hrm as ([] & wa & Ha & Hrm).
  destruct (faulty _); [done|]. injection Ha as <-.
  apply bind_inv_val in Hrm as (t & wb & [= <- <-] & Hrm).
  destruct (is_file mod_path w3); [right; by injection Hrm as <-|done].
Qed.

Lemma report_chunk_last (total_size : Z) (sizes : list Z) (p0 p : Z) (w w' : World) :
  fold_each sizes (report_chunk total_size (Some setValue)) p0 w = (Val p, w') →
  ∃ l, emits w w' l ∧ p = (p0 + foldr Z.add 0 sizes)%Z ∧
    (sizes = [] → l = []) ∧
    (sizes ≠ [] → last l = Some (p * 100 / total_size)%Z).
Proof.
  revert p0 w. induction sizes as [|c sizes IH]; intros p0 w; simpl.
  - intros [= <- <-]. exists []. split; [by apply emits_nil|]. simpl.
    split; [lia|done].
  - intros H. apply bind_inv_val in H as (p1 & w1 & H1 & H2).
    injection H1 as <- <-.
    apply IH in H2 as (l & Hem & -> & Hnil & Hlast).
    exists (((p0 + c) * 100 / total_size)%Z :: l).
    split; [by apply emits_cons|]. split; [lia|]. split; [done|]. intros _.
    destruct sizes as [|c' sizes'].
    + rewrite Hnil by done. simpl. do 3 f_equal. lia.
    + rewrite last_cons, Hlast by done. done.
Qed.

Lemma chunk_sizes_nil (n : Z) : (0 ≤ n)%Z → chunk_sizes n = [] ↔ n = 0%Z.
Proof.
  intros Hn. unfold chunk_sizes, CHUNK_SIZE. split.
  - intros H. apply app_eq_nil in H as [H1 H2].
    destruct (n mod (1024 * 1024) =? 0)%Z eqn:E; [|done]. apply Z.eqb_eq in E.
    destruct (Z.to_nat (n / (1024 * 1024))) eqn:E2; [|done].
    assert (n / (1024 * 1024) = 0)%Z by (pose proof (Z.div_pos n (1024 * 1024)); lia).
    rewrite (Z.div_mod n (1024 * 1024)) by lia. lia.
  - intros ->. done.
Qed.

Lemma members_last (parent : string) (total_size : Z)
    (members : list (string * string)) (p0 p : Z) (w w' : World) :
  fold_each members (extract_member faulty parent total_size (Some setValue)) p0 w
    = (Val p, w') →
  ∃ l, emits w w' l ∧
    p = (p0 + foldr Z.add 0%Z (map (λ m : string * string, size_of m.2) members))%Z ∧
    (foldr Z.add 0%Z (map (λ m : string * string, size_of m.2) members) = 0%Z → l = []) ∧
    ((0 < foldr Z.add 0%Z (map (λ m : string * string, size_of m.2) members))%Z →
     last l = Some (p * 100 / total_size)%Z).
Proof.
  revert p0 w. induction members as [|m members IH]; intros p0 w; simpl.
  - intros [= <- <-]. exists []. split; [by apply emits_nil|]. simpl.
    split; [lia|]. split; [done|lia].
  - intros H. apply bind_inv_val in H as (p1 & w1 & H1 & H2).
    unfold extract_member in H1.
    apply bind_inv_val in H1 as ([] & wa & Ha & H1).
    apply bind_inv_val in H1 as ([] & wb & Hb & H1).
    assert (bar wb = bar w) as Hbar.
    { unfold mkdir, guard in Ha. destruct (faulty _); [done|]. injection Ha as <-.
      unfold write_file, guard in Hb. apply bind_inv_val in Hb as ([] & wc & Hc & Hb).
      destruct (faulty _); [done|]. injection Hc as <-. by injection Hb as <-. }
    destruct (chunk_sizes_spec _ (size_of_nonneg m.2)) as [Hpos Hsum].
    apply report_chunk_last in H1 as (l1 & Hem1 & -> & Hnil1 & Hlast1).
    apply IH in H2 as (l2 & Hem2 & -> & Hnil2 & Hlast2).
    assert (0 ≤ foldr Z.add 0%Z (map (λ m : string * string, size_of m.2) members))%Z
      as Hrest.
    { apply foldr_add_nonneg, Forall_forall. intros x Hx.
      apply list_elem_of_fmap in Hx as (y & -> & _). apply size_of_nonneg. }
    pose proof (size_of_nonneg m.2) as Hm.
    exists (l1 ++ l2)%list. split; [|split; [|split]].
    + eapply emits_app; [|exact Hem2]. unfold emits in *. by rewrite Hem1, Hbar.
    + rewrite Hsum. lia.
    + intros Hz. rewrite Hnil2 by lia. rewrite Hnil1; [done|].
      apply chunk_sizes_nil; lia.
    + intros Hz.
      destruct (decide (foldr Z.add 0%Z (map (λ m : string * string, size_of m.2) members)
                        = 0%Z)) as [Hr|Hr].
      * rewrite Hnil2 by done. rewrite app_nil_r, Hlast1.
        -- rewrite Hr. do 3 f_equal. lia.
        -- intros Hc. apply chunk_sizes_nil in Hc; lia.
      * rewrite last_app, Hlast2 by lia. done.
Qed.

(** X3: the percentages a successful extraction gives to its progress
    callback, here the progress bar itself, never decrease and lie
    between 0 and 100; the last one is 100 as soon as some extracted
    entry is not empty, and nothing at all is reported when every
    extracted entry is empty. *)
Theorem extract_mod_progress (mod_path : path) (remove_zip : bool)
    (files : list string) (w w' : World) :
  extract_mod faulty mod_path remove_zip (Some setValue) w = (Val files, w') →
  files ≠ [] →
  ∃ l ms, bar w' = (rev l ++ bar w)%list ∧
    fs w !! mod_path = Some (ZipFile ms) ∧
    Sorted Z.le l ∧ Forall (λ v, 0 ≤ v ≤ 100)%Z l ∧
    if decide (Forall (λ m : string * string, m.2 = "") (valid_files ms))
    then l = [] else last l = Some 100%Z.
Proof.
  intros H Hne.
  destruct (extract_mod_trace faulty (λ p, p) (λ p q _ Hpq, Hpq) _ _ _ _ _ H Hne)
    as (l & Hem & Hramp).
  apply extract_mod_inv in H as (ms & p & w3 & Hzip & -> & Hfold & Hw'); [|done].
  apply members_last in Hfold as (l' & Hem' & Hp & Hnil & Hlast).
  assert (bar w' = bar w3) as Hbar by (by destruct Hw' as [->| ->]).
  assert (l' = l) as ->.
  { unfold emits in *. rewrite Hbar, Hem' in Hem.
    apply app_inv_tail in Hem. apply (f_equal (@rev Z)) in Hem.
    by rewrite !rev_involutive in Hem. }
  exists l, ms. split; [done|]. split; [done|].
  split; [by eapply ramp_sorted|]. split; [by eapply ramp_bounds|].
  set (total := foldr Z.add 0%Z (map (λ m : string * string, size_of m.2) (valid_files ms)))
    in *.
  assert (total = 0%Z ↔ Forall (λ m : string * string, m.2 = "") (valid_files ms))
    as Hzero.
  { unfold total. clear. induction (valid_files ms) as [|m l IH]; simpl.
    - split; [constructor|done].
    - assert (0 ≤ foldr Z.add 0%Z (map (λ m : string * string, size_of m.2) l))%Z.
      { apply foldr_add_nonneg, Forall_forall. intros x Hx.
        apply list_elem_of_fmap in Hx as (y & -> & _). apply size_of_nonneg. }
      pose proof (size_of_nonneg m.2). rewrite Forall_cons. split.
      + intros Hs. split; [|apply IH; lia].
        destruct m as [a [|c s]]; [done|]. unfold size_of in *.
        cbn [snd String.length] in Hs. exfalso. lia.
      + intros [Hm Hl]. apply IH in Hl. rewrite Hm, Hl. done. }
  destruct (decide _) as [Hall|Hsome].
  - apply Hnil, Hzero, Hall.
  - assert (0 ≤ total)%Z.
    { apply foldr_add_nonneg, Forall_forall. intros x Hx.
      apply list_elem_of_fmap in Hx as (y & -> & _). apply size_of_nonneg. }
    assert (0 < total)%Z by (destruct (decide (total = 0%Z)); [tauto|lia]).
    rewrite Hlast by done. rewrite Hp, Z.add_0_l.
    rewrite Z.mul_comm, Z.div_mul by lia. done.
Qed.

End ExtractionProgress.

(** X3, witness *)
Lemma extract_mod_progress_witness :
  ∃ l ms,
    bar (extract_mod no_faults ("/mods", "pack.ZIP") true (Some setValue) x_zip_world).2
      = (rev l ++ bar x_zip_world)%list ∧
    fs x_zip_world !! ("/mods", "pack.ZIP") = Some (ZipFile ms) ∧
    Sorted Z.le l ∧ Forall (λ v, 0 ≤ v ≤ 100)%Z l ∧
    if decide (Forall (λ m : string * string, m.2 = "") (valid_files ms))
    then l = [] else last l = Some 100%Z.
Proof.
  apply (extract_mod_progress no_faults ("/mods", "pack.ZIP") true ["a.pak"; "b.pak"]
           x_zip_world); [vm_compute; reflexivity|discriminate].
Defined.

(** * Further properties of the install *)

Section Install.
Variable faulty : fsop → bool.
Variable remote : string → reply.

Lemma register_run (profile_name mod_dir zip clean_url : string) (t : nat)
    (f : string) (w : World) :
  register profile_name mod_dir zip clean_url t f w =
    (Val tt, if is_file (mod_dir, f) w
             then with_mod_db
                    (dict_set f (installed_record profile_name mod_dir zip clean_url t f)) w
             else w).
Proof. unfold register. munfold. simpl. by destruct (is_file (mod_dir, f) w). Qed.

Lemma register_loop (profile_name mod_dir zip clean_url : string) (t : nat)
    (files : list string) (w : World) :
  ∃ w', for_each files (register profile_name mod_dir zip clean_url t) w = (Val tt, w') ∧
    (∃ g, w' = with_mod_db g w) ∧
    ∀ f, dict_get f (mod_db w') =
         if bool_decide (f ∈ files) && is_file (mod_dir, f) w
         then Some (installed_record profile_name mod_dir zip clean_url t f)
         else dict_get f (mod_db w).
Proof.
  revert w. induction files as [|g files IH]; intros w.
  - exists w. split; [done|]. split; [exists id; by destruct w|]. intros f. done.
  - simpl. rewrite (bind_val _ _ _ _ _ (register_run _ _ _ _ _ g w)).
    destruct (is_file (mod_dir, g) w) eqn:Hg; simpl.
    + set (w1 := with_mod_db
                   (dict_set g (installed_record profile_name mod_dir zip clean_url t g)) w).
      destruct (IH w1) as (w' & E & [h Hw'] & Hdb). exists w'.
      split; [done|]. split; [eexists (λ d, h (dict_set g _ d)); by rewrite Hw'|].
      intros f. specialize (Hdb f).
      replace (is_file (mod_dir, f) w1) with (is_file (mod_dir, f) w) in Hdb by done.
      destruct (decide (f = g)) as [->|Hne].
      * rewrite bool_decide_eq_true_2 by left. rewrite Hg. simpl.
        rewrite Hg in Hdb. rewrite andb_true_r in Hdb.
        case_bool_decide; [done|]. rewrite Hdb. apply dict_get_set_eq.
      * rewrite (bool_decide_ext _ _ (elem_of_cons_ne f g files Hne)).
        destruct (_ && _); [done|]. rewrite Hdb. by apply dict_get_set_ne.
    + destruct (IH w) as (w' & E & Hw' & Hdb). exists w'.
      split; [done|]. split; [done|]. intros f. specialize (Hdb f).
      destruct (decide (f = g)) as [->|Hne].
      * rewrite Hg, andb_false_r in *. done.
      * by rewrite (bool_decide_ext _ _ (elem_of_cons_ne f g files Hne)).
Qed.

Lemma refresh_mod_tree_run (w : World) :
  ∃ w', refresh_mod_tree w = (Val tt, w') ∧
    fs w' = fs w ∧ mod_db w' = mod_db w ∧ db_disk w' = db_disk w ∧
    bak_disk w' = bak_disk w ∧ db_saves w' = db_saves w ∧ dialogs w' = dialogs w ∧
    profiles w' = profiles w ∧ profiles_disk w' = profiles_disk w.
Proof.
  destruct (refresh_mod_tree_total w) as ([] & w' & E). exists w'. split; [done|].
  assert (∀ X (f : World → X), (∀ v w, f (push_bar v w) = f w) → f w' = f w) as Hk.
  { intros X f Hf.
    pose proof (refresh_mod_tree_preserves (keeps f) (λ v w, Hf v w) w) as H.
    by rewrite E in H. }
  repeat split; by apply Hk.
Qed.

Lemma transfer_keeps {X} (f : World → X) (url dir : string) (cb : Z → M unit)
    (w : World) :
  blind (keeps f) → (∀ p, preserves (keeps f) (cb p)) →
  f (loader_download_mod faulty remote url dir cb w).2 = f w.
Proof. intros Hb Hcb. by apply (loader_download_mod_preserves faulty remote (keeps f)). Qed.

Lemma blind_bar {X} (f : World → X) :
  blind (keeps f) → ∀ v w, f (push_bar v w) = f w.
Proof. intros (_ & _ & H) v w. apply H. Qed.

Lemma download_keeps {X} (f : World → X) (url dir : string) (w : World) :
  blind (keeps f) →
  f (loader_download_mod faulty remote url dir setValue (push_bar 0 w)).2 = f w.
Proof.
  intros Hb. rewrite transfer_keeps; [by apply blind_bar|done|].
  intros v w0. by apply blind_bar.
Qed.

Lemma extract_keeps {X} (f : World → X) (mod_path : path) (remove_zip : bool)
    (w : World) :
  blind (keeps f) → f (extract_mod faulty mod_path remove_zip None w).2 = f w.
Proof. intros Hb. by apply (extract_mod_preserves faulty (keeps f)). Qed.


(** X5: with a profile selected, an install never lets an exception out,
    and it ends in one of two ways: with a warning, the database in
    memory and on disk untouched and no save attempted; or with exactly
    one save of the database. *)
Theorem install_warns_or_saves (w : World) (url_input profile_name : string)
    (p : Profile) :
  dict_get profile_name (profiles w) = Some p →
  ∃ w', download_mod faulty remote url_input (Some profile_name) w = (Val tt, w') ∧
    ((mod_db w' = mod_db w ∧ db_saves w' = db_saves w ∧ db_disk w' = db_disk w ∧
      bak_disk w' = bak_disk w ∧
      ∃ text, dialogs w' = Warning "Error" text :: dialogs w) ∨
     db_saves w' = S (db_saves w)).
Proof.
  intros Hp. unfold download_mod.
  destruct (String.eqb (Str.strip url_input) "") eqn:Hurl.
  { eexists. split; [reflexivity|]. left. simpl. eauto 10. }
  rewrite (bind_val _ _ w (profiles w) w) by done. rewrite Hp.
  rewrite (bind_val _ _ w tt (push_bar 0 w)) by done.
  set (url := clean (Str.strip url_input)).
  assert (∀ e w0, (∀ X (f : World → X), blind (keeps f) → f w0 = f w) →
    ∃ w', (match e with
           | WrongUrl _ =>
               message (Warning "Error" "Invalid mod URL. Please check the URL format.")
           | ModFileNotFound =>
               message (Warning "Error" "No downloadable file found for this mod.")
           | _ => message (Warning "Error" ("An error occurred: " +:+ str e))
           end) w0 = (Val tt, w') ∧
      mod_db w' = mod_db w ∧ db_saves w' = db_saves w ∧ db_disk w' = db_disk w ∧
      bak_disk w' = bak_disk w ∧
      ∃ text, dialogs w' = Warning "Error" text :: dialogs w) as Hwarn.
  { intros e w0 Hk.
    assert (∀ d, ∃ w', message d w0 = (Val tt, w') ∧
      mod_db w' = mod_db w ∧ db_saves w' = db_saves w ∧ db_disk w' = db_disk w ∧
      bak_disk w' = bak_disk w ∧ dialogs w' = d :: dialogs w) as Hm.
    { intros d. eexists. split; [reflexivity|]. simpl.
      rewrite (Hk _ mod_db), (Hk _ db_saves), (Hk _ db_disk), (Hk _ bak_disk),
        (Hk _ dialogs); done. }
    destruct e;
      match goal with |- ∃ _, message ?d _ = _ ∧ _ =>
        destruct (Hm d) as (w' & E & ? & ? & ? & ? & ?) end;
      exists w'; eauto 10. }
  destruct (loader_download_mod faulty remote url (mod_directory p) setValue
              (push_bar 0 w)) as [[zp|e] w1] eqn:Hdl.
  2:{ destruct (Hwarn e w1) as (w' & E & H).
      { intros X f Hb.
        pose proof (download_keeps f url (mod_directory p) w Hb) as H1.
        by rewrite Hdl in H1. }
      exists w'. split; [|by left].
      erewrite try_exc. 2:{ by erewrite bind_exc. } exact E. }
  destruct (extract_mod_total faulty zp true None w1) as (files & w2 & Hex).
  assert (∀ X (f : World → X), blind (keeps f) → f w2 = f w) as Hkeep.
  { intros X f Hb.
    pose proof (extract_keeps f zp true w1 Hb) as H2. rewrite Hex in H2.
    pose proof (download_keeps f url (mod_directory p) w Hb) as H1.
    rewrite Hdl in H1. simpl in *. by rewrite H2, H1. }
  destruct files as [|f0 files].
  { destruct (Hwarn (RuntimeError "No valid files extracted from archive.") w2 Hkeep)
      as (w' & E & H).
    exists w'. split; [|by left].
    erewrite try_exc.
    2:{ erewrite bind_val by exact Hdl. erewrite bind_val by exact Hex. reflexivity. }
    exact E. }
  destruct (register_loop profile_name (mod_directory p) zp.2 url (clock w2)
              (f0 :: files) (tick w2)) as (w3 & Hreg & [g Hw3] & Hdb).
  destruct (save_mod_db_effect faulty w3) as (w4 & Hsave & Hsaves & Hdb4 & Hdisk).
  destruct (refresh_mod_tree_run w4) as (w5 & Href & Hfs5 & Hdb5 & Hdisk5 & _ & Hsv5 & _).
  exists w5. split.
  - erewrite try_val; [reflexivity|].
    erewrite bind_val by exact Hdl.
    erewrite bind_val by exact Hex. cbv beta iota.
    erewrite (bind_val now) by reflexivity.
    erewrite bind_val by exact Hreg.
    erewrite bind_val by exact Hsave. exact Href.
  - right. rewrite Hsv5, Hsaves, Hw3. simpl. by rewrite (Hkeep _ db_saves).
Qed.

End Install.


(** X5, witness *)
Lemma install_warns_or_saves_witness :
  ∃ w', download_mod no_faults x_install_remote "https://mod.io/g/drg/m/none"
          (Some "Default") x_install_world = (Val tt, w') ∧
    ((mod_db w' = mod_db x_install_world ∧ db_saves w' = db_saves x_install_world ∧
      db_disk w' = db_disk x_install_world ∧ bak_disk w' = bak_disk x_install_world ∧
      ∃ text, dialogs w' = Warning "Error" text :: dialogs x_install_world) ∨
     db_saves w' = S (db_saves x_install_world)).
Proof.
  apply (install_warns_or_saves no_faults x_install_remote x_install_world
           "https://mod.io/g/drg/m/none" "Default" (mkProfile "/mods" true)).
  reflexivity.
Defined.

(** * Further properties of the toggle *)

Section ToggleMore.
Variable faulty : fsop → bool.

Lemma moves_succeed (src dst : string) (files : list path) (w : World) :
  src ≠ dst → NoDup files →
  (∀ f, f ∈ files → f.1 = src ∧ is_Some (fs w !! f)) →
  (∀ f, f ∈ files → faulty (OpMove f (dst, f.2)) = false) →
  for_each files (λ f, shutil_move faulty f (dst, f.2)) w
  = (Val tt, with_fs (move_fs dst files) w).
Proof.
  intros Hdir Hnd. revert w.
  induction files as [|f files IH]; intros w Hall Hok; simpl.
  - unfold ret. by rewrite with_fs_id.
  - apply NoDup_cons in Hnd as [Hf Hnd].
    destruct (Hall f ltac:(left)) as [Hfd [c Hc]].
    unfold shutil_move at 1. munfold. rewrite (Hok f) by left. simpl.
    rewrite Hc. simpl. rewrite IH.
    + unfold with_fs. simpl. by rewrite Hc.
    + done.
    + intros h Hh. destruct (Hall h ltac:(by right)) as [Hhd Hhs].
      split; [done|]. simpl.
      rewrite lookup_insert_ne
        by (intros Heq; rewrite <- Heq in Hhd; simpl in Hhd; congruence).
      rewrite lookup_delete_ne by (intros ->; done). done.
    + intros h Hh. apply Hok. by right.
Qed.

Lemma moves_keep {X} (g : World → X) (dst : string) (files : list path) (w : World) :
  (∀ h w, g (with_fs h w) = g w) →
  g (for_each files (λ f, shutil_move faulty f (dst, f.2)) w).2 = g w.
Proof.
  intros Hg.
  assert (preserves (keeps g) (for_each files (λ f, shutil_move faulty f (dst, f.2))))
    as H; [|apply H].
  unfold shutil_move. repeat first [apply guard_preserves; apply _ | preserves_step].
  all: try apply _. all: intros; apply Hg.
Qed.

Lemma apply_state_effect (mod_name : string) (e : bool) (w : World) :
  ∃ w', apply_state faulty mod_name e w = (Val (Applied, e), w') ∧
    fs w' = fs w ∧
    mod_db w' = dict_update mod_name (set_enabled e) (mod_db w) ∧
    db_saves w' = S (db_saves w) ∧
    (faulty (OpCopy db_file db_backup) = false →
     faulty (OpWrite db_file) = false → db_disk w' = Some (mod_db w')).
Proof.
  unfold apply_state.
  set (w1 := with_mod_db (dict_update mod_name (set_enabled e)) w).
  rewrite (bind_val _ _ w tt w1) by done.
  destruct (save_mod_db_effect faulty w1) as (w' & Hs & Hsaves & Hdb & Hdisk).
  rewrite (bind_val _ _ _ _ _ Hs). exists w'. split; [done|].
  pose proof (save_mod_db_preserves faulty (keeps fs)
                (λ _, eq_refl) (λ _ _, eq_refl) (λ _ _, eq_refl) (λ _ _, eq_refl) w1) as H1.
  rewrite Hs in H1. split; [done|]. split; [done|]. split; [done|].
  intros H2 H3. by rewrite Hdb, Hdisk.
Qed.

Lemma toggle_cases (checked : bool) (mod_name : string)
    (w : World) (info : ModInfo) :
  dict_get mod_name (mod_db w) = Some info →
  faulty (OpMkdir (disabled_dir (installed_path info))) = false →
  ∃ o b w', on_mod_status_changed faulty checked mod_name 0 w = (Val (o, b), w') ∧
    ((o = Applied ∧ b = checked ∧
      mod_db w' = dict_update mod_name (set_enabled checked) (mod_db w) ∧
      db_saves w' = S (db_saves w)) ∨
     ((o = ModFileMissing ∨ o = ToggleFailed) ∧ b = negb checked ∧
      mod_db w' = mod_db w ∧ db_saves w' = db_saves w ∧ db_disk w' = db_disk w)).
Proof.
  intros Hget Hmk.
  assert (∀ dst files,
    let r := for_each files (λ f, shutil_move faulty f (dst, f.2)) w in
    mod_db r.2 = mod_db w ∧ db_saves r.2 = db_saves w ∧ db_disk r.2 = db_disk w)
    as Hmoves.
  { intros dst files. simpl. by rewrite !moves_keep. }
  assert (∀ w1, mod_db w1 = mod_db w → db_saves w1 = db_saves w →
    ∃ w', apply_state faulty mod_name checked w1 = (Val (Applied, checked), w') ∧
      mod_db w' = dict_update mod_name (set_enabled checked) (mod_db w) ∧
      db_saves w' = S (db_saves w)) as Happly.
  { intros w1 H1 H2.
    destruct (apply_state_effect mod_name checked w1) as (w' & E & _ & Hdb & Hs & _).
    exists w'. by rewrite Hdb, Hs, H1, H2. }
  unfold on_mod_status_changed. simpl.
  rewrite (bind_val _ _ w (mod_db w) w) by done. rewrite Hget.
  unfold mkdir, guard. rewrite Hmk.
  rewrite (bind_val _ _ w tt w) by done.
  unfold try_except.
  rewrite (bind_val _ _ w (glob (installed_path info) mod_name (fs w)) w) by done.
  rewrite (bind_val _ _ w (glob (disabled_dir (installed_path info)) mod_name (fs w)) w)
    by done.
  destruct checked.
  - destruct (glob (disabled_dir (installed_path info)) mod_name (fs w))
      as [|d ds] eqn:Hdis.
    + destruct (glob (installed_path info) mod_name (fs w)) as [|a l] eqn:Hact.
      * do 3 eexists. split; [reflexivity|]. right. simpl. eauto 10.
      * destruct (Happly w) as (w' & E & Hdb & Hs); [done..|]. rewrite E.
        do 3 eexists. split; [reflexivity|]. left. done.
    + specialize (Hmoves (installed_path info) (d :: ds)). cbv zeta in Hmoves.
      match goal with |- context [for_each ?l ?f] =>
        destruct (for_each l f w) as [[[]|e] w1] eqn:Hmv end;
        try rewrite Hmv in Hmoves; cbn [snd] in Hmoves; destruct Hmoves as (H1 & H2 & H3).
      * rewrite (bind_val _ _ _ _ _ Hmv).
        destruct (Happly w1) as (w' & E & Hdb & Hs); [done..|]. rewrite E.
        do 3 eexists. split; [reflexivity|]. left. done.
      * rewrite (bind_exc _ _ _ _ _ Hmv).
        do 3 eexists. split; [reflexivity|]. right. simpl. eauto 10.
  - destruct (glob (installed_path info) mod_name (fs w)) as [|a l] eqn:Hact.
    + destruct (glob (disabled_dir (installed_path info)) mod_name (fs w))
        as [|d ds] eqn:Hdis.
      * do 3 eexists. split; [reflexivity|]. right. simpl. eauto 10.
      * destruct (Happly w) as (w' & E & Hdb & Hs); [done..|]. rewrite E.
        do 3 eexists. split; [reflexivity|]. left. done.
    + specialize (Hmoves (disabled_dir (installed_path info)) (a :: l)).
      cbv zeta in Hmoves.
      match goal with |- context [for_each ?l ?f] =>
        destruct (for_each l f w) as [[[]|e] w1] eqn:Hmv end;
        try rewrite Hmv in Hmoves; cbn [snd] in Hmoves; destruct Hmoves as (H1 & H2 & H3).
      * rewrite (bind_val _ _ _ _ _ Hmv).
        destruct (Happly w1) as (w' & E & Hdb & Hs); [done..|]. rewrite E.
        do 3 eexists. split; [reflexivity|]. left. done.
      * rewrite (bind_exc _ _ _ _ _ Hmv).
        do 3 eexists. split; [reflexivity|]. right. simpl. eauto 10.
Qed.

(** X6: for a record of the database and a disabled directory that can
    be made, the toggle handler never lets an exception out and leaves
    the check box in step with the database: either the new state is
    applied, recorded and saved, the box keeping the state the user gave
    it; or nothing is recorded nor saved and the box is put back, whether
    no file was found or a move failed.  So a box that showed the
    record's flag before the click shows it after the handler. *)
Theorem toggle_box_follows_database (checked : bool) (mod_name : string)
    (w : World) (info : ModInfo) :
  dict_get mod_name (mod_db w) = Some info →
  faulty (OpMkdir (disabled_dir (installed_path info))) = false →
  ∃ o b w', on_mod_status_changed faulty checked mod_name 0 w = (Val (o, b), w') ∧
    ((o = Applied ∧ b = checked ∧
      mod_db w' = dict_update mod_name (set_enabled checked) (mod_db w) ∧
      db_saves w' = S (db_saves w)) ∨
     ((o = ModFileMissing ∨ o = ToggleFailed) ∧ b = negb checked ∧
      mod_db w' = mod_db w ∧ db_saves w' = db_saves w ∧ db_disk w' = db_disk w)) ∧
    (enabled info = negb checked →
     enabled <$> dict_get mod_name (mod_db w') = Some b).
Proof.
  intros Hget Hmk.
  destruct (toggle_cases checked mod_name w info Hget Hmk) as (o & b & w' & E & H).
  exists o, b, w'. split; [done|]. split; [done|].
  intros Hen. destruct H as [(_ & -> & -> & _)|(_ & -> & -> & _)].
  - unfold dict_update. rewrite Hget, dict_get_set_eq. done.
  - rewrite Hget. simpl. by rewrite Hen.
Qed.

Lemma toggle_applies (checked : bool) (mod_name : string)
    (w : World) (info : ModInfo) :
  dict_get mod_name (mod_db w) = Some info →
  faulty (OpMkdir (disabled_dir (installed_path info))) = false →
  (∀ f, f ∈ glob (toggle_src checked info) mod_name (fs w) →
        faulty (OpMove f (toggle_dst checked info, f.2)) = false) →
  glob (toggle_src checked info) mod_name (fs w) ≠ [] →
  ∃ w', on_mod_status_changed faulty checked mod_name 0 w
        = (Val (Applied, checked), w') ∧
    fs w' = move_fs (toggle_dst checked info)
              (glob (toggle_src checked info) mod_name (fs w)) (fs w) ∧
    mod_db w' = dict_update mod_name (set_enabled checked) (mod_db w) ∧
    db_saves w' = S (db_saves w) ∧
    (faulty (OpCopy db_file db_backup) = false →
     faulty (OpWrite db_file) = false → db_disk w' = Some (mod_db w')).
Proof.
  intros Hget Hmk Hok Hne.
  assert (toggle_src checked info ≠ toggle_dst checked info) as Hdir.
  { unfold toggle_src, toggle_dst. destruct checked;
      [apply disabled_dir_neq|apply not_eq_sym, disabled_dir_neq]. }
  pose proof (moves_succeed (toggle_src checked info) (toggle_dst checked info)
                (glob (toggle_src checked info) mod_name (fs w)) w Hdir
                (NoDup_glob _ _ _)) as Hmv.
  specialize (Hmv (λ f Hf, let '(conj a (conj b _)) := proj1 (elem_of_glob _ _ _ f) Hf
                           in conj b a) Hok).
  set (w1 := with_fs (move_fs (toggle_dst checked info)
                        (glob (toggle_src checked info) mod_name (fs w))) w) in *.
  destruct (apply_state_effect mod_name checked w1) as (w' & E & Hfs & Hdb & Hs & Hd).
  exists w'. split; [|split; [by rewrite Hfs|split; [by rewrite Hdb|split;
    [by rewrite Hs|done]]]].
  unfold on_mod_status_changed. simpl.
  rewrite (bind_val _ _ w (mod_db w) w) by done. rewrite Hget.
  unfold mkdir, guard. rewrite Hmk.
  rewrite (bind_val _ _ w tt w) by done.
  unfold try_except.
  rewrite (bind_val _ _ w (glob (installed_path info) mod_name (fs w)) w) by done.
  rewrite (bind_val _ _ w (glob (disabled_dir (installed_path info)) mod_name (fs w)) w)
    by done.
  unfold toggle_src, toggle_dst in *. destruct checked.
  - destruct (glob (disabled_dir (installed_path info)) mod_name (fs w))
      as [|d ds] eqn:Hdis; [done|].
    rewrite (bind_val _ _ _ _ _ Hmv). by rewrite E.
  - destruct (glob (installed_path info) mod_name (fs w)) as [|a l] eqn:Hact; [done|].
    rewrite (bind_val _ _ _ _ _ Hmv). by rewrite E.
Qed.

Lemma dict_set_set {V} (k : string) (v v' : V) (d : dict V) :
  dict_set k v (dict_set k v' d) = dict_set k v d.
Proof.
  induction d as [|[k' x] d IH]; simpl.
  - by rewrite String.eqb_refl.
  - destruct (String.eqb k k') eqn:E; simpl; rewrite E; [done|by rewrite IH].
Qed.

Lemma set_enabled_back (i : ModInfo) (b : bool) :
  set_enabled (enabled i) (set_enabled b i) = i.
Proof. by destruct i. Qed.


End ToggleMore.

(** X6, witness *)
Lemma toggle_box_follows_database_witness :
  ∃ o b w', on_mod_status_changed x_toggle_fail false "a.pak" 0 c1_toggle_world
            = (Val (o, b), w') ∧
    ((o = Applied ∧ b = false ∧
      mod_db w' = dict_update "a.pak" (set_enabled false) (mod_db c1_toggle_world) ∧
      db_saves w' = S (db_saves c1_toggle_world)) ∨
     ((o = ModFileMissing ∨ o = ToggleFailed) ∧ b = negb false ∧
      mod_db w' = mod_db c1_toggle_world ∧ db_saves w' = db_saves c1_toggle_world ∧
      db_disk w' = db_disk c1_toggle_world)) ∧
    (enabled c1_a = negb false →
     enabled <$> dict_get "a.pak" (mod_db w') = Some b).
Proof.
  apply (toggle_box_follows_database x_toggle_fail false "a.pak" c1_toggle_world c1_a);
    reflexivity.
Defined.


(** * Further properties of the deletion *)

Lemma dict_get_None_keys {V} (k : string) (d : dict V) :
  dict_get k d = None → k ∉ dict_keys d.
Proof.
  induction d as [|[k' v] d IH]; simpl; [intros _; apply not_elem_of_nil|].
  destruct (String.eqb k k') eqn:E; [done|]. intros H.
  apply String.eqb_neq in E. apply not_elem_of_cons. split; [done|by apply IH].
Qed.

Lemma dict_get_del_ne {V} (k k' : string) (d : dict V) :
  k ≠ k' → dict_get k' (dict_del k d) = dict_get k' d.
Proof.
  intros Hne. induction d as [|[k0 v] d IH]; simpl; [done|].
  destruct (String.eqb k k0) eqn:E; simpl.
  - apply String.eqb_eq in E as <-.
    by rewrite (proj2 (String.eqb_neq k' k)) by done.
  - by rewrite IH.
Qed.

Lemma dict_del_keys_sublist {V} (k : string) (d : dict V) :
  dict_keys (dict_del k d) `sublist_of` dict_keys d.
Proof.
  unfold dict_keys. induction d as [|[k0 v] d IH]; simpl; [done|].
  destruct (String.eqb k k0); simpl; [by apply sublist_cons|by apply sublist_skip].
Qed.

Lemma dict_get_del_eq {V} (k : string) (d : dict V) :
  NoDup (dict_keys d) → dict_get k (dict_del k d) = None.
Proof.
  unfold dict_keys. induction d as [|[k0 v] d IH]; simpl; [done|].
  intros [Hk Hnd]%NoDup_cons.
  destruct (String.eqb k k0) eqn:E; simpl.
  - apply String.eqb_eq in E as <-. by apply dict_get_None.
  - rewrite E. by apply IH.
Qed.

Lemma keyed_by_name_del (k : string) (db : dict ModInfo) :
  keyed_by_name db → keyed_by_name (dict_del k db).
Proof.
  intros [Hnd Hkey]. split.
  - eapply sublist_NoDup; [exact Hnd|apply dict_del_keys_sublist].
  - intros k' i Hin. apply Hkey. by eapply dict_del_subseteq.
Qed.

Lemma find_by_local_name (n : string) (db : dict ModInfo) :
  (∀ k i, (k, i) ∈ db → local_name i = k) →
  find (λ e : string * ModInfo, String.eqb (local_name e.2) n) db
  = (λ i, (n, i)) <$> dict_get n db.
Proof.
  induction db as [|[k v] db IH]; intros Hkey; simpl; [done|].
  rewrite (Hkey k v) by left. rewrite (String.eqb_sym n k).
  destruct (String.eqb k n) eqn:E.
  - apply String.eqb_eq in E as ->. done.
  - apply IH. intros k' i Hin. apply Hkey. by right.
Qed.

Section Deletion.
Variable faulty : fsop → bool.

Lemma delete_one_run (n : string) (w : World) :
  (∀ k i, (k, i) ∈ mod_db w → local_name i = k) →
  delete_one faulty n w =
    (Val tt,
     match dict_get n (mod_db w) with
     | Some i =>
         if String.eqb n "" then w else
         with_mod_db (dict_del n)
           (if String.eqb (installed_path i) "" then w
            else with_fs (delete_fs faulty (installed_path i) n) w)
     | None => w
     end).
Proof.
  intros Hkey. unfold delete_one.
  rewrite (bind_val _ _ w (mod_db w) w) by done.
  rewrite (find_by_local_name n (mod_db w) Hkey).
  destruct (dict_get n (mod_db w)) as [i|]; simpl; [|done].
  destruct (String.eqb n ""); [done|].
  destruct (String.eqb (installed_path i) ""); simpl.
  - munfold. done.
  - munfold. cbn [negb]. rewrite unlink_all_run. rewrite unlink_all_run. done.
Qed.

Lemma delete_fs_subseteq (d n : string) (m : gmap path content) :
  delete_fs faulty d n m ⊆ m.
Proof. unfold delete_fs. etrans; apply unlink_all_fs_subseteq. Qed.

Lemma delete_fs_other (d n : string) (m : gmap path content) (p : path) :
  Str.contains n p.2 = false → delete_fs faulty d n m !! p = m !! p.
Proof.
  intros Hp. unfold delete_fs. rewrite !unlink_all_fs_other; [done| |].
  - intros (_ & _ & H)%elem_of_glob. congruence.
  - intros (_ & _ & H)%elem_of_glob. congruence.
Qed.

Lemma delete_fs_clears (d n : string) (m : gmap path content) :
  (∀ p, faulty (OpUnlink p) = false) →
  glob d n (delete_fs faulty d n m) = [] ∧
  glob (disabled_dir d) n (delete_fs faulty d n m) = [].
Proof.
  intros Hok. unfold delete_fs. split.
  - eapply glob_nil_subseteq; [apply unlink_all_fs_subseteq|].
    apply glob_unlinked. intros; apply Hok.
  - apply glob_unlinked. intros; apply Hok.
Qed.

Lemma delete_loop (names : list string) (w : World) :
  keyed_by_name (mod_db w) →
  (∀ p, faulty (OpUnlink p) = false) →
  ∃ w', for_each names (delete_one faulty) w = (Val tt, w') ∧
    keyed_by_name (mod_db w') ∧
    (∃ gd gf, w' = with_mod_db gd (with_fs gf w)) ∧
    mod_db w' ⊆ mod_db w ∧ fs w' ⊆ fs w ∧
    (∀ k, k ∉ names → dict_get k (mod_db w') = dict_get k (mod_db w)) ∧
    (∀ n i, n ∈ names → n ≠ "" → dict_get n (mod_db w) = Some i →
       dict_get n (mod_db w') = None ∧
       (installed_path i ≠ "" →
        glob (installed_path i) n (fs w') = [] ∧
        glob (disabled_dir (installed_path i)) n (fs w') = [])) ∧
    (∀ p, (∀ n, n ∈ names → Str.contains n p.2 = false) → fs w' !! p = fs w !! p).
Proof.
  intros Hkeyed Hok. revert w Hkeyed.
  induction names as [|n names IH]; intros w Hkeyed.
  - exists w. split; [done|]. split; [done|].
    split; [exists id, id; by destruct w|]. split; [done|]. split; [done|].
    split; [done|]. split; [|done]. intros n i Hn. by apply elem_of_nil in Hn.
  - simpl. pose proof (delete_one_run n w (proj2 Hkeyed)) as Hone.
    set (w1 := match dict_get n (mod_db w) with
               | Some i =>
                   if String.eqb n "" then w else
                   with_mod_db (dict_del n)
                     (if String.eqb (installed_path i) "" then w
                      else with_fs (delete_fs faulty (installed_path i) n) w)
               | None => w
               end) in *.
    rewrite (bind_val _ _ _ _ _ Hone).
    assert (keyed_by_name (mod_db w1) ∧ (∃ gd gf, w1 = with_mod_db gd (with_fs gf w)) ∧
            mod_db w1 ⊆ mod_db w ∧ fs w1 ⊆ fs w ∧
            (∀ k, k ≠ n → dict_get k (mod_db w1) = dict_get k (mod_db w)) ∧
            (∀ i, n ≠ "" → dict_get n (mod_db w) = Some i →
               dict_get n (mod_db w1) = None ∧
               (installed_path i ≠ "" →
                glob (installed_path i) n (fs w1) = [] ∧
                glob (disabled_dir (installed_path i)) n (fs w1) = [])) ∧
            (∀ p, Str.contains n p.2 = false → fs w1 !! p = fs w !! p))
      as (Hk1 & Hw1 & Hdb1 & Hfs1 & Hother1 & Hdel1 & Hframe1).
    { subst w1. destruct (dict_get n (mod_db w)) as [i|] eqn:Hget.
      2:{ split; [done|]. split; [exists id, id; by destruct w|]. done. }
      destruct (String.eqb n "") eqn:En.
      { apply String.eqb_eq in En.
        split; [done|]. split; [exists id, id; by destruct w|]. done. }
      destruct (String.eqb (installed_path i) "") eqn:Ep; simpl.
      - apply String.eqb_eq in Ep.
        split; [by apply keyed_by_name_del|].
        split; [exists (dict_del n), id; by destruct w|].
        split; [apply dict_del_subseteq|]. split; [done|].
        split; [intros k Hk; by apply dict_get_del_ne|].
        split; [|done]. intros i' _ [= <-].
        split; [apply dict_get_del_eq, Hkeyed|done].
      - split; [by apply keyed_by_name_del|].
        split; [by eexists (dict_del n), _|].
        split; [apply dict_del_subseteq|]. split; [apply delete_fs_subseteq|].
        split; [intros k Hk; by apply dict_get_del_ne|].
        split; [|intros p Hp; by apply delete_fs_other]. intros i' _ [= <-].
        split; [apply dict_get_del_eq, Hkeyed|]. intros _.
        by apply delete_fs_clears. }
    destruct (IH w1 Hk1) as (w' & E & Hk' & Hw' & Hdb' & Hfs' & Hother' & Hdel' & Hframe').
    exists w'. split; [done|]. split; [done|]. split.
    { destruct Hw1 as (gd1 & gf1 & ->). destruct Hw' as (gd & gf & ->).
      by exists (λ d, gd (gd1 d)), (λ m, gf (gf1 m)). }
    split; [by etrans|]. split; [by etrans|]. split; [|split].
    + intros k [Hk1' Hk2]%not_elem_of_cons. rewrite Hother' by done. by apply Hother1.
    + intros m i Hm Hne Hget.
      destruct (decide (m = n)) as [->|Hmn].
      * destruct (Hdel1 i Hne Hget) as [Hnone Hglobs].
        split.
        -- destruct (dict_get n (mod_db w')) as [v|] eqn:Ev; [exfalso|done].
           apply dict_get_Some_elem, Hdb' in Ev.
           apply (dict_get_None_keys _ _ Hnone).
           apply list_elem_of_fmap. by exists (n, v).
        -- intros Hp. destruct (Hglobs Hp).
           split; by eapply glob_nil_subseteq.
      * apply elem_of_cons in Hm as [?|Hm]; [done|].
        apply (Hdel' m i Hm Hne). by rewrite Hother1.
    + intros p Hp. rewrite Hframe'; [apply Hframe1, Hp; left|].
      intros m Hm. apply Hp. by right.
Qed.


End Deletion.

Lemma c1_toggle_world_keyed : keyed_by_name (mod_db c1_toggle_world).
Proof.
  split.
  - apply (bool_decide_unpack _). by vm_compute.
  - intros k i Hin. simpl in Hin.
    repeat (apply elem_of_cons in Hin as [[= -> ->]|Hin]; [done|]).
    by apply elem_of_nil in Hin.
Qed.


(** * Further properties of the directory migration *)

Lemma dict_get_migrated (old_path new_path k : string) (db : dict ModInfo) :
  dict_get k (map (λ e : string * ModInfo,
                     if String.eqb (installed_path e.2) old_path
                     then (e.1, set_installed_path new_path e.2) else e) db)
  = migrated old_path new_path <$> dict_get k db.
Proof.
  induction db as [|[k' v] db IH]; simpl; [done|].
  destruct (String.eqb (installed_path v) old_path) eqn:E; simpl;
    destruct (String.eqb k k'); simpl; try done; unfold migrated; by rewrite E.
Qed.

Section MigrationMore.
Variable faulty : fsop → bool.

Lemma counted_moves_succeed (old_path new_path : string) (files : list path)
    (n : nat) (w : World) :
  old_path ≠ new_path → NoDup files →
  (∀ f, f ∈ files → f.1 = old_path ∧ is_Some (fs w !! f)) →
  (∀ f, f ∈ files → faulty (OpMove f (new_path, f.2)) = false) →
  fold_each files
    (λ n file_path,
       shutil_move faulty file_path (new_path, file_path.2) >> ret (S n)) n w
  = (Val (n + length files)%nat, with_fs (move_fs new_path files) w).
Proof.
  intros Hdir Hnd. revert n w.
  induction files as [|f files IH]; intros n w Hall Hok; simpl.
  - unfold ret. by rewrite with_fs_id, Nat.add_0_r.
  - apply NoDup_cons in Hnd as [Hf Hnd].
    destruct (Hall f ltac:(left)) as [Hfd [c Hc]].
    unfold shutil_move at 1. munfold. rewrite (Hok f) by left. simpl.
    rewrite Hc. simpl. rewrite IH.
    + unfold with_fs. simpl. rewrite Hc. do 2 f_equal. lia.
    + done.
    + intros h Hh. destruct (Hall h ltac:(by right)) as [Hhd Hhs].
      split; [done|]. simpl.
      rewrite lookup_insert_ne
        by (intros Heq; rewrite <- Heq in Hhd; simpl in Hhd; congruence).
      rewrite lookup_delete_ne by (intros ->; done). done.
    + intros h Hh. apply Hok. by right.
Qed.

(** X9: a confirmed migration to another directory, with moves and
    writes that go through: exactly the files registered in the old
    directory are moved, by name, to the new one; every other file stays
    where it was, the unregistered files of the old directory and the
    whole disabled directory included; every record of the old directory
    points to the new one and no other record changes; the profile gets
    the new directory and is written to the profile store; the database
    is saved once, and the message counts the files moved. *)
Theorem migration_moves_registered_files (w : World)
    (profile_name new_path : string) (p : Profile) :
  dict_get profile_name (profiles w) = Some p →
  new_path ≠ "" → new_path ≠ mod_directory p →
  NoDup (files_to_move (mod_directory p) w) →
  faulty (OpMkdir new_path) = false →
  (∀ f, f ∈ files_to_move (mod_directory p) w →
        faulty (OpMove f (new_path, f.2)) = false) →
  faulty (OpWrite profiles_file) = false →
  ∃ w', edit_profile faulty (Some profile_name) new_path true w = (Val tt, w') ∧
    (∀ f, f ∈ files_to_move (mod_directory p) w →
       fs w' !! (new_path, f.2) = fs w !! f ∧ fs w' !! f = None) ∧
    (∀ q, q ∉ files_to_move (mod_directory p) w →
       (∀ f, f ∈ files_to_move (mod_directory p) w → (new_path, f.2) ≠ q) →
       fs w' !! q = fs w !! q) ∧
    (∀ k, dict_get k (mod_db w') =
          migrated (mod_directory p) new_path <$> dict_get k (mod_db w)) ∧
    dict_get profile_name (profiles w') = Some (set_mod_directory new_path p) ∧
    profiles_disk w' = Some (profiles w') ∧
    db_saves w' = S (db_saves w) ∧
    head (dialogs w') =
      Some (Information "Success"
              ("Directory changed and "
               +:+ pretty (length (files_to_move (mod_directory p) w))
               +:+ " file(s) migrated!")).
Proof.
  intros Hp Hne1 Hne2 Hnd Hmk Hok Hwr.
  set (old := mod_directory p) in *. set (files := files_to_move old w) in *.
  assert (∀ f, f ∈ files → f.1 = old ∧ is_Some (fs w !! f)) as Hall
    by (intros f; apply files_to_move_spec).
  assert (old ≠ new_path) as Hdir by done.
  pose proof (counted_moves_succeed old new_path files 0 w Hdir Hnd Hall Hok) as Hmv.
  set (w1 := with_fs (move_fs new_path files) w) in *.
  set (w2 := with_profiles (dict_update profile_name (set_mod_directory new_path))
               (with_mod_db (map (λ e : string * ModInfo,
                  if String.eqb (installed_path e.2) old
                  then (e.1, set_installed_path new_path e.2) else e)) w1)).
  set (w3 := with_profiles_disk (Some (profiles w2)) w2).
  destruct (save_mod_db_effect faulty w3) as (w4 & Hsave & Hsaves & Hdb4 & _).
  assert (∀ X (g : World → X),
            (∀ w, g (count_save w) = g w) → (∀ d w, g (with_bak_disk d w) = g w) →
            (∀ d w, g (with_db_disk d w) = g w) → (∀ d w, g (push_dialog d w) = g w) →
            g w4 = g w3) as Hkeep.
  { intros X g H1 H2 H3 H4.
    pose proof (save_mod_db_preserves faulty (keeps g) H1 H2 H3 H4 w3) as H.
    by rewrite Hsave in H. }
  eexists. split.
  - unfold edit_profile. rewrite (bind_val _ _ w (profiles w) w) by done.
    rewrite Hp. apply String.eqb_neq in Hne1, Hne2. fold old. rewrite Hne1, Hne2. simpl.
    rewrite (bind_val _ _ w files w) by done. simpl.
    erewrite try_val; [reflexivity|].
    unfold mkdir, guard. rewrite Hmk.
    rewrite (bind_val _ _ w tt w) by done.
    rewrite (bind_val _ _ _ _ _ Hmv).
    rewrite (bind_val _ _ w1 tt (with_mod_db _ w1)) by done.
    rewrite (bind_val _ _ _ tt w2) by done.
    unfold write_profiles, guard. rewrite Hwr.
    rewrite (bind_val _ _ w2 tt w3) by done.
    rewrite (bind_val _ _ _ _ _ Hsave). reflexivity.
  - simpl.
    rewrite (Hkeep _ fs), (Hkeep _ mod_db), (Hkeep _ profiles), (Hkeep _ profiles_disk)
      by done.
    simpl. split; [|split; [|split; [|split; [|split; [|split]]]]].
    + intros f Hf. by eapply move_fs_moved.
    + intros q Hq Hqn. by apply move_fs_other.
    + intros k. apply dict_get_migrated.
    + unfold dict_update. rewrite Hp. apply dict_get_set_eq.
    + done.
    + by rewrite Hsaves.
    + done.
Qed.

Lemma toggle_missing_run (checked : bool) (mod_name : string) (w : World)
    (info : ModInfo) :
  dict_get mod_name (mod_db w) = Some info →
  glob (installed_path info) mod_name (fs w) = [] →
  glob (disabled_dir (installed_path info)) mod_name (fs w) = [] →
  faulty (OpMkdir (disabled_dir (installed_path info))) = false →
  on_mod_status_changed faulty checked mod_name 0 w =
    (Val (ModFileMissing, negb checked),
     push_dialog (missing_warning mod_name (installed_path info)) w).
Proof.
  intros Hget Hact Hdis Hmk. unfold on_mod_status_changed, mkdir. munfold. simpl.
  rewrite Hget, Hmk. simpl. rewrite Hact, Hdis. by destruct checked.
Qed.


End MigrationMore.

(** X9, witness *)
Lemma migration_moves_registered_files_witness :
  ∃ w', edit_profile no_faults (Some "Default") "/new" true x_migrate_world
        = (Val tt, w') ∧
    (∀ f, f ∈ files_to_move "/mods" x_migrate_world →
       fs w' !! ("/new", f.2) = fs x_migrate_world !! f ∧ fs w' !! f = None) ∧
    (∀ q, q ∉ files_to_move "/mods" x_migrate_world →
       (∀ f, f ∈ files_to_move "/mods" x_migrate_world → ("/new", f.2) ≠ q) →
       fs w' !! q = fs x_migrate_world !! q) ∧
    (∀ k, dict_get k (mod_db w') =
          migrated "/mods" "/new" <$> dict_get k (mod_db x_migrate_world)) ∧
    dict_get "Default" (profiles w')
      = Some (set_mod_directory "/new" (mkProfile "/mods" true)) ∧
    profiles_disk w' = Some (profiles w') ∧
    db_saves w' = S (db_saves x_migrate_world) ∧
    head (dialogs w') =
      Some (Information "Success"
              ("Directory changed and "
               +:+ pretty (length (files_to_move "/mods" x_migrate_world))
               +:+ " file(s) migrated!")).
Proof.
  apply (migration_moves_registered_files no_faults x_migrate_world "Default" "/new"
           (mkProfile "/mods" true)).
  - reflexivity.
  - discriminate.
  - discriminate.
  - apply (bool_decide_unpack _). by vm_compute.
  - reflexivity.
  - intros f Hf. reflexivity.
  - reflexivity.
Defined.


(** * Further properties of the bulk update *)

Section BulkUpdateMore.
Variable faulty : fsop → bool.
Variable remote : string → reply.

(** X11: the bulk update stores the refreshed record under the name of
    the extracted file and never removes a key.  In the turn of an
    enabled record whose new archive brings files under other names than
    the record's key, each extracted file gets a record of its own and the
    record under the old key stays in the database exactly as it was. *)
Theorem bulk_update_keeps_old_key
    (w w1 w2 w3 : World) (mods : dict ModInfo) (completed : nat)
    (failed : list (string * string)) (mod_id : string) (info : ModInfo)
    (u : string) (zp : path) (files : list string) :
  NoDup (dict_keys mods) →
  (mod_id, info) ∈ mods →
  enabled info = true →
  url info = Some u → u ≠ "" →
  remove_old faulty (disabled_of mods) mod_id info w = (Val tt, w1) →
  loader_download_mod faulty remote u (installed_path info)
    (make_progress_callback (length mods) completed false) w1 = (Val zp, w2) →
  extract_mod faulty zp true
    (Some (make_progress_callback (length mods) completed true)) w2
    = (Val files, w3) →
  files ≠ [] →
  mod_id ∉ files →
  ∃ w', update_one faulty remote (length mods) (disabled_of mods)
          (completed, failed) (mod_id, info) w = (Val (S completed, failed), w') ∧
    dict_get mod_id (mod_db w') = dict_get mod_id (mod_db w) ∧
    ∀ f, f ∈ files → is_file (installed_path info, f) w3 = true →
      dict_get f (mod_db w') = Some (refreshed info f (clock w3) true).
Proof.
  intros Hnd Hin Hen Hurl Hu E1 E2 E3 Hfiles Hnew.
  assert (mod_db w3 = mod_db w) as Hdb3.
  { pose proof (remove_old_preserves faulty (keeps mod_db) (disabled_of mods) mod_id info
                  (λ _ _, eq_refl) w) as H1.
    pose proof (loader_download_mod_preserves faulty remote (keeps mod_db) u
                  (installed_path info)
                  (make_progress_callback (length mods) completed false)) as H2.
    pose proof (extract_mod_preserves faulty (keeps mod_db) zp true
                  (Some (make_progress_callback (length mods) completed true))) as H3.
    specialize (H2 ltac:(by repeat split) ltac:(intros; by apply
                  make_progress_callback_preserves) w1).
    specialize (H3 ltac:(by repeat split) ltac:(intros ? [= <-] ?; by apply
                  make_progress_callback_preserves) w2).
    rewrite E1 in H1. rewrite E2 in H2. rewrite E3 in H3.
    unfold keeps in *. simpl in *. congruence. }
  unfold update_one. rewrite Hurl. simpl.
  apply String.eqb_neq in Hu. rewrite Hu.
  rewrite (disabled_of_get _ _ _ Hnd Hin), Hen.
  rewrite bool_decide_eq_false_2 by (by intros [? ?]).
  destruct (refresh_enabled_loop faulty info (clock w3) files (tick w3))
    as (w4 & E & Hfs & Hdb).
  assert (redownload faulty remote (length mods) completed false u info w1
          = (Val tt, w4)) as E4.
  { unfold redownload. rewrite (bind_val _ _ _ _ _ E2), (bind_val _ _ _ _ _ E3).
    destruct files as [|f0 files0] eqn:Hf; [done|]. rewrite <- Hf in *.
    by rewrite (bind_val _ _ w3 (clock w3) (tick w3)) by done. }
  erewrite bind_val.
  2:{ apply try_val. rewrite (bind_val _ _ _ _ _ E1).
      apply try_val. rewrite (bind_val _ _ _ _ _ E4). reflexivity. }
  simpl. unfold setValue, modify, bind, ret. eexists. split; [reflexivity|].
  simpl. split.
  - specialize (Hdb mod_id). rewrite bool_decide_eq_false_2 in Hdb by done.
    simpl in Hdb. by rewrite Hdb, Hdb3.
  - intros f Hf Hfile. specialize (Hdb f).
    rewrite bool_decide_eq_true_2 in Hdb by done.
    replace (is_file (installed_path info, f) (tick w3))
      with (is_file (installed_path info, f) w3) in Hdb by done.
    by rewrite Hfile in Hdb.
Qed.

End BulkUpdateMore.

(** X11, witness *)
Lemma bulk_update_keeps_old_key_witness :
  ∃ w', update_one no_faults x_rename_remote (length c5_mods) (disabled_of c5_mods)
          (0%nat, []) ("x.pak", c5_info) c5_world = (Val (1%nat, []), w') ∧
    dict_get "x.pak" (mod_db w') = dict_get "x.pak" (mod_db c5_world) ∧
    ∀ f, f ∈ ["x_v2.pak"] → is_file (installed_path c5_info, f) x_rename_w3 = true →
      dict_get f (mod_db w') = Some (refreshed c5_info f (clock x_rename_w3) true).
Proof.
  apply (bulk_update_keeps_old_key no_faults x_rename_remote
           c5_world x_rename_w1 x_rename_w2 x_rename_w3 c5_mods 0 [] "x.pak" c5_info
           x_rename_url ("/mods", "x.zip") ["x_v2.pak"]).
  - apply (bool_decide_unpack _). by vm_compute.
  - left.
  - reflexivity.
  - reflexivity.
  - discriminate.
  - vm_compute. reflexivity.
  - vm_compute. reflexivity.
  - vm_compute. reflexivity.
  - discriminate.
  - apply (bool_decide_unpack _). by vm_compute.
Defined.

(** * Further properties of the downloader *)

Section DownloadMore.
Variable faulty : fsop → bool.
Variable remote : string → reply.

(** X12: a file whose declared size is zero while its stream delivers
    data makes the download raise [ZeroDivisionError] at the first block,
    before any percentage reaches the callback; the file opened for the
    download stays in the target directory.  An install of such an
    address ends with the warning that carries this error and registers
    nothing. *)
Theorem download_of_zero_size_file_fails (url dir filename : string)
    (c : Z) (chunks : list Z) (body : option content) (cb : Z → M unit) (w : World)
    (url_input profile_name : string) (p : Profile) :
  Str.strip url ≠ "" →
  remote (Str.strip url) = Asset filename 0 (c :: chunks) body →
  faulty (OpMkdir dir) = false →
  faulty (OpWrite (dir, filename)) = false →
  Str.strip url_input ≠ "" →
  Str.strip (clean (Str.strip url_input)) = Str.strip url →
  dict_get profile_name (profiles w) = Some p → mod_directory p = dir →
  (∃ w', loader_download_mod faulty remote url dir cb w
         = (Exc (ZeroDivisionError "division by zero"), w') ∧
     is_file (dir, filename) w' = true ∧
     bar w' = bar w ∧ net w' = Str.strip url :: net w) ∧
  (∃ w', download_mod faulty remote url_input (Some profile_name) w = (Val tt, w') ∧
     mod_db w' = mod_db w ∧ db_saves w' = db_saves w ∧
     is_file (dir, filename) w' = true ∧
     dialogs w' = Warning "Error" "An error occurred: division by zero" :: dialogs w).
Proof.
  intros Hurl Hrem Hmk Hwr Hin Hclean Hp Hdir.
  assert (∀ u w0 cb0, Str.strip u = Str.strip url →
    loader_download_mod faulty remote u dir cb0 w0
    = (Exc (ZeroDivisionError "division by zero"),
       with_fs (<[(dir, filename) := Blob ""]>) (push_net (Str.strip url) w0)))
    as Hrun.
  { intros u w0 cb0 Hu. unfold loader_download_mod. rewrite Hu.
    apply String.eqb_neq in Hurl. rewrite Hurl, Hrem.
    unfold mkdir, write_file, receive. munfold. simpl. by rewrite Hmk, Hwr. }
  split.
  - eexists. split; [by apply Hrun|]. simpl. unfold is_file. simpl.
    by rewrite lookup_insert_eq.
  - unfold download_mod.
    apply String.eqb_neq in Hin. rewrite Hin.
    rewrite (bind_val _ _ w (profiles w) w) by done. rewrite Hp, Hdir.
    rewrite (bind_val _ _ w tt (push_bar 0 w)) by done.
    erewrite try_exc.
    2:{ erewrite bind_exc; [reflexivity|]. by apply Hrun. }
    eexists. split; [reflexivity|]. simpl. unfold is_file. simpl.
    by rewrite lookup_insert_eq.
Qed.

End DownloadMore.

(** X12, witness *)
Lemma download_of_zero_size_file_fails_witness :
  (∃ w', loader_download_mod no_faults x_zero_remote x_install_url "/mods" setValue
           x_install_world
         = (Exc (ZeroDivisionError "division by zero"), w') ∧
     is_file ("/mods", "pack.zip") w' = true ∧
     bar w' = bar x_install_world ∧
     net w' = Str.strip x_install_url :: net x_install_world) ∧
  (∃ w', download_mod no_faults x_zero_remote x_install_url (Some "Default")
           x_install_world = (Val tt, w') ∧
     mod_db w' = mod_db x_install_world ∧ db_saves w' = db_saves x_install_world ∧
     is_file ("/mods", "pack.zip") w' = true ∧
     dialogs w' = Warning "Error" "An error occurred: division by zero"
                  :: dialogs x_install_world).
Proof.
  apply (download_of_zero_size_file_fails no_faults x_zero_remote x_install_url "/mods"
           "pack.zip" 3 [] (Some (ZipFile x_zip_members)) setValue x_install_world
           x_install_url "Default" (mkProfile "/mods" true)).
  - vm_compute. discriminate.
  - vm_compute. reflexivity.
  - reflexivity.
  - reflexivity.
  - vm_compute. discriminate.
  - vm_compute. reflexivity.
  - reflexivity.
  - reflexivity.
Defined.

(** * Profiles *)

Lemma has_key_true {V} (k : string) (d : dict V) :
  has_key k d = true ↔ is_Some (dict_get k d).
Proof. unfold has_key. destruct (dict_get k d); split; try done; by intros [? ?]. Qed.

Lemma has_key_false {V} (k : string) (d : dict V) :
  has_key k d = false ↔ dict_get k d = None.
Proof. unfold has_key. by destruct (dict_get k d). Qed.

Lemma dict_set_fresh {V} (k : string) (v : V) (d : dict V) :
  dict_get k d = None → dict_set k v d = (d ++ [(k, v)])%list.
Proof.
  induction d as [|[k' x] d IH]; simpl; [done|].
  destruct (String.eqb k k'); [done|]. intros H. by rewrite IH.
Qed.

Lemma dict_del_length {V} (k : string) (d : dict V) :
  is_Some (dict_get k d) → S (length (dict_del k d)) = length d.
Proof.
  induction d as [|[k' x] d IH]; simpl; [by intros [? ?]|].
  destruct (String.eqb k k'); [done|]. intros H. simpl. by rewrite IH.
Qed.

Lemma dict_del_NoDup {V} (k : string) (d : dict V) :
  NoDup (dict_keys d) → NoDup (dict_keys (dict_del k d)).
Proof. intros H. eapply sublist_NoDup; [exact H|apply dict_del_keys_sublist]. Qed.

Lemma dict_set_fresh_NoDup {V} (k : string) (v : V) (d : dict V) :
  dict_get k d = None → NoDup (dict_keys d) → NoDup (dict_keys (dict_set k v d)).
Proof.
  intros Hk Hnd. rewrite dict_set_fresh by done. unfold dict_keys in *.
  rewrite fmap_app. apply NoDup_app. split; [done|]. split.
  - intros x Hx [->|Hin%elem_of_nil]%elem_of_cons; [|done].
    by apply (dict_get_None_keys _ _ Hk).
  - simpl. apply NoDup_singleton.
Qed.

Section ProfileProperties.
Variable faulty : fsop → bool.
Variable remote : string → reply.
Variable mods_dir : string.

(** X13: renaming a profile moves its settings, and nothing else, to
    the new name.  For a profile other than Default and a new name that
    is free, the table has the settings under the new name and nothing
    under the old one, every other profile is as before, names stay
    distinct and the store holds the table.  The mod records are not
    touched: those of the profile remain filed under its old name, so a
    bulk update of the renamed profile finds no mod and does nothing. *)
Theorem rename_profile_moves_settings_only (w : World) (old_name new_name : string)
    (p : Profile) :
  NoDup (dict_keys (profiles w)) →
  dict_get old_name (profiles w) = Some p →
  old_name ≠ "Default" → new_name ≠ "" → new_name ≠ old_name →
  dict_get new_name (profiles w) = None →
  faulty (OpWrite profiles_file) = false →
  ∃ w', rename_profile faulty (Some old_name) (Some new_name) w = (Val tt, w') ∧
    dict_get new_name (profiles w') = Some p ∧
    dict_get old_name (profiles w') = None ∧
    (∀ k, k ≠ old_name → k ≠ new_name →
          dict_get k (profiles w') = dict_get k (profiles w)) ∧
    length (profiles w') = length (profiles w) ∧
    NoDup (dict_keys (profiles w')) ∧
    profiles_disk w' = Some (profiles w') ∧
    mod_db w' = mod_db w ∧ fs w' = fs w ∧
    (mods_of new_name (mod_db w) = [] →
     check_updates faulty remote true (Some new_name) w' = (Val tt, w')).
Proof.
  intros Hnd Hold Hdef Hne Hneq Hnew Hwr.
  eexists. split.
  - unfold rename_profile. apply String.eqb_neq in Hdef, Hne, Hneq.
    rewrite Hdef, Hne, Hneq. simpl.
    rewrite (bind_val _ _ w (profiles w) w) by done.
    rewrite (proj2 (has_key_false _ _) Hnew), Hold.
    unfold write_profiles, guard. rewrite Hwr. munfold. simpl. reflexivity.
  - simpl.
    assert (dict_get new_name (dict_del old_name (profiles w)) = None) as Hfresh
      by (by rewrite dict_get_del_ne).
    split; [apply dict_get_set_eq|].
    split; [rewrite dict_get_set_ne by done; by apply dict_get_del_eq|].
    split; [intros k H1 H2; rewrite dict_get_set_ne by done; by apply dict_get_del_ne|].
    split.
    { rewrite dict_set_fresh by done. rewrite length_app. simpl.
      rewrite <- (dict_del_length old_name (profiles w)) by eauto. lia. }
    split; [apply dict_set_fresh_NoDup; [done|by apply dict_del_NoDup]|].
    split; [done|]. split; [done|]. split; [done|].
    intros Hmods. unfold check_updates. simpl.
    rewrite (bind_val _ _ _ (mod_db w) _) by done. by rewrite Hmods.
Qed.

(** X14: deleting a profile always leaves a profile.  A confirmed
    deletion of the only profile, whatever its name and directory,
    replaces the table by the single profile Default on the mods
    directory of the working directory; otherwise it removes the selected
    profile and no other.  The store holds the new table; the mod records
    and the files of the deleted profile are left as they were. *)
Theorem delete_profile_keeps_a_profile (w : World) (current : string) :
  NoDup (dict_keys (profiles w)) →
  is_Some (dict_get current (profiles w)) →
  faulty (OpWrite profiles_file) = false →
  ∃ w', delete_profile faulty mods_dir (Some current) true w = (Val tt, w') ∧
    (length (profiles w) = 1%nat → profiles w' = default_profiles mods_dir) ∧
    (length (profiles w) ≠ 1%nat →
     dict_get current (profiles w') = None ∧
     S (length (profiles w')) = length (profiles w) ∧
     ∀ k, k ≠ current → dict_get k (profiles w') = dict_get k (profiles w)) ∧
    profiles w' ≠ [] ∧
    profiles_disk w' = Some (profiles w') ∧
    mod_db w' = mod_db w ∧ fs w' = fs w.
Proof.
  intros Hnd Hcur Hwr. unfold delete_profile. simpl.
  rewrite (bind_val _ _ w (profiles w) w) by done.
  destruct (length (profiles w) =? 1)%nat eqn:Hlen.
  - apply Nat.eqb_eq in Hlen.
    eexists. split.
    { unfold write_profiles, guard. rewrite Hwr. munfold. simpl. reflexivity. }
    simpl. split; [done|]. split; [done|]. done.
  - apply Nat.eqb_neq in Hlen. rewrite (proj2 (has_key_true _ _) Hcur).
    eexists. split.
    { unfold write_profiles, guard. rewrite Hwr. munfold. simpl. reflexivity. }
    simpl. split; [done|]. split.
    { intros _. split; [by apply dict_get_del_eq|].
      split; [by apply dict_del_length|]. intros k Hk. by apply dict_get_del_ne. }
    split; [|done].
    pose proof (dict_del_length current (profiles w) Hcur) as Hl.
    destruct (profiles w) as [|a [|b l]] eqn:Ep; simpl in *; [lia|lia|].
    intros Hnil. rewrite Hnil in Hl. simpl in Hl. lia.
Qed.

(** X15: a new profile never replaces one.  With a name already in the
    table the dialog ends with a warning and changes nothing, the
    directory dialog not even being asked; with a free name and a chosen
    directory the profile is put at the end of the table, extraction
    switched on, the other profiles untouched, and the store holds the
    new table. *)
Theorem new_profile_adds_or_warns (w : World) (name dir_path : string) :
  name ≠ "" →
  (is_Some (dict_get name (profiles w)) →
   new_profile faulty (Some name) dir_path w
   = (Val tt, push_dialog (Warning "Error" "Profile name already exists!") w)) ∧
  (dict_get name (profiles w) = None → dir_path ≠ "" →
   faulty (OpWrite profiles_file) = false →
   ∃ w', new_profile faulty (Some name) dir_path w = (Val tt, w') ∧
     profiles w' = (profiles w ++ [(name, mkProfile dir_path true)])%list ∧
     profiles_disk w' = Some (profiles w') ∧
     (NoDup (dict_keys (profiles w)) → NoDup (dict_keys (profiles w'))) ∧
     mod_db w' = mod_db w ∧ fs w' = fs w ∧ dialogs w' = dialogs w).
Proof.
  intros Hname. apply String.eqb_neq in Hname. split.
  - intros Hin. unfold new_profile. rewrite Hname.
    rewrite (bind_val _ _ w (profiles w) w) by done.
    by rewrite (proj2 (has_key_true _ _) Hin).
  - intros Hfree Hdir Hwr. apply String.eqb_neq in Hdir.
    eexists. split.
    { unfold new_profile. rewrite Hname.
      rewrite (bind_val _ _ w (profiles w) w) by done.
      rewrite (proj2 (has_key_false _ _) Hfree), Hdir.
      unfold write_profiles, guard. rewrite Hwr. munfold. simpl. reflexivity. }
    simpl. split; [by apply dict_set_fresh|]. split; [done|].
    split; [by apply dict_set_fresh_NoDup|done].
Qed.

End ProfileProperties.

(** X13, witness *)
Lemma rename_profile_moves_settings_only_witness :
  ∃ w', rename_profile no_faults (Some "Extra") (Some "Main") x_profiles_world
        = (Val tt, w') ∧
    dict_get "Main" (profiles w') = Some (mkProfile "/extra" true) ∧
    dict_get "Extra" (profiles w') = None ∧
    (∀ k, k ≠ "Extra" → k ≠ "Main" →
          dict_get k (profiles w') = dict_get k (profiles x_profiles_world)) ∧
    length (profiles w') = length (profiles x_profiles_world) ∧
    NoDup (dict_keys (profiles w')) ∧
    profiles_disk w' = Some (profiles w') ∧
    mod_db w' = mod_db x_profiles_world ∧ fs w' = fs x_profiles_world ∧
    (mods_of "Main" (mod_db x_profiles_world) = [] →
     check_updates no_faults c5_remote true (Some "Main") w' = (Val tt, w')).
Proof.
  apply (rename_profile_moves_settings_only no_faults c5_remote x_profiles_world
           "Extra" "Main" (mkProfile "/extra" true)).
  - apply (bool_decide_unpack _). by vm_compute.
  - reflexivity.
  - discriminate.
  - discriminate.
  - discriminate.
  - reflexivity.
  - reflexivity.
Defined.

(** X14, witness *)
Lemma delete_profile_keeps_a_profile_witness :
  ∃ w', delete_profile no_faults "/home/mods" (Some "Mine") true x_last_profile_world
        = (Val tt, w') ∧
    (length (profiles x_last_profile_world) = 1%nat →
     profiles w' = default_profiles "/home/mods") ∧
    (length (profiles x_last_profile_world) ≠ 1%nat →
     dict_get "Mine" (profiles w') = None ∧
     S (length (profiles w')) = length (profiles x_last_profile_world) ∧
     ∀ k, k ≠ "Mine" →
          dict_get k (profiles w') = dict_get k (profiles x_last_profile_world)) ∧
    profiles w' ≠ [] ∧
    profiles_disk w' = Some (profiles w') ∧
    mod_db w' = mod_db x_last_profile_world ∧ fs w' = fs x_last_profile_world.
Proof.
  apply (delete_profile_keeps_a_profile no_faults "/home/mods" x_last_profile_world
           "Mine").
  - apply (bool_decide_unpack _). by vm_compute.
  - by eexists.
  - reflexivity.
Defined.

(** X15, witness *)
Lemma new_profile_adds_or_warns_witness :
  (is_Some (dict_get "Extra" (profiles x_profiles_world)) →
   new_profile no_faults (Some "Extra") "/other" x_profiles_world
   = (Val tt, push_dialog (Warning "Error" "Profile name already exists!")
                x_profiles_world)) ∧
  (dict_get "Extra" (profiles x_profiles_world) = None → "/other" ≠ "" →
   no_faults (OpWrite profiles_file) = false →
   ∃ w', new_profile no_faults (Some "Extra") "/other" x_profiles_world = (Val tt, w') ∧
     profiles w' = (profiles x_profiles_world
                    ++ [("Extra", mkProfile "/other" true)])%list ∧
     profiles_disk w' = Some (profiles w') ∧
     (NoDup (dict_keys (profiles x_profiles_world)) → NoDup (dict_keys (profiles w'))) ∧
     mod_db w' = mod_db x_profiles_world ∧ fs w' = fs x_profiles_world ∧
     dialogs w' = dialogs x_profiles_world).
Proof.
  apply (new_profile_adds_or_warns no_faults x_profiles_world "Extra" "/other").
  discriminate.
Defined.

(** * The [.env] file *)

#[local] Arguments String.append : simpl nomatch.

Lemma append_nil_r (s : string) : s +:+ "" = s.
Proof. induction s as [|c s IH]; simpl; [done|by rewrite IH]. Qed.

Lemma append_assoc (a b c : string) : (a +:+ b) +:+ c = a +:+ (b +:+ c).
Proof. induction a as [|x a IH]; simpl; [done|by rewrite IH]. Qed.

Lemma rev_app_append (s t acc : string) :
  String.rev_app (s +:+ t) acc = String.rev_app t (String.rev_app s acc).
Proof. revert acc. induction s as [|c s IH]; intros acc; simpl; [done|apply IH]. Qed.

Lemma rev_app_rev_app (s acc t : string) :
  String.rev_app (String.rev_app s acc) t = String.rev_app acc (s +:+ t).
Proof.
  revert acc t. induction s as [|c s IH]; intros acc t; simpl; [done|].
  by rewrite IH.
Qed.

Lemma rev_involutive_string (s : string) : String.rev (String.rev s) = s.
Proof. unfold String.rev. rewrite rev_app_rev_app. simpl. apply append_nil_r. Qed.

Lemma rev_snoc (s : string) (b : ascii) :
  String.rev (s +:+ String b "") = String b (String.rev s).
Proof. unfold String.rev. by rewrite rev_app_append. Qed.

Lemma strip_between (a b : ascii) (s : string) :
  Str.is_space a = false → Str.is_space b = false →
  Str.strip (String a (s +:+ String b "")) = String a (s +:+ String b "").
Proof.
  intros Ha Hb. unfold Str.strip. simpl Str.lstrip at 2. rewrite Ha.
  change (String a (s +:+ String b "")) with (String a s +:+ String b "").
  rewrite rev_snoc. simpl Str.lstrip. rewrite Hb.
  rewrite <- rev_snoc. apply rev_involutive_string.
Qed.

Lemma lstrip_char_length (c : ascii) (s : string) :
  (String.length (Env.lstrip_char c s) ≤ String.length s)%nat.
Proof.
  induction s as [|a s IH]; simpl; [done|]. destruct (Ascii.eqb a c); simpl; lia.
Qed.

Lemma rstrip_char_length (c : ascii) (s : string) :
  (String.length (Env.rstrip_char c s) ≤ String.length s)%nat.
Proof.
  induction s as [|a s IH]; simpl; [done|].
  destruct (Env.rstrip_char c s); [destruct (Ascii.eqb a c)|]; simpl in *; lia.
Qed.

Lemma rstrip_char_snoc (c : ascii) (s : string) :
  Env.rstrip_char c (s +:+ String c "") = Env.rstrip_char c s.
Proof.
  induction s as [|a s IH]; simpl.
  - by rewrite Ascii.eqb_refl.
  - by rewrite IH.
Qed.

Lemma strip_char_fixed (c : ascii) (k : string) :
  Env.strip_char c k = k → k ≠ "" →
  Env.strip_char c (String c (k +:+ String c "")) = k.
Proof.
  intros Hk Hne. destruct k as [|a k]; [done|].
  unfold Env.strip_char in *. simpl in *. rewrite Ascii.eqb_refl.
  destruct (Ascii.eqb a c) eqn:Ea.
  - exfalso. apply (f_equal String.length) in Hk. simpl in Hk.
    pose proof (rstrip_char_length c (Env.lstrip_char c k)).
    pose proof (lstrip_char_length c k). lia.
  - simpl. rewrite rstrip_char_snoc. exact Hk.
Qed.

Lemma no_break_no_cr (s : string) : no_break s = true → no_cr s = true.
Proof.
  induction s as [|c s IH]; simpl; [done|].
  intros [Hc Hs]%andb_true_iff. rewrite IH by done. rewrite andb_true_r.
  destruct (Ascii.eqb c Env.CR) eqn:E; [|done].
  apply Ascii.eqb_eq in E as ->. done.
Qed.

Lemma no_cr_append (a b : string) :
  no_cr (a +:+ b) = no_cr a && no_cr b.
Proof. induction a as [|c a IH]; simpl; [done|]. by rewrite IH, andb_assoc. Qed.

Lemma no_break_append (a b : string) :
  no_break (a +:+ b) = no_break a && no_break b.
Proof. induction a as [|c a IH]; simpl; [done|]. by rewrite IH, andb_assoc. Qed.

Lemma read_text_id (s : string) : no_cr s = true → Env.read_text s = s.
Proof.
  unfold Env.read_text. induction s as [|c s IH]; simpl; [done|].
  intros [Hc Hs]%andb_true_iff. apply negb_true_iff in Hc. rewrite Hc.
  by rewrite IH.
Qed.

Lemma splitlines_no_break (b : bool) (s : string) :
  Forall (λ l, no_break l = true) (Env.splitlines_from b s).
Proof.
  revert b. induction s as [|c s IH]; intros b; simpl; [constructor|].
  destruct (b && Ascii.eqb c Env.LF); [apply IH|].
  destruct (Env.is_linebreak c) eqn:Ec.
  - constructor; [done|apply IH].
  - specialize (IH false). destruct (Env.splitlines_from false s) as [|l ls]; simpl.
    + constructor; [|constructor]. simpl. by rewrite Ec.
    + apply Forall_cons in IH as [Hl Hls]. constructor; [|done]. simpl.
      by rewrite Ec, Hl.
Qed.

Lemma splitlines_line (l rest : string) :
  no_break l = true →
  Env.splitlines_from false (l +:+ String Env.LF rest)
  = l :: Env.splitlines_from false rest.
Proof.
  induction l as [|c l IH]; simpl; [done|].
  intros [Hc Hl]%andb_true_iff. apply negb_true_iff in Hc. rewrite Hc.
  by rewrite IH.
Qed.

Lemma splitlines_join (lines : list string) :
  lines ≠ [] → Forall (λ l, no_break l = true) lines →
  Env.splitlines (Env.join (String Env.LF "") lines +:+ String Env.LF "") = lines.
Proof.
  unfold Env.splitlines. induction lines as [|l lines IH]; [done|].
  intros _ [Hl Hls]%Forall_cons. destruct lines as [|l2 lines].
  - simpl. by rewrite splitlines_line.
  - change (Env.join (String Env.LF "") (l :: l2 :: lines))
      with (l +:+ String Env.LF "" +:+ Env.join (String Env.LF "") (l2 :: lines)).
    rewrite !append_assoc.
    etrans; [exact (splitlines_line l (Env.join (String Env.LF "") (l2 :: lines)
                                       +:+ String Env.LF "") Hl)|].
    f_equal. by apply IH.
Qed.

Lemma join_no_cr (lines : list string) :
  Forall (λ l, no_break l = true) lines →
  no_cr (Env.join (String Env.LF "") lines +:+ String Env.LF "") = true.
Proof.
  induction lines as [|l lines IH]; [done|].
  intros [Hl Hls]%Forall_cons. destruct lines as [|l2 lines].
  - simpl. rewrite no_cr_append, (no_break_no_cr l) by done. done.
  - change (Env.join (String Env.LF "") (l :: l2 :: lines))
      with (l +:+ String Env.LF "" +:+ Env.join (String Env.LF "") (l2 :: lines)).
    rewrite !append_assoc. rewrite no_cr_append, (no_break_no_cr l) by done.
    change (no_cr (Env.join (String Env.LF "") (l2 :: lines) +:+ String Env.LF "")
            = true).
    by apply IH.
Qed.

(** The lines that [save_api_key_to_env] writes *)
Lemma saved_lines (key : string) (env : option string) :
  no_break key = true →
  env_lines (Env.save_api_key_to_env key env) =
    match env with
    | None => [Env.key_line key]
    | Some raw =>
        let new_lines :=
          map (λ line, if is_key_line line then Env.key_line key else line)
              (env_lines raw) in
        if existsb is_key_line (env_lines raw) then new_lines
        else (new_lines ++ [Env.key_line key])%list
    end.
Proof.
  intros Hkey.
  assert (no_break (Env.key_line key) = true) as Hline.
  { unfold Env.key_line. rewrite no_break_append. simpl.
    rewrite no_break_append, Hkey. done. }
  unfold is_key_line, env_lines, Env.save_api_key_to_env. destruct env as [raw|].
  - fold (env_lines raw).
    set (new_lines := map _ (env_lines raw)).
    assert (Forall (λ l, no_break l = true) new_lines) as Hnew.
    { apply Forall_fmap. eapply Forall_impl; [apply splitlines_no_break|].
      intros l Hl. cbv beta. unfold compose.
      destruct (String.prefix Env.key_prefix l); [exact Hline|exact Hl]. }
    destruct (existsb (String.prefix Env.key_prefix) (env_lines raw)) eqn:Ex.
    + assert (new_lines ≠ []) as Hne.
      { apply existsb_exists in Ex as (l & Hin & _). intros Hnil.
        apply (f_equal length) in Hnil. unfold new_lines in Hnil.
        rewrite length_map in Hnil. by destruct (env_lines raw). }
      rewrite read_text_id by by apply join_no_cr. by apply splitlines_join.
    + assert (Forall (λ l, no_break l = true) (new_lines ++ [Env.key_line key])) as Hall.
      { apply Forall_app. split; [done|]. by constructor. }
      rewrite read_text_id by by apply join_no_cr.
      apply splitlines_join; [|done]. by destruct new_lines.
  - rewrite read_text_id.
    + by apply (splitlines_join [Env.key_line key]); [|constructor].
    + by apply (join_no_cr [Env.key_line key]); constructor.
Qed.

Lemma key_line_is_key_line (key : string) : is_key_line (Env.key_line key) = true.
Proof. done. Qed.

Lemma find_key_key_line (key : string) (rest : list string) :
  Env.strip_char Env.DQ key = key → key ≠ "" →
  Env.find_key (Env.key_line key :: rest) = key.
Proof.
  intros Hq Hne. simpl.
  change (String Env.DQ key +:+ String Env.DQ "")
    with (String Env.DQ (key +:+ String Env.DQ "")).
  rewrite strip_between by done. rewrite strip_char_fixed by done.
  apply String.eqb_neq in Hne. by rewrite Hne.
Qed.

Lemma find_key_skip (line : string) (rest : list string) :
  String.prefix Env.key_prefix line = false →
  Env.find_key (line :: rest) = Env.find_key rest.
Proof. intros H. cbn [Env.find_key]. by rewrite H. Qed.

(** X16: the key written to the [.env] file is the key read back.  For
    a key that is not empty, holds no line boundary and carries no double
    quote at its ends, [load_api_key_from_env] on the file that
    [save_api_key_to_env] wrote returns that key, whatever the file held
    before, whether it existed or not. *)
Theorem api_key_round_trip (key : string) (env : option string) :
  key ≠ "" → no_break key = true → Env.strip_char Env.DQ key = key →
  Env.load_api_key_from_env (Some (Env.save_api_key_to_env key env)) = key.
Proof.
  intros Hne Hnb Hq. unfold Env.load_api_key_from_env.
  fold (env_lines (Env.save_api_key_to_env key env)). rewrite saved_lines by done.
  destruct env as [raw|]; [|by apply find_key_key_line].
  cbv zeta. unfold is_key_line.
  induction (env_lines raw) as [|l lines IH].
  - by apply find_key_key_line.
  - cbn [map existsb]. destruct (String.prefix Env.key_prefix l) eqn:El.
    + by apply find_key_key_line.
    + cbn [orb]. destruct (existsb (String.prefix Env.key_prefix) lines).
      * by rewrite find_key_skip.
      * rewrite <- app_comm_cons. by rewrite find_key_skip.
Qed.

Section Replace.
Variable P : string → bool.
Variable k : string.
Hypothesis Pk : P k = true.

Lemma replace_keeps_others (old : list string) :
  List.filter (λ l, negb (P l)) (map (λ l, if P l then k else l) old)
  = List.filter (λ l, negb (P l)) old.
Proof.
  induction old as [|l ls IH]; [done|]. cbn [map List.filter].
  destruct (P l) eqn:El; cbn [negb]; [by rewrite Pk|]. rewrite El. cbn [negb].
  by rewrite IH.
Qed.

Lemma replace_all (old : list string) :
  Forall (λ l, P l = true → l = k) (map (λ l, if P l then k else l) old).
Proof.
  apply Forall_fmap, Forall_forall. intros l _. unfold compose.
  destruct (P l) eqn:El; [done|]. by rewrite El.
Qed.

Lemma replace_some (old : list string) :
  existsb P old = true → k ∈ map (λ l, if P l then k else l) old.
Proof.
  intros (l & Hl & El)%existsb_exists. apply list_elem_of_In, in_map_iff.
  exists l. split; [|done]. by rewrite El.
Qed.

Lemma replace_idem (old : list string) :
  map (λ l, if P l then k else l) (map (λ l, if P l then k else l) old)
  = map (λ l, if P l then k else l) old.
Proof.
  rewrite map_map. apply map_ext. intros l.
  destruct (P l) eqn:El; [by rewrite Pk|]. by rewrite El.
Qed.

Lemma replace_existsb (old : list string) :
  existsb P (map (λ l, if P l then k else l) old) = existsb P old.
Proof.
  induction old as [|l ls IH]; [done|]. cbn [map existsb]. rewrite IH. f_equal.
  destruct (P l) eqn:El; [by rewrite Pk|done].
Qed.

End Replace.

(** X17: saving a key rewrites the key lines and nothing else.  The
    saved file, read back, has the lines of the old file in their order,
    each line that starts with [MODIO_API_KEY=] replaced by the line of
    the new key, that line added at the end when there was none; so the
    other lines are kept, every key line is the new one, there is one at
    least, and saving the same key again changes nothing. *)
Theorem save_api_key_rewrites_only_key_lines (key raw : string) :
  no_break key = true →
  let old := env_lines raw in
  let new := env_lines (Env.save_api_key_to_env key (Some raw)) in
  List.filter (λ l, negb (is_key_line l)) new
    = List.filter (λ l, negb (is_key_line l)) old ∧
  Forall (λ l, is_key_line l = true → l = Env.key_line key) new ∧
  Env.key_line key ∈ new ∧
  (existsb is_key_line old = true → length new = length old) ∧
  Env.save_api_key_to_env key (Some (Env.save_api_key_to_env key (Some raw)))
    = Env.save_api_key_to_env key (Some raw).
Proof.
  intros Hnb old new. subst new. rewrite saved_lines by done. fold old. cbv zeta.
  pose proof (key_line_is_key_line key) as Pk.
  pose proof (replace_keeps_others is_key_line _ Pk old) as Hkeep.
  pose proof (replace_all is_key_line (Env.key_line key) old) as Hall.
  pose proof (replace_some is_key_line (Env.key_line key) old) as Hin.
  pose proof (replace_idem is_key_line _ Pk old) as Hidem.
  pose proof (replace_existsb is_key_line _ Pk old) as Hex.
  split; [|split; [|split; [|split]]].
  - destruct (existsb is_key_line old); [done|].
    rewrite List.filter_app, Hkeep. cbn [List.filter]. rewrite Pk. cbn [negb].
    apply app_nil_r.
  - destruct (existsb is_key_line old); [done|].
    apply Forall_app. split; [done|]. by constructor.
  - destruct (existsb is_key_line old) eqn:Ex; [by apply Hin|].
    apply elem_of_app. right. left.
  - intros ->. by rewrite length_map.
  - assert (∀ r, Env.save_api_key_to_env key (Some r) =
              Env.join (String Env.LF "")
                (if existsb is_key_line (env_lines r)
                 then map (λ l, if is_key_line l then Env.key_line key else l)
                          (env_lines r)
                 else (map (λ l, if is_key_line l then Env.key_line key else l)
                           (env_lines r) ++ [Env.key_line key])%list)
              +:+ String Env.LF "") as Hsave by done.
    rewrite (Hsave (Env.save_api_key_to_env key (Some raw))).
    rewrite saved_lines by done. fold old. cbv zeta. rewrite (Hsave raw). fold old.
    destruct (existsb is_key_line old) eqn:Ex.
    + by rewrite Hex, Hidem.
    + rewrite existsb_app, map_app, Hidem. cbn [existsb map]. rewrite Pk.
      by rewrite orb_true_r.
Qed.

(** X16, witness *)
Lemma api_key_round_trip_witness :
  Env.load_api_key_from_env (Some (Env.save_api_key_to_env x_key (Some x_env))) = x_key.
Proof.
  apply (api_key_round_trip x_key (Some x_env)); [discriminate|reflexivity..].
Defined.

(** X17, witness *)
Lemma save_api_key_rewrites_only_key_lines_witness :
  let old := env_lines x_env in
  let new := env_lines (Env.save_api_key_to_env x_key (Some x_env)) in
  List.filter (λ l, negb (is_key_line l)) new
    = List.filter (λ l, negb (is_key_line l)) old ∧
  Forall (λ l, is_key_line l = true → l = Env.key_line x_key) new ∧
  Env.key_line x_key ∈ new ∧
  (existsb is_key_line old = true → length new = length old) ∧
  Env.save_api_key_to_env x_key (Some (Env.save_api_key_to_env x_key (Some x_env)))
    = Env.save_api_key_to_env x_key (Some x_env).
Proof.
  apply (save_api_key_rewrites_only_key_lines x_key x_env). reflexivity.
Defined.

(** * The search box *)

Lemma prefix_append (a s : string) :
  String.prefix a s = true ↔ ∃ t, s = a +:+ t.
Proof.
  revert s. induction a as [|c a IH]; intros s.
  - split; [by exists s|by destruct s].
  - destruct s as [|d s]; simpl; [split; [done|by intros [t ?]]|].
    destruct (ascii_dec c d) as [->|Hne].
    + rewrite IH. split; intros [t Ht]; exists t; [by rewrite Ht|by injection Ht].
    + split; [done|]. intros [t [= ? _]]. done.
Qed.

Lemma contains_append (sub s : string) :
  Str.contains sub s = true ↔ ∃ pre post, s = pre +:+ sub +:+ post.
Proof.
  induction s as [|c s IH].
  - change (Str.contains sub "") with (String.prefix sub "" || false).
    rewrite orb_false_r, prefix_append. split.
    + intros [t Ht]. by exists "", t.
    + intros (pre & post & H). destruct pre; [by exists post|done].
  - change (Str.contains sub (String c s))
      with (String.prefix sub (String c s) || Str.contains sub s).
    rewrite orb_true_iff, prefix_append, IH. split.
    + intros [[t Ht]|(pre & post & Ht)].
      * by exists "", t.
      * exists (String c pre), post. by rewrite Ht.
    + intros (pre & post & Ht). destruct pre as [|d pre].
      * left. by exists post.
      * right. injection Ht as _ Ht. by exists pre, post.
Qed.

Lemma contains_trans (a b c : string) :
  Str.contains a b = true → Str.contains b c = true → Str.contains a c = true.
Proof.
  rewrite !contains_append. intros (p1 & q1 & ->) (p2 & q2 & ->).
  exists (p2 +:+ p1), (q1 +:+ q2). by rewrite !append_assoc.
Qed.

Lemma lower_append (a b : string) :
  Str.lower (a +:+ b) = Str.lower a +:+ Str.lower b.
Proof. induction a as [|c a IH]; simpl; [done|by rewrite IH]. Qed.

Lemma contains_empty (s : string) : Str.contains s "" = true → s = "".
Proof. by destruct s. Qed.



(** * The API key dialog *)

Lemma rev_app_length (s acc : string) :
  String.length (String.rev_app s acc) = (String.length s + String.length acc)%nat.
Proof.
  revert acc. induction s as [|c s IH]; intros acc; simpl; [done|].
  rewrite IH. simpl. lia.
Qed.

Lemma rev_length_string (s : string) : String.length (String.rev s) = String.length s.
Proof. unfold String.rev. rewrite rev_app_length. simpl. lia. Qed.

Lemma lstrip_length (s : string) :
  (String.length (Str.lstrip s) ≤ String.length s)%nat.
Proof.
  induction s as [|c s IH]; simpl; [done|]. destruct (Str.is_space c); simpl; lia.
Qed.

Lemma strip_length (s : string) : (String.length (Str.strip s) ≤ String.length s)%nat.
Proof.
  unfold Str.strip. rewrite rev_length_string.
  etrans; [apply lstrip_length|]. rewrite rev_length_string. apply lstrip_length.
Qed.

(** X19: the API key dialog lets through only a key of the right form,
    and the next start finds it.  When the dialog ends by saving, the key
    is an answer of the user stripped of blanks that
    [Config.validate_api_key] accepts, at least 32 characters long; one
    warning was shown for each answer given before, and none of those was
    a cancellation.  If the key holds no line boundary and no double
    quote at its ends, the key that [load_api_key_from_env] reads from
    the saved file is that key, and the test of [__init__] does not ask
    for a key again. *)
Theorem api_key_dialog_saves_valid_key (answers : list answer) (env : option string)
    (warnings : list dialog) (api_key saved : string) :
  show_api_key_setup_dialog answers env = (warnings, SetupSaved api_key saved) →
  validate_api_key api_key = true ∧
  (32 ≤ String.length api_key)%nat ∧
  saved = Env.save_api_key_to_env api_key env ∧
  (∃ text before rest,
     answers = (map Accepted before ++ Accepted text :: rest)%list ∧
     api_key = Str.strip text ∧
     length warnings = length before ∧
     Forall (λ t, validate_api_key (Str.strip t) = false) before) ∧
  (no_break api_key = true → Env.strip_char Env.DQ api_key = api_key →
   Env.load_api_key_from_env (Some saved) = api_key ∧
   needs_api_key (Env.load_api_key_from_env (Some saved)) = false).
Proof.
  revert warnings. induction answers as [|[text|] answers IH]; intros warnings;
    [done| |done].
  cbn [show_api_key_setup_dialog].
  assert (∀ k, validate_api_key k = true → (32 ≤ String.length k)%nat) as Hlen.
  { intros k. unfold validate_api_key.
    destruct (_ || _); [done|]. intros H%Nat.leb_le.
    pose proof (strip_length k). lia. }
  assert (validate_api_key "" = false) as Hempty by done.
  destruct (String.eqb (Str.strip text) "") eqn:Ee.
  { intros [= <- Hr].
    destruct (show_api_key_setup_dialog answers env) as [ws r] eqn:Er.
    simpl in Hr. subst r.
    destruct (IH ws eq_refl) as (Hv & Hl & Hs & (t & before & rest & -> & -> & Hw & Hb) & Hload).
    split; [done|]. split; [done|]. split; [done|]. split; [|done].
    exists t, (text :: before), rest. split; [done|]. split; [done|].
    split; [simpl; by rewrite Hw|]. constructor; [|done].
    apply String.eqb_eq in Ee. by rewrite Ee. }
  destruct (validate_api_key (Str.strip text)) eqn:Ev; cbn [negb].
  - intros [= <- <- <-].
    split; [done|]. split; [by apply Hlen|]. split; [done|]. split.
    { exists text, [], answers. by repeat split. }
    intros Hnb Hq.
    assert (Str.strip text ≠ "") as Hne by (by apply String.eqb_neq).
    rewrite api_key_round_trip by done. split; [done|].
    unfold needs_api_key. rewrite Ee. simpl.
    apply String.eqb_neq. intros Hp. apply Hlen in Ev. rewrite Hp in Ev.
    simpl in Ev. lia.
  - intros [= <- Hr].
    destruct (show_api_key_setup_dialog answers env) as [ws r] eqn:Er.
    simpl in Hr. subst r.
    destruct (IH ws eq_refl) as (Hv & Hl & Hs & (t & before & rest & -> & -> & Hw & Hb) & Hload).
    split; [done|]. split; [done|]. split; [done|]. split; [|done].
    exists t, (text :: before), rest. split; [done|]. split; [done|].
    split; [simpl; by rewrite Hw|]. by constructor.
Qed.

(** X19, witness *)
Lemma api_key_dialog_saves_valid_key_witness :
  validate_api_key x_key = true ∧
  (32 ≤ String.length x_key)%nat ∧
  Env.save_api_key_to_env x_key (Some x_env) = Env.save_api_key_to_env x_key (Some x_env) ∧
  (∃ text before rest,
     [Accepted "  "; Accepted "short"; Accepted (" " +:+ x_key)]
     = (map Accepted before ++ Accepted text :: rest)%list ∧
     x_key = Str.strip text ∧
     length [Warning "Error" "Please enter an API key.";
             Warning "Error"
               "Invalid API key format. Please check your key and try again."]
     = length before ∧
     Forall (λ t, validate_api_key (Str.strip t) = false) before) ∧
  (no_break x_key = true → Env.strip_char Env.DQ x_key = x_key →
   Env.load_api_key_from_env (Some (Env.save_api_key_to_env x_key (Some x_env))) = x_key ∧
   needs_api_key
     (Env.load_api_key_from_env (Some (Env.save_api_key_to_env x_key (Some x_env))))
   = false).
Proof.
  apply (api_key_dialog_saves_valid_key
           [Accepted "  "; Accepted "short"; Accepted (" " +:+ x_key)] (Some x_env)).
  vm_compute. reflexivity.
Defined.

(** * The pruning of old logs *)

Lemma logs_insert_perm (x : Logs.entry) (l : list Logs.entry) :
  Logs.insert x l ≡ₚ x :: l.
Proof.
  induction l as [|y l IH]; simpl; [done|].
  destruct (x.2 <=? y.2)%nat; [done|]. rewrite IH. apply Permutation_swap.
Qed.

Lemma logs_sorted_perm (l : list Logs.entry) : Logs.sorted l ≡ₚ l.
Proof.
  induction l as [|x l IH]; simpl; [done|]. by rewrite logs_insert_perm, IH.
Qed.

Lemma logs_insert_sorted (x : Logs.entry) (l : list Logs.entry) :
  StronglySorted older_eq l → StronglySorted older_eq (Logs.insert x l).
Proof.
  induction 1 as [|y l Hl IH Hy]; simpl.
  - repeat constructor.
  - destruct (x.2 <=? y.2)%nat eqn:E.
    + apply Nat.leb_le in E. constructor; [by constructor|].
      constructor; [done|]. eapply Forall_impl; [exact Hy|].
      intros z Hz. unfold older_eq in *. lia.
    + apply Nat.leb_gt in E. constructor; [done|].
      rewrite logs_insert_perm. constructor; [unfold older_eq; lia|done].
Qed.

Lemma logs_sorted_sorted (l : list Logs.entry) : StronglySorted older_eq (Logs.sorted l).
Proof.
  induction l as [|x l IH]; simpl; [constructor|by apply logs_insert_sorted].
Qed.

Lemma strongly_sorted_app {A} (R : A → A → Prop) (l1 l2 : list A) (x y : A) :
  StronglySorted R (l1 ++ l2) → x ∈ l1 → y ∈ l2 → R x y.
Proof.
  induction l1 as [|a l1 IH]; simpl; [by intros _ ?%elem_of_nil|].
  intros [Hs Ha]%StronglySorted_inv [->|Hx]%elem_of_cons Hy.
  - rewrite Forall_forall in Ha. apply Ha. apply elem_of_app. by right.
  - by apply IH.
Qed.

Lemma name_determines_entry (l : list Logs.entry) (a b : Logs.entry) :
  NoDup l.*1 → a ∈ l → b ∈ l → a.1 = b.1 → a = b.
Proof.
  induction l as [|x l IH]; simpl; [by intros _ ?%elem_of_nil|].
  intros [Hx Hnd]%NoDup_cons [->|Ha]%elem_of_cons [->|Hb]%elem_of_cons Hab; try done.
  - exfalso. apply Hx. rewrite Hab. apply list_elem_of_fmap. by exists b.
  - exfalso. apply Hx. rewrite <- Hab. apply list_elem_of_fmap. by exists a.
  - by apply IH.
Qed.

Lemma filter_all {A} (P : A → Prop) `{!∀ x, Decision (P x)} (l : list A) :
  (∀ x, x ∈ l → P x) → filter P l = l.
Proof.
  induction l as [|x l IH]; intros Hall; [done|].
  rewrite filter_cons_True by (apply Hall; left).
  f_equal. apply IH. intros y Hy. apply Hall. by right.
Qed.

Lemma filter_none {A} (P : A → Prop) `{!∀ x, Decision (P x)} (l : list A) :
  (∀ x, x ∈ l → ¬ P x) → filter P l = [].
Proof.
  induction l as [|x l IH]; intros Hall; [done|].
  rewrite filter_cons_False by (apply Hall; left).
  apply IH. intros y Hy. apply Hall. by right.
Qed.

Section LogPruning.
Variable faulty : fsop → bool.
Variable log_dir : string.

Lemma prune_loop (old dir : list Logs.entry) :
  (∀ o, o ∈ old → faulty (OpUnlink (log_dir, o.1)) = false) →
  foldl (λ d (old_log : Logs.entry),
           if faulty (OpUnlink (log_dir, old_log.1)) then d
           else filter (λ e : Logs.entry, e.1 ≠ old_log.1) d) dir old
  = filter (λ e : Logs.entry, e.1 ∉ old.*1) dir.
Proof.
  revert dir. induction old as [|o old IH]; intros dir Hok; simpl.
  - symmetry. apply filter_all. intros e _. apply not_elem_of_nil.
  - rewrite Hok by left. rewrite IH by (intros; apply Hok; by right).
    rewrite list_filter_filter. apply list_filter_iff. intros e.
    rewrite not_elem_of_cons. tauto.
Qed.

(** X20: the pruning of [setup_logging] keeps the ten newest logs.  In a
    log directory whose entries can be removed, after the pruning the
    entries that are not [.log] files are all there; the log files left
    are ten, or all of them when there were ten or fewer; and no log
    that was removed is newer than a log that was kept. *)
Theorem log_pruning_keeps_newest (dir : list Logs.entry) :
  NoDup dir.*1 →
  (∀ e, e ∈ dir → faulty (OpUnlink (log_dir, e.1)) = false) →
  Logs.prune faulty log_dir dir `sublist_of` dir ∧
  (∀ e, e ∈ dir → ¬ is_log e → e ∈ Logs.prune faulty log_dir dir) ∧
  length (filter is_log (Logs.prune faulty log_dir dir))
    = (length (filter is_log dir) `min` 10)%nat ∧
  (∀ kept removed,
     kept ∈ filter is_log (Logs.prune faulty log_dir dir) →
     removed ∈ dir → removed ∉ Logs.prune faulty log_dir dir →
     older_eq removed kept).
Proof.
  intros Hnd Hok. unfold Logs.prune, Logs.old_logs, Logs.log_files.
  fold is_log. set (logs := filter is_log dir).
  set (s := Logs.sorted logs).
  assert (s ≡ₚ logs) as Hperm by apply logs_sorted_perm.
  assert (∀ e, e ∈ s ↔ e ∈ dir ∧ is_log e) as Hs.
  { intros e. rewrite Hperm. unfold logs. rewrite list_elem_of_filter. tauto. }
  assert (NoDup s.*1) as Hnds.
  { rewrite Hperm. eapply sublist_NoDup; [exact Hnd|].
    apply fmap_sublist, sublist_filter. }
  assert (length s = length logs) as Hlen by by rewrite Hperm.
  destruct (10 <? length s)%nat eqn:E.
  2:{ apply Nat.ltb_ge in E. simpl. split; [done|]. split; [done|].
      split; [fold logs; lia|]. intros kept removed _ H1 H2. done. }
  apply Nat.ltb_lt in E.
  set (k := (length s - 10)%nat). set (old := take k s). set (young := drop k s).
  assert (s = old ++ young)%list as Hsplit by (symmetry; apply take_drop).
  assert (length young = 10%nat) as Hyoung.
  { unfold young. rewrite length_drop. unfold k. lia. }
  assert (∀ o, o ∈ old → o ∈ dir ∧ is_log o) as Hold.
  { intros o Ho. apply Hs. rewrite Hsplit. apply elem_of_app. by left. }
  rewrite prune_loop by (intros o Ho; apply Hok; by apply Hold).
  set (Q := λ e : Logs.entry, e.1 ∉ old.*1).
  assert (∀ e, e ∈ dir → ¬ Q e → e ∈ old) as Hgone.
  { intros e He Hq. unfold Q in Hq. apply dec_stable in Hq.
    apply list_elem_of_fmap in Hq as (o & Hname & Ho).
    replace e with o; [done|].
    eapply name_determines_entry; [exact Hnd|by apply Hold|done|done]. }
  assert (∀ y, y ∈ young → Q y) as Hq_young.
  { intros y Hy Hin. unfold Q in *. rewrite Hsplit, fmap_app in Hnds.
    apply NoDup_app in Hnds as (_ & Hdisj & _). apply (Hdisj y.1 Hin).
    apply list_elem_of_fmap. by exists y. }
  assert (filter Q s = young) as Hfilter.
  { rewrite Hsplit, filter_app.
    rewrite (filter_none Q old).
    - simpl. apply filter_all. apply Hq_young.
    - intros o Ho Hq. apply Hq. apply list_elem_of_fmap. by exists o. }
  assert (filter is_log (filter Q dir) ≡ₚ young) as Hkept.
  { rewrite list_filter_filter.
    rewrite (list_filter_iff _ (λ e, Q e ∧ is_log e)) by (intros; tauto).
    rewrite <- list_filter_filter. fold logs. rewrite <- Hperm. by rewrite Hfilter. }
  split; [apply sublist_filter|]. split; [|split].
  - intros e He Hlog. apply list_elem_of_filter. split; [|done].
    intros Hin. apply Hlog. apply Hold. apply Hgone; [done|]. by intros Hq.
  - rewrite Hkept, Hyoung. fold logs. lia.
  - intros kept removed Hk Hr Hnot.
    rewrite Hkept in Hk.
    assert (removed ∈ old) as Hro.
    { apply Hgone; [done|]. intros Hq. apply Hnot. by apply list_elem_of_filter. }
    eapply strongly_sorted_app; [|exact Hro|exact Hk].
    rewrite <- Hsplit. apply logs_sorted_sorted.
Qed.

End LogPruning.

(** X20, witness *)
Lemma log_pruning_keeps_newest_witness :
  Logs.prune no_faults "logs" x_logs `sublist_of` x_logs ∧
  (∀ e, e ∈ x_logs → ¬ is_log e → e ∈ Logs.prune no_faults "logs" x_logs) ∧
  length (filter is_log (Logs.prune no_faults "logs" x_logs))
    = (length (filter is_log x_logs) `min` 10)%nat ∧
  (∀ kept removed,
     kept ∈ filter is_log (Logs.prune no_faults "logs" x_logs) →
     removed ∈ x_logs → removed ∉ Logs.prune no_faults "logs" x_logs →
     older_eq removed kept).
Proof.
  apply (log_pruning_keeps_newest no_faults "logs" x_logs).
  - apply (bool_decide_unpack _). by vm_compute.
  - intros e He. reflexivity.
Defined.
